(** * Type checkers of "Type Systems Distilled with TypeScript"

    A shallow embedding of the type checkers of the repository
    (one TypeScript file per chapter, each a variant of the same checker)
    and the properties their specification states about them.

    Definitions, one module per variant:
    - [Sub]     : the subtyping variant ([subType]: function variance and
                  width subtyping; calls compare with [subType]);
    - [RecFunc] : the recursive-function variant (calls compare with [typeEq]);
    - [Rec]     : the recursive-types variant, ch.8-rec.ts (equi-recursive
                  types: [typeEqNaive], [typeEqSub], [expandType],
                  [simplifyType]; calls compare with [typeEq]);
    - [Arith]   : the arithmetic checker (booleans, numbers, [?:], [+]);
    - [BasicTs] : basic.ts, whose [typecheck] has the arithmetic cases only;
    - [Basic]   : the basic variant (variables, functions, calls, [const]);
    - [Embed]   : the language of each variant inside the next one.
    Properties: [SubTheory], [RecTheory], and [DriverTheory] for the rules of
    [typecheck] that several variants share; [SubEquality] ([typeEq] against
    [subType]), [RecTypeTheory] (substitution and [typeEqNaive]),
    [ChapterTheory] and [SubChapter] (each checker against the one before),
    [RecScope] (scoping, object literals and streams).

    Conventions of the embedding.
    - A JS object used as a dictionary (the type environment [tyEnv], the
      renaming [map] of [typeEqNaive]) is a [gmap string _]; [{...m, [k]: v}]
      and [m[k] = v] on a fresh copy are [<[k:=v]> m], and
      [typeof m[k] === "undefined"] is [m !! k = None].  A JS object also
      inherits the properties of [Object.prototype] ([inheritedNames]):
      [typeEqNaive] reading its [map] at such a name finds a value that is
      no name, which is modelled; [typecheck] reading [tyEnv] at such a name
      that [tyEnv] does not bind gets a value that is no type, which is
      outside the model, and the properties that would depend on it are
      stated for terms with [ownNames].
    - [error(msg, term)] of the parser package throws; it is the constructor
      [Error msg term].  A [throw "..."] of the checker itself is [Throw],
      a property read on [undefined] is [TypeError].  The [default] branches
      that throw on an unknown tag have no counterpart: the types and terms
      are closed inductive types.
    - [simplifyType] and [typeEqSub] are not structurally recursive and need
      not terminate; they take a bound [fuel] on the depth of their recursion
      and return [Diverge] when it is exhausted.  An outcome other than
      [Diverge] is the outcome for every larger bound
      ([typeEqSub_fuel_mono], [typecheck_fuel_mono]).
    - The source-position tag [loc] of a term is never read by the checker
      and is not part of [Term]; the payload [n] of a numeric literal is
      never read either. *)

From stdpp Require Import gmap strings list.

Local Open Scope string_scope.
Local Open Scope list_scope.
Local Open Scope nat_scope.

#[local] Set Warnings "-register-all".

(** ** Outcomes of a computation *)

Inductive Res (T A : Type) : Type :=
| Ok (a : A)                      (* normal return *)
| Error (msg : string) (t : T)    (* error(msg, t) *)
| Throw (msg : string)            (* throw "msg" *)
| TypeError                       (* reading a property of undefined *)
| Diverge.                        (* unbounded recursion *)

Arguments Ok {T A} a.
Arguments Error {T A} msg t.
Arguments Throw {T A} msg.
Arguments TypeError {T A}.
Arguments Diverge {T A}.

Definition bind {T A B} (r : Res T A) (k : A → Res T B) : Res T B :=
  match r with
  | Ok a => k a
  | Error msg t => Error msg t
  | Throw msg => Throw msg
  | TypeError => TypeError
  | Diverge => Diverge
  end.

Notation "'let*' x := r 'in' k" := (bind r (λ x, k))
  (at level 10, x name, r at level 200, k at level 200).

(** The error kinds of the specification, as the messages the source passes
    to [error]. *)
Definition ConditionNotBoolean : string := "boolean expected".
Definition BranchTypeMismatch : string := "then and else have different types".
Definition OperandNotNumber : string := "number expected".
Definition UnknownVariable (name : string) : string := "unknown variable: " +:+ name.
Definition NotAFunction : string := "function type expected".
Definition ArgumentCountMismatch : string := "wrong number of arguments".
Definition ArgumentTypeMismatch : string := "parameter type mismatch".
Definition NotAnObject : string := "object type expected".
Definition UnknownField (name : string) : string := "unknown property name: " +:+ name.
Definition ReturnTypeMismatch : string := "wrong return type".


(** A result that is a value or a checked error. *)
Definition value_or_checked {T A} (r : Res T A) : Prop :=
  match r with Ok _ | Error _ _ => True | _ => False end.

(** [fuel_le r r']: [r'] is the outcome [r], or [r] ran out of fuel. *)
Definition fuel_le {T A} (r r' : Res T A) : Prop := r = Diverge ∨ r = r'.

(** ** Names every dictionary inherits *)

(** A JS object used as a dictionary inherits the properties of
    [Object.prototype]: a read [m[k]] finds a value for these names although
    [m] has no entry for [k], and [typeof m[k]] is not ["undefined"].  The
    names are those ECMAScript gives [Object.prototype]. *)
Definition inheritedNames : list string :=
  ["constructor"; "hasOwnProperty"; "isPrototypeOf"; "propertyIsEnumerable";
   "toLocaleString"; "toString"; "valueOf"; "__proto__";
   "__defineGetter__"; "__defineSetter__"; "__lookupGetter__"; "__lookupSetter__"].

Definition inheritedName (name : string) : bool :=
  bool_decide (name ∈ inheritedNames).

(** ** Loops of the source over arrays *)

(** [props.find((prop) => prop.name === name)] *)
Definition findProp {A} (name : string) (props : list (string * A)) : option (string * A) :=
  List.find (λ prop, bool_decide (prop.1 = name)) props.

Section array_loops.
Context {A B : Type}.

(** [for (let i = 0; i < xs.length; i++) { if (!f(xs[i], ys[i])) return false }],
    used where the two lengths have been found equal. *)
Fixpoint all2 (f : A → B → bool) (xs : list A) (ys : list B) {struct xs} : bool :=
  match xs, ys with
  | x :: xs', y :: ys' => if f x y then all2 f xs' ys' else false
  | _, _ => true
  end.

(** [const prop = props.find((prop) => prop.name === name);
     if (!prop) return false; return f(prop.type)] *)
Fixpoint findThen (f : A → bool) (name : string) (props : list (string * A)) : bool :=
  match props with
  | [] => false
  | prop :: props' =>
      if bool_decide (prop.1 = name) then f prop.2 else findThen f name props'
  end.
End array_loops.

(** [const newTyEnv = { ...tyEnv }; for (const { name, type } of params)
    newTyEnv[name] = type]: the parameters are entered from first to last. *)
Definition bindParams {A} (params : list (string * A)) (tyEnv : gmap string A)
    : gmap string A :=
  foldl (λ newTyEnv param, <[param.1 := param.2]> newTyEnv) tyEnv params.

(** ** The subtyping variant *)

Module Sub.

Inductive Ty : Type :=
| Boolean
| Number
| Func (params : list (string * Ty)) (retType : Ty)
| Object (props : list (string * Ty)).

(** [Param] and [PropertyType] are both [{ name: string; type: Type }]. *)
Definition Param : Type := string * Ty.
Definition PropertyType : Type := string * Ty.

Inductive Term : Type :=
| t_true
| t_false
| t_number (n : Z)
| t_add (left right : Term)
| t_var (name : string)
| t_func (params : list (string * Ty)) (body : Term)
| t_call (func : Term) (args : list Term)
| t_seq (body rest : Term)
| t_const (name : string) (init rest : Term)
| t_objectNew (props : list (string * Term))
| t_objectGet (obj : Term) (propName : string)
| t_recFunc (funcName : string) (params : list (string * Ty)) (retType : Ty)
            (body rest : Term).

Abbreviation TypeEnv := (gmap string Ty).

Definition isFunc (ty : Ty) : bool := match ty with Func _ _ => true | _ => false end.
Definition isObject (ty : Ty) : bool := match ty with Object _ => true | _ => false end.

(** [typeEq] recurses on components of [ty2]. *)
Fixpoint typeEq (ty1 ty2 : Ty) {struct ty2} : bool :=
  match ty2 with
  | Boolean => match ty1 with Boolean => true | _ => false end
  | Number => match ty1 with Number => true | _ => false end
  | Func params2 retType2 =>
      match ty1 with
      | Func params1 retType1 =>
          if negb (Nat.eqb (length params1) (length params2)) then false else
          if all2 (λ p2 p1, typeEq p1.2 p2.2) params2 params1
          then typeEq retType1 retType2
          else false
      | _ => false
      end
  | Object props2 =>
      match ty1 with
      | Object props1 =>
          if negb (Nat.eqb (length props1) (length props2)) then false else
          forallb (λ prop2, match findProp prop2.1 props1 with
                            | None => false
                            | Some prop1 => typeEq prop1.2 prop2.2
                            end) props2
      | _ => false
      end
  end.

(** [subType ty1 ty2]: is [ty1] a subtype of [ty2]?  The contravariant call
    [subType(ty2.params[i].type, ty1.params[i].type)] swaps the arguments, so
    neither argument decreases alone.  The function is therefore defined
    together with its mirror image [superType ty2 ty1 = subType ty1 ty2],
    both by recursion on the first argument; [subType_eq] below restates the
    recursion with [subType] only, as the source has it. *)
Fixpoint subType (ty1 ty2 : Ty) {struct ty1} : bool :=
  match ty2 with
  | Boolean => match ty1 with Boolean => true | _ => false end
  | Number => match ty1 with Number => true | _ => false end
  | Func params2 retType2 =>
      match ty1 with
      | Func params1 retType1 =>
          if negb (Nat.eqb (length params1) (length params2)) then false else
          if all2 (λ p1 p2, superType p1.2 p2.2) params1 params2 (* contravariant *)
          then subType retType1 retType2
          else false
      | _ => false
      end
  | Object props2 =>
      match ty1 with
      | Object props1 =>
          forallb (λ prop2, findThen (λ type1, subType type1 prop2.2) prop2.1 props1) props2
      | _ => false
      end
  end
with superType (ty2 ty1 : Ty) {struct ty2} : bool :=
  match ty2 with
  | Boolean => match ty1 with Boolean => true | _ => false end
  | Number => match ty1 with Number => true | _ => false end
  | Func params2 retType2 =>
      match ty1 with
      | Func params1 retType1 =>
          if negb (Nat.eqb (length params1) (length params2)) then false else
          if all2 (λ p2 p1, subType p2.2 p1.2) params2 params1 (* contravariant *)
          then superType retType2 retType1
          else false
      | _ => false
      end
  | Object props2 =>
      match ty1 with
      | Object props1 =>
          forallb (λ prop2, match findProp prop2.1 props1 with
                            | None => false
                            | Some prop1 => superType prop2.2 prop1.2
                            end) props2
      | _ => false
      end
  end.

Section loops.
Variable typecheck : Term → TypeEnv → Res Term Ty.

(** The loop of the [call] case, entered once the two lengths agree:
    [for (let i = 0; i < t.args.length; i++)]. *)
Fixpoint checkArgs (args : list Term) (params : list (string * Ty))
    (tyEnv : TypeEnv) : Res Term unit :=
  match args with
  | [] => Ok tt
  | arg :: args' =>
      match params with
      | [] => TypeError
      | param :: params' =>
          let* argTy := typecheck arg tyEnv in
          if subType argTy param.2 then checkArgs args' params' tyEnv
          else Error ArgumentTypeMismatch arg
      end
  end.

(** [t.props.map(({ name, term }) => ({ name, type: typecheck(term, tyEnv) }))] *)
Fixpoint checkProps (props : list (string * Term)) (tyEnv : TypeEnv)
    : Res Term (list (string * Ty)) :=
  match props with
  | [] => Ok []
  | prop :: props' =>
      let* ty := typecheck prop.2 tyEnv in
      let* tys := checkProps props' tyEnv in
      Ok ((prop.1, ty) :: tys)
  end.
End loops.

Fixpoint typecheck (t : Term) (tyEnv : TypeEnv) {struct t} : Res Term Ty :=
  match t with
  | t_true => Ok Boolean
  | t_false => Ok Boolean
  | t_number _ => Ok Number
  | t_add left_ right_ =>
      let* leftTy := typecheck left_ tyEnv in
      match leftTy with
      | Number =>
          let* rightTy := typecheck right_ tyEnv in
          match rightTy with
          | Number => Ok Number
          | _ => Error OperandNotNumber right_
          end
      | _ => Error OperandNotNumber left_
      end
  | t_var name =>
      match tyEnv !! name with
      | None => Error (UnknownVariable name) t
      | Some ty => Ok ty
      end
  | t_func params body =>
      let newTyEnv := bindParams params tyEnv in
      let* retType := typecheck body newTyEnv in
      Ok (Func params retType)
  | t_call func args =>
      let* funcTy := typecheck func tyEnv in
      match funcTy with
      | Func params retType =>
          if negb (Nat.eqb (length params) (length args))
          then Error ArgumentCountMismatch t
          else
            let* _ := checkArgs typecheck args params tyEnv in
            Ok retType
      | _ => Error NotAFunction func
      end
  | t_seq body rest =>
      let* _ := typecheck body tyEnv in
      typecheck rest tyEnv
  | t_const name init rest =>
      let* ty := typecheck init tyEnv in
      let newTyEnv := <[name := ty]> tyEnv in
      typecheck rest newTyEnv
  | t_objectNew props =>
      let* props := checkProps typecheck props tyEnv in
      Ok (Object props)
  | t_objectGet obj propName =>
      let* objectTy := typecheck obj tyEnv in
      match objectTy with
      | Object props =>
          match findProp propName props with
          | None => Error (UnknownField propName) t
          | Some prop => Ok prop.2
          end
      | _ => Error NotAnObject obj
      end
  | t_recFunc funcName params retType body rest =>
      let funcTy := Func params retType in
      let newTyEnv := <[funcName := funcTy]> (bindParams params tyEnv) in
      let* retType' := typecheck body newTyEnv in
      if negb (typeEq retType retType') then Error ReturnTypeMismatch t
      else
        let newTyEnv2 := <[funcName := funcTy]> tyEnv in
        typecheck rest newTyEnv2
  end.

(** The invariant of the data model on [Object] types: field names are
    unique, in the type and in every type inside it. *)
Fixpoint uniqueFields (ty : Ty) : bool :=
  match ty with
  | Boolean | Number => true
  | Func params retType =>
      forallb (λ p, uniqueFields p.2) params && uniqueFields retType
  | Object props =>
      bool_decide (NoDup props.*1) && forallb (λ p, uniqueFields p.2) props
  end.

(** The programs run at the end of the source file. *)
Definition fooNumber : Ty := Object [("foo", Number)].
Definition fooBar : Ty := Object [("foo", Number); ("bar", Boolean)].

(** [{ a: number; a: boolean }]: an object type outside the data model. *)
Definition dupFields : Ty := Object [("a", Number); ("a", Boolean)].

(** An environment with [f: (x: { foo: number }) => number] and
    [x: { foo: number; bar: boolean }]. *)
Definition env_fx : TypeEnv :=
  <["f" := Func [("x", fooNumber)] Number]> (<["x" := fooBar]> ∅).

(* const f = (x: { foo: number }) => x.foo; const x = { foo: 1, bar: true }; f(x); *)
Definition prog1 : Term :=
  t_const "f" (t_func [("x", fooNumber)] (t_objectGet (t_var "x") "foo"))
    (t_const "x" (t_objectNew [("foo", t_number 1); ("bar", t_true)])
       (t_call (t_var "f") [t_var "x"])).

(* type F = () => { foo: number; bar: boolean };
   const f = (x: F) => x().bar; const g = () => ({ foo: 1 }); f(g); *)
Definition prog2 : Term :=
  t_const "f" (t_func [("x", Func [] fooBar)] (t_objectGet (t_call (t_var "x") []) "bar"))
    (t_const "g" (t_func [] (t_objectNew [("foo", t_number 1)]))
       (t_call (t_var "f") [t_var "g"])).

(* const f = (x: { foo: { bar: number } }) => x.foo.bar;
   f({ foo: { bar: 1, baz: true }}); *)
Definition prog3 : Term :=
  t_const "f" (t_func [("x", Object [("foo", Object [("bar", Number)])])]
                 (t_objectGet (t_objectGet (t_var "x") "foo") "bar"))
    (t_call (t_var "f")
       [t_objectNew [("foo", t_objectNew [("bar", t_number 1); ("baz", t_true)])]]).

(* const f = (x: { foo: { bar: number; baz: boolean } }) => x.foo.baz;
   f({ foo: { bar: 1 }}); *)
Definition prog4_arg : Term := t_objectNew [("foo", t_objectNew [("bar", t_number 1)])].
Definition prog4 : Term :=
  t_const "f" (t_func [("x", Object [("foo", Object [("bar", Number); ("baz", Boolean)])])]
                 (t_objectGet (t_objectGet (t_var "x") "foo") "baz"))
    (t_call (t_var "f") [prog4_arg]).

(** The invariant of the data model on terms: the types written in a term
    have unique field names, and so has every object literal. *)
Fixpoint uniqueTerm (t : Term) : bool :=
  match t with
  | t_true | t_false | t_number _ | t_var _ => true
  | t_add left_ right_ => uniqueTerm left_ && uniqueTerm right_
  | t_func params body => forallb (λ p, uniqueFields p.2) params && uniqueTerm body
  | t_call func args => uniqueTerm func && forallb uniqueTerm args
  | t_seq body rest => uniqueTerm body && uniqueTerm rest
  | t_const _ init rest => uniqueTerm init && uniqueTerm rest
  | t_objectNew props =>
      bool_decide (NoDup props.*1) && forallb (λ p, uniqueTerm p.2) props
  | t_objectGet obj _ => uniqueTerm obj
  | t_recFunc _ params retType body rest =>
      forallb (λ p, uniqueFields p.2) params && uniqueFields retType
      && uniqueTerm body && uniqueTerm rest
  end.

End Sub.

(** ** The recursive-function variant *)

Module RecFunc.

Inductive Ty : Type :=
| Boolean
| Number
| Func (params : list (string * Ty)) (retType : Ty)
| Object (props : list (string * Ty)).

Definition Param : Type := string * Ty.
Definition PropertyType : Type := string * Ty.

Inductive Term : Type :=
| t_true
| t_false
| t_if (cond thn els : Term)
| t_number (n : Z)
| t_add (left right : Term)
| t_var (name : string)
| t_func (params : list (string * Ty)) (body : Term)
| t_call (func : Term) (args : list Term)
| t_seq (body rest : Term)
| t_const (name : string) (init rest : Term)
| t_objectNew (props : list (string * Term))
| t_objectGet (obj : Term) (propName : string)
| t_recFunc (funcName : string) (params : list (string * Ty)) (retType : Ty)
            (body rest : Term).

Abbreviation TypeEnv := (gmap string Ty).

Fixpoint typeEq (ty1 ty2 : Ty) {struct ty2} : bool :=
  match ty2 with
  | Boolean => match ty1 with Boolean => true | _ => false end
  | Number => match ty1 with Number => true | _ => false end
  | Func params2 retType2 =>
      match ty1 with
      | Func params1 retType1 =>
          if negb (Nat.eqb (length params1) (length params2)) then false else
          if all2 (λ p2 p1, typeEq p1.2 p2.2) params2 params1
          then typeEq retType1 retType2
          else false
      | _ => false
      end
  | Object props2 =>
      match ty1 with
      | Object props1 =>
          if negb (Nat.eqb (length props1) (length props2)) then false else
          forallb (λ prop2, match findProp prop2.1 props1 with
                            | None => false
                            | Some prop1 => typeEq prop1.2 prop2.2
                            end) props2
      | _ => false
      end
  end.

Section loops.
Variable typecheck : Term → TypeEnv → Res Term Ty.

Fixpoint checkArgs (args : list Term) (params : list (string * Ty))
    (tyEnv : TypeEnv) : Res Term unit :=
  match args with
  | [] => Ok tt
  | arg :: args' =>
      match params with
      | [] => TypeError
      | param :: params' =>
          let* argTy := typecheck arg tyEnv in
          if typeEq param.2 argTy then checkArgs args' params' tyEnv
          else Error ArgumentTypeMismatch arg
      end
  end.

Fixpoint checkProps (props : list (string * Term)) (tyEnv : TypeEnv)
    : Res Term (list (string * Ty)) :=
  match props with
  | [] => Ok []
  | prop :: props' =>
      let* ty := typecheck prop.2 tyEnv in
      let* tys := checkProps props' tyEnv in
      Ok ((prop.1, ty) :: tys)
  end.
End loops.

Fixpoint typecheck (t : Term) (tyEnv : TypeEnv) {struct t} : Res Term Ty :=
  match t with
  | t_true => Ok Boolean
  | t_false => Ok Boolean
  | t_if cond thn els =>
      let* condTy := typecheck cond tyEnv in
      match condTy with
      | Boolean =>
          let* thnTy := typecheck thn tyEnv in
          let* elsTy := typecheck els tyEnv in
          if negb (typeEq thnTy elsTy) then Error BranchTypeMismatch t else Ok thnTy
      | _ => Error ConditionNotBoolean cond
      end
  | t_number _ => Ok Number
  | t_add left_ right_ =>
      let* leftTy := typecheck left_ tyEnv in
      match leftTy with
      | Number =>
          let* rightTy := typecheck right_ tyEnv in
          match rightTy with
          | Number => Ok Number
          | _ => Error OperandNotNumber right_
          end
      | _ => Error OperandNotNumber left_
      end
  | t_var name =>
      match tyEnv !! name with
      | None => Error (UnknownVariable name) t
      | Some ty => Ok ty
      end
  | t_func params body =>
      let newTyEnv := bindParams params tyEnv in
      let* retType := typecheck body newTyEnv in
      Ok (Func params retType)
  | t_call func args =>
      let* funcTy := typecheck func tyEnv in
      match funcTy with
      | Func params retType =>
          if negb (Nat.eqb (length params) (length args))
          then Error ArgumentCountMismatch t
          else
            let* _ := checkArgs typecheck args params tyEnv in
            Ok retType
      | _ => Error NotAFunction func
      end
  | t_seq body rest =>
      let* _ := typecheck body tyEnv in
      typecheck rest tyEnv
  | t_const name init rest =>
      let* ty := typecheck init tyEnv in
      let newTyEnv := <[name := ty]> tyEnv in
      typecheck rest newTyEnv
  | t_objectNew props =>
      let* props := checkProps typecheck props tyEnv in
      Ok (Object props)
  | t_objectGet obj propName =>
      let* objectTy := typecheck obj tyEnv in
      match objectTy with
      | Object props =>
          match findProp propName props with
          | None => Error (UnknownField propName) t
          | Some prop => Ok prop.2
          end
      | _ => Error NotAnObject obj
      end
  | t_recFunc funcName params retType body rest =>
      let funcTy := Func params retType in
      let newTyEnv := <[funcName := funcTy]> (bindParams params tyEnv) in
      let* retType' := typecheck body newTyEnv in
      if negb (typeEq retType retType') then Error ReturnTypeMismatch t
      else
        let newTyEnv2 := <[funcName := funcTy]> tyEnv in
        typecheck rest newTyEnv2
  end.

(** The programs run at the end of the source file:
    [function f(x: number): number { return f(x); }; f] and [...; f(0)]. *)
Definition f_def (rest : Term) : Term :=
  t_recFunc "f" [("x", Number)] Number (t_call (t_var "f") [t_var "x"]) rest.
Definition prog_f : Term := f_def (t_var "f").
Definition prog_f0 : Term := f_def (t_call (t_var "f") [t_number 0]).

(** [function f(x: number): number { return true; }; f] *)
Definition prog_wrong_return : Term :=
  t_recFunc "f" [("x", Number)] Number t_true (t_var "f").

(** The names a term reads from the type environment or enters into it:
    variables, parameters, [const] names and function names. *)
Fixpoint termNames (t : Term) : list string :=
  match t with
  | t_true | t_false | t_number _ => []
  | t_if cond thn els => termNames cond ++ termNames thn ++ termNames els
  | t_add left_ right_ => termNames left_ ++ termNames right_
  | t_var name => [name]
  | t_func params body => params.*1 ++ termNames body
  | t_call func args => termNames func ++ concat (List.map termNames args)
  | t_seq body rest => termNames body ++ termNames rest
  | t_const name init rest => name :: termNames init ++ termNames rest
  | t_objectNew props => concat (List.map (λ p, termNames p.2) props)
  | t_objectGet obj _ => termNames obj
  | t_recFunc funcName params _ body rest =>
      funcName :: params.*1 ++ termNames body ++ termNames rest
  end.

(** None of these names is one that every dictionary inherits: each read
    [tyEnv[name]] then finds an entry of [tyEnv] or [undefined], and each
    [newTyEnv[name] = type] makes an entry. *)
Definition ownNames (t : Term) : bool :=
  forallb (λ name, negb (inheritedName name)) (termNames t).

End RecFunc.

(** ** The recursive-types variant (ch.8-rec.ts) *)

Module Rec.

Inductive Ty : Type :=
| Boolean
| Number
| Func (params : list (string * Ty)) (retType : Ty)
| Object (props : list (string * Ty))
| Rec (name : string) (type : Ty)
| TypeVar (name : string).

Definition Param : Type := string * Ty.
Definition PropertyType : Type := string * Ty.

Inductive Term : Type :=
| t_true
| t_false
| t_if (cond thn els : Term)
| t_number (n : Z)
| t_add (left right : Term)
| t_var (name : string)
| t_func (params : list (string * Ty)) (body : Term)
| t_call (func : Term) (args : list Term)
| t_seq (body rest : Term)
| t_const (name : string) (init rest : Term)
| t_objectNew (props : list (string * Term))
| t_objectGet (obj : Term) (propName : string)
| t_recFunc (funcName : string) (params : list (string * Ty)) (retType : Ty)
            (body rest : Term).

Abbreviation TypeEnv := (gmap string Ty).

Definition R : Type → Type := Res Term.

(** [ty1.tag === ty2.tag] *)
Definition tag (ty : Ty) : string :=
  match ty with
  | Boolean => "Boolean"
  | Number => "Number"
  | Func _ _ => "Func"
  | Object _ => "Object"
  | Rec _ _ => "Rec"
  | TypeVar _ => "TypeVar"
  end.

Definition isRec (ty : Ty) : bool := match ty with Rec _ _ => true | _ => false end.
Definition isFunc (ty : Ty) : bool := match ty with Func _ _ => true | _ => false end.

(** [typeEqNaive]: structural comparison under a renaming [map] of type
    variables.  The loop of the [Func] case runs over [ty1.params] and reads
    [ty2.params[i].type] with no length check (the check is commented out in
    the source), so a shorter [ty2.params] is a [TypeError].  The [TypeVar]
    case reads [map[ty1.name]]: with no entry for the name the read is
    [undefined] and the function throws, except for a name [map] inherits,
    where the read gives the inherited value, which is no name. *)
Fixpoint typeEqNaive (ty1 ty2 : Ty) (map : gmap string string) {struct ty1} : R bool :=
  match ty2 with
  | Boolean | Number => Ok (bool_decide (tag ty1 = tag ty2))
  | Func params2 retType2 =>
      match ty1 with
      | Func params1 retType1 =>
          let* isSameParams :=
            (fix params_loop (ps1 ps2 : list (string * Ty)) {struct ps1} : R bool :=
               match ps1 with
               | [] => Ok true
               | p1 :: ps1' =>
                   match ps2 with
                   | [] => TypeError
                   | p2 :: ps2' =>
                       let* isSameParamType := typeEqNaive p1.2 p2.2 map in
                       if isSameParamType then params_loop ps1' ps2' else Ok false
                   end
               end) params1 params2 in
          if isSameParams then typeEqNaive retType1 retType2 map else Ok false
      | _ => Ok false
      end
  | Object props2 =>
      match ty1 with
      | Object props1 =>
          if negb (Nat.eqb (length props1) (length props2)) then Ok false else
          (fix props_loop (ps1 : list (string * Ty)) : R bool :=
             match ps1 with
             | [] => Ok true
             | prop1 :: ps1' =>
                 match findProp prop1.1 props2 with
                 | None => Ok false
                 | Some prop2 =>
                     let* isSamePropType := typeEqNaive prop1.2 prop2.2 map in
                     if isSamePropType then props_loop ps1' else Ok false
                 end
             end) props1
      | _ => Ok false
      end
  | TypeVar name2 =>
      match ty1 with
      | TypeVar name1 =>
          match map !! name1 with
          | None =>
              (* an inherited value is not ["undefined"], and not [ty2.name] *)
              if inheritedName name1 then Ok false
              else Throw ("unknown type variable: " +:+ name1)
          | Some name => Ok (bool_decide (name = name2))
          end
      | _ => Ok false
      end
  | Rec name2 type2 =>
      match ty1 with
      | Rec name1 type1 =>
          let newMap := <[name1 := name2]> map in
          typeEqNaive type1 type2 newMap
      | _ => Ok false
      end
  end.

(** [expandType ty tyVarName repTy]: replace the type variable [tyVarName]
    by [repTy] in [ty], stopping at a [Rec] that binds the same name. *)
Fixpoint expandType (ty : Ty) (tyVarName : string) (repTy : Ty) {struct ty} : Ty :=
  match ty with
  | Boolean | Number => ty
  | Func params retType =>
      let params := List.map (λ p, (p.1, expandType p.2 tyVarName repTy)) params in
      let retType := expandType retType tyVarName repTy in
      Func params retType
  | Object props =>
      let props := List.map (λ p, (p.1, expandType p.2 tyVarName repTy)) props in
      Object props
  | Rec name type =>
      if bool_decide (name = tyVarName) then ty
      else
        let newType := expandType type tyVarName repTy in
        Rec name newType
  | TypeVar name => if bool_decide (name = tyVarName) then repTy else ty
  end.

(** [simplifyType]: unfold while the type is a [Rec].  The recursion is not
    bounded by the type ([Rec X. X] unfolds to itself), so its depth is
    bounded by [fuel] and exhausting it is [Diverge]. *)
Fixpoint simplifyType (fuel : nat) (ty : Ty) {struct fuel} : R Ty :=
  match ty with
  | Rec name type =>
      match fuel with
      | O => Diverge
      | S fuel => simplifyType fuel (expandType type name ty)
      end
  | _ => Ok ty
  end.

(** [for (const [ty1_, ty2_] of seen) { ... if (haveTypesSeen) return true }] *)
Fixpoint haveTypesSeen (seen : list (Ty * Ty)) (ty1 ty2 : Ty) : R bool :=
  match seen with
  | [] => Ok false
  | (ty1_, ty2_) :: seen' =>
      let* b1 := typeEqNaive ty1_ ty1 ∅ in
      let* b := (if b1 then typeEqNaive ty2_ ty2 ∅ else Ok false) in
      if b then Ok true else haveTypesSeen seen' ty1 ty2
  end.

Section loops.
Variable typeEqSub : Ty → Ty → R bool.

(** [for (let i = 0; i < ty1.params.length; i++)], lengths already equal *)
Fixpoint eqParams (ps1 ps2 : list (string * Ty)) : R bool :=
  match ps1 with
  | [] => Ok true
  | p1 :: ps1' =>
      match ps2 with
      | [] => TypeError
      | p2 :: ps2' =>
          let* isSameParamType := typeEqSub p1.2 p2.2 in
          if isSameParamType then eqParams ps1' ps2' else Ok false
      end
  end.

(** [for (const prop2 of ty2.props)] *)
Fixpoint eqProps (props1 ps2 : list (string * Ty)) : R bool :=
  match ps2 with
  | [] => Ok true
  | prop2 :: ps2' =>
      match findProp prop2.1 props1 with
      | None => Ok false
      | Some prop1 =>
          let* isSamePropType := typeEqSub prop1.2 prop2.2 in
          if isSamePropType then eqProps props1 ps2' else Ok false
      end
  end.
End loops.

(** [typeEqSub]: equality of equi-recursive types with the list [seen] of
    pairs assumed equal.  [fuel] bounds the depth of the recursion. *)
Fixpoint typeEqSub (fuel : nat) (ty1 ty2 : Ty) (seen : list (Ty * Ty)) {struct fuel} : R bool :=
  match fuel with
  | O => Diverge
  | S fuel =>
      let* haveSeen := haveTypesSeen seen ty1 ty2 in
      if haveSeen then Ok true else
      if isRec ty1 then
        let* ty1' := simplifyType fuel ty1 in
        typeEqSub fuel ty1' ty2 (seen ++ [(ty1, ty2)])
      else if isRec ty2 then
        let* ty2' := simplifyType fuel ty2 in
        typeEqSub fuel ty1 ty2' (seen ++ [(ty1, ty2)])
      else
        match ty2 with
        | Boolean => Ok (bool_decide (tag ty1 = "Boolean"))
        | Number => Ok (bool_decide (tag ty1 = "Number"))
        | Func params2 retType2 =>
            match ty1 with
            | Func params1 retType1 =>
                if negb (Nat.eqb (length params1) (length params2)) then Ok false else
                let* isSameParams :=
                  eqParams (λ a b, typeEqSub fuel a b seen) params1 params2 in
                if isSameParams then typeEqSub fuel retType1 retType2 seen else Ok false
            | _ => Ok false
            end
        | Object props2 =>
            match ty1 with
            | Object props1 =>
                if negb (Nat.eqb (length props1) (length props2)) then Ok false else
                eqProps (λ a b, typeEqSub fuel a b seen) props1 props2
            | _ => Ok false
            end
        | TypeVar _ => Throw "unreachable"
        | Rec _ _ => Throw "typeEq error"
        end
  end.

Definition typeEq (fuel : nat) (ty1 ty2 : Ty) : R bool := typeEqSub fuel ty1 ty2 [].

Section driver_loops.
Variable fuel : nat.
Variable typecheck : Term → TypeEnv → R Ty.

(** The loop of the [call] case; it compares with [typeEq]. *)
Fixpoint checkArgs (args : list Term) (params : list (string * Ty))
    (tyEnv : TypeEnv) : R unit :=
  match args with
  | [] => Ok tt
  | arg :: args' =>
      match params with
      | [] => TypeError
      | param :: params' =>
          let* argTy := typecheck arg tyEnv in
          let* isParamAndArgSameType := typeEq fuel param.2 argTy in
          if isParamAndArgSameType then checkArgs args' params' tyEnv
          else Error ArgumentTypeMismatch arg
      end
  end.

Fixpoint checkProps (props : list (string * Term)) (tyEnv : TypeEnv)
    : R (list (string * Ty)) :=
  match props with
  | [] => Ok []
  | prop :: props' =>
      let* ty := typecheck prop.2 tyEnv in
      let* tys := checkProps props' tyEnv in
      Ok ((prop.1, ty) :: tys)
  end.
End driver_loops.

(** [typecheck]: [fuel] is passed to [simplifyType] and [typeEq]; the
    recursion itself is on the term. *)
Fixpoint typecheck (fuel : nat) (t : Term) (tyEnv : TypeEnv) {struct t} : R Ty :=
  match t with
  | t_true => Ok Boolean
  | t_false => Ok Boolean
  | t_if cond thn els =>
      let* condTy0 := typecheck fuel cond tyEnv in
      let* condTy := simplifyType fuel condTy0 in
      match condTy with
      | Boolean =>
          let* thnTy := typecheck fuel thn tyEnv in
          let* elsTy := typecheck fuel els tyEnv in
          let* same := typeEq fuel thnTy elsTy in
          if negb same then Error BranchTypeMismatch t else Ok thnTy
      | _ => Error ConditionNotBoolean cond
      end
  | t_number _ => Ok Number
  | t_add left_ right_ =>
      let* leftTy0 := typecheck fuel left_ tyEnv in
      let* leftTy := simplifyType fuel leftTy0 in
      match leftTy with
      | Number =>
          let* rightTy0 := typecheck fuel right_ tyEnv in
          let* rightTy := simplifyType fuel rightTy0 in
          match rightTy with
          | Number => Ok Number
          | _ => Error OperandNotNumber right_
          end
      | _ => Error OperandNotNumber left_
      end
  | t_var name =>
      match tyEnv !! name with
      | None => Error (UnknownVariable name) t
      | Some ty => Ok ty
      end
  | t_func params body =>
      let newTyEnv := bindParams params tyEnv in
      let* retType := typecheck fuel body newTyEnv in
      Ok (Func params retType)
  | t_call func args =>
      let* funcTy0 := typecheck fuel func tyEnv in
      let* funcTy := simplifyType fuel funcTy0 in
      match funcTy with
      | Func params retType =>
          if negb (Nat.eqb (length params) (length args))
          then Error ArgumentCountMismatch t
          else
            let* _ := checkArgs fuel (typecheck fuel) args params tyEnv in
            Ok retType
      | _ => Error NotAFunction func
      end
  | t_seq body rest =>
      let* _ := typecheck fuel body tyEnv in
      typecheck fuel rest tyEnv
  | t_const name init rest =>
      let* ty := typecheck fuel init tyEnv in
      let newTyEnv := <[name := ty]> tyEnv in
      typecheck fuel rest newTyEnv
  | t_objectNew props =>
      let* props := checkProps (typecheck fuel) props tyEnv in
      Ok (Object props)
  | t_objectGet obj propName =>
      let* objectTy0 := typecheck fuel obj tyEnv in
      let* objectTy := simplifyType fuel objectTy0 in
      match objectTy with
      | Object props =>
          match findProp propName props with
          | None => Error (UnknownField propName) t
          | Some prop => Ok prop.2
          end
      | _ => Error NotAnObject obj
      end
  | t_recFunc funcName params retType body rest =>
      let funcTy := Func params retType in
      let newTyEnv := <[funcName := funcTy]> (bindParams params tyEnv) in
      let* retType' := typecheck fuel body newTyEnv in
      let* same := typeEq fuel retType retType' in
      if negb same then Error ReturnTypeMismatch t
      else
        let newTyEnv2 := <[funcName := funcTy]> tyEnv in
        typecheck fuel rest newTyEnv2
  end.

(** Types with no [Rec] and no [TypeVar] inside, and with unique field names
    in every object type. *)
Fixpoint plainType (ty : Ty) : bool :=
  match ty with
  | Boolean | Number => true
  | Func params retType => forallb (λ p, plainType p.2) params && plainType retType
  | Object props =>
      bool_decide (NoDup props.*1) && forallb (λ p, plainType p.2) props
  | Rec _ _ | TypeVar _ => false
  end.

(** Nesting depth of a type. *)
Fixpoint depth (ty : Ty) : nat :=
  match ty with
  | Boolean | Number | TypeVar _ => 0
  | Func params retType =>
      S (max (foldr (λ p d, max (depth p.2) d) 0 params) (depth retType))
  | Object props => S (foldr (λ p d, max (depth p.2) d) 0 props)
  | Rec _ type => S (depth type)
  end.

(** [function f(x: P): P { return x; }; f] with [P] the type [tyP] below. *)
Definition identity_on (ty : Ty) : Term :=
  t_recFunc "f" [("x", ty)] ty (t_var "x") (t_var "f").

(** A self-referential record type whose only field is a function that
    returns the recursive type: [Rec name. { field: () => name }]. *)
Definition selfStream (name field : string) : Ty :=
  Rec name (Object [(field, Func [] (TypeVar name))]).

(** [Rec X. Rec Y. { a: X; b: Y }]: the body of a [Rec] is again a [Rec]. *)
Definition nestedRec : Ty :=
  Rec "X" (Rec "Y" (Object [("a", TypeVar "X"); ("b", TypeVar "Y")])).

(** [type Q = (a: number) => Q; type P = (a: number, b: P) => Q]:
    two recursive function types with different numbers of parameters. *)
Definition tyQ : Ty := Rec "Q" (Func [("a", Number)] (TypeVar "Q")).
Definition tyP : Ty := Rec "P" (Func [("a", Number); ("b", TypeVar "P")] tyQ).

(** [const f = (x: { foo: number }) => x.foo; const x = { foo: 1, bar: true }; f(x)]:
    a call with an argument of a wider record type. *)
Definition fooNumber : Ty := Object [("foo", Number)].
Definition fooBar : Ty := Object [("foo", Number); ("bar", Boolean)].
Definition env_fx : TypeEnv :=
  <["f" := Func [("x", fooNumber)] Number]> (<["x" := fooBar]> ∅).

(** [function f(x: number): number { return true; }; f] *)
Definition prog_wrong_return : Term :=
  t_recFunc "f" [("x", Number)] Number t_true (t_var "f").

(** [function f(x: number): number { return f(x); }; f] *)
Definition prog_f : Term :=
  t_recFunc "f" [("x", Number)] Number (t_call (t_var "f") [t_var "x"]) (t_var "f").

(** The program checked at the end of the source file:
    [type NumStream = { num: number; rest: () => NumStream }]. *)
Definition NumStream : Ty :=
  Rec "NumStream" (Object [("num", Number); ("rest", Func [] (TypeVar "NumStream"))]).

Definition numbers_prog : Term :=
  t_recFunc "numbers" [("n", Number)] NumStream
    (t_objectNew [("num", t_var "n");
                  ("rest", t_func [] (t_call (t_var "numbers")
                                       [t_add (t_var "n") (t_number 1)]))])
    (t_const "ns1" (t_call (t_var "numbers") [t_number 1])
       (t_const "ns2" (t_call (t_objectGet (t_var "ns1") "rest") [])
          (t_const "ns3" (t_call (t_objectGet (t_var "ns2") "rest") [])
             (t_var "ns3")))).

(** [Rec name. { field: (param: { field: () => number }) => name }]: a
    self-referential record whose only field is a function returning the
    recursive type, the function taking a parameter. *)
Definition paramStream (name field param : string) : Ty :=
  Rec name
    (Object [(field, Func [(param, Object [(field, Func [] Number)])] (TypeVar name))]).

(** The type variables of a type that no enclosing [Rec] binds. *)
Fixpoint freeTypeVars (ty : Ty) : gset string :=
  match ty with
  | Boolean | Number => ∅
  | Func params retType =>
      ⋃ (List.map (λ p, freeTypeVars p.2) params) ∪ freeTypeVars retType
  | Object props => ⋃ (List.map (λ p, freeTypeVars p.2) props)
  | Rec name type => freeTypeVars type ∖ {[name]}
  | TypeVar name => {[name]}
  end.

(** Field names are unique in every object type of a type. *)
Fixpoint uniqueFields (ty : Ty) : bool :=
  match ty with
  | Boolean | Number | TypeVar _ => true
  | Func params retType =>
      forallb (λ p, uniqueFields p.2) params && uniqueFields retType
  | Object props =>
      bool_decide (NoDup props.*1) && forallb (λ p, uniqueFields p.2) props
  | Rec _ type => uniqueFields type
  end.

(** The variables of a term that no enclosing function, [const] or function
    definition binds, following the environments [typecheck] builds. *)
Fixpoint freeVars (t : Term) : gset string :=
  match t with
  | t_true | t_false | t_number _ => ∅
  | t_if cond thn els => freeVars cond ∪ freeVars thn ∪ freeVars els
  | t_add left_ right_ => freeVars left_ ∪ freeVars right_
  | t_var name => {[name]}
  | t_func params body => freeVars body ∖ list_to_set params.*1
  | t_call func args => freeVars func ∪ ⋃ (List.map freeVars args)
  | t_seq body rest => freeVars body ∪ freeVars rest
  | t_const name init rest => freeVars init ∪ (freeVars rest ∖ {[name]})
  | t_objectNew props => ⋃ (List.map (λ p, freeVars p.2) props)
  | t_objectGet obj _ => freeVars obj
  | t_recFunc funcName params _ body rest =>
      (freeVars body ∖ ({[funcName]} ∪ list_to_set params.*1))
      ∪ (freeVars rest ∖ {[funcName]})
  end.

End Rec.

(** ** The arithmetic checker (booleans, numbers, [?:] and [+]) *)

Module Arith.

Inductive Ty : Type :=
| Boolean
| Number.

Inductive Term : Type :=
| t_true
| t_false
| t_if (cond thn els : Term)
| t_number (n : Z)
| t_add (left right : Term).

(** [ty1.tag === ty2.tag] *)
Definition sameTag (ty1 ty2 : Ty) : bool :=
  match ty1, ty2 with
  | Boolean, Boolean | Number, Number => true
  | _, _ => false
  end.

(** The errors are thrown strings. *)
Fixpoint typecheck (t : Term) : Res Term Ty :=
  match t with
  | t_true => Ok Boolean
  | t_false => Ok Boolean
  | t_if cond thn els =>
      let* condTy := typecheck cond in
      match condTy with
      | Boolean =>
          let* thnTy := typecheck thn in
          let* elsTy := typecheck els in
          if negb (sameTag thnTy elsTy) then Throw BranchTypeMismatch else Ok thnTy
      | _ => Throw ConditionNotBoolean
      end
  | t_number _ => Ok Number
  | t_add left_ right_ =>
      let* leftTy := typecheck left_ in
      match leftTy with
      | Number =>
          let* rightTy := typecheck right_ in
          match rightTy with
          | Number => Ok Number
          | _ => Throw OperandNotNumber
          end
      | _ => Throw OperandNotNumber
      end
  end.

End Arith.

(** ** The checker of basic.ts *)

(** The file declares the terms of the basic language, with parameters
    annotated by [Boolean] or [Number], but its [typecheck] has the five
    cases of the arithmetic checker only.  On any other term the [switch]
    matches no case and the function returns [undefined], here [None]; reading
    [.tag] of that result is a [TypeError]. *)

Module BasicTs.

Abbreviation Ty := Arith.Ty.

Inductive Term : Type :=
| t_true
| t_false
| t_if (cond thn els : Term)
| t_number (n : Z)
| t_add (left right : Term)
| t_var (name : string)
| t_func (params : list (string * Ty)) (body : Term)
| t_call (func : Term) (args : list Term)
| t_seq (body rest : Term)
| t_const (name : string) (init rest : Term).

Fixpoint typecheck (t : Term) : Res Term (option Ty) :=
  match t with
  | t_true => Ok (Some Arith.Boolean)
  | t_false => Ok (Some Arith.Boolean)
  | t_if cond thn els =>
      let* condTy := typecheck cond in
      match condTy with
      | None => TypeError
      | Some Arith.Boolean =>
          let* thnTy := typecheck thn in
          let* elsTy := typecheck els in
          match thnTy, elsTy with
          | Some thnTy', Some elsTy' =>
              if negb (Arith.sameTag thnTy' elsTy') then Throw BranchTypeMismatch
              else Ok thnTy
          | _, _ => TypeError
          end
      | Some _ => Throw ConditionNotBoolean
      end
  | t_number _ => Ok (Some Arith.Number)
  | t_add left_ right_ =>
      let* leftTy := typecheck left_ in
      match leftTy with
      | None => TypeError
      | Some Arith.Number =>
          let* rightTy := typecheck right_ in
          match rightTy with
          | None => TypeError
          | Some Arith.Number => Ok (Some Arith.Number)
          | Some _ => Throw OperandNotNumber
          end
      | Some _ => Throw OperandNotNumber
      end
  | _ => Ok None
  end.

(** The terms built from the five constructors [typecheck] handles. *)
Fixpoint arithmetic (t : Term) : bool :=
  match t with
  | t_true | t_false | t_number _ => true
  | t_if cond thn els => arithmetic cond && arithmetic thn && arithmetic els
  | t_add left_ right_ => arithmetic left_ && arithmetic right_
  | _ => false
  end.

(** An arithmetic term as a term of this file. *)
Fixpoint ofArith (t : Arith.Term) : Term :=
  match t with
  | Arith.t_true => t_true
  | Arith.t_false => t_false
  | Arith.t_if cond thn els => t_if (ofArith cond) (ofArith thn) (ofArith els)
  | Arith.t_number n => t_number n
  | Arith.t_add left_ right_ => t_add (ofArith left_) (ofArith right_)
  end.

End BasicTs.

(** ** The basic variant (functions, no objects) *)

Module Basic.

Inductive Ty : Type :=
| Boolean
| Number
| Func (params : list (string * Ty)) (retType : Ty).

Inductive Term : Type :=
| t_true
| t_false
| t_if (cond thn els : Term)
| t_number (n : Z)
| t_add (left right : Term)
| t_var (name : string)
| t_func (params : list (string * Ty)) (body : Term)
| t_call (func : Term) (args : list Term)
| t_seq (body rest : Term)
| t_const (name : string) (init rest : Term).

Abbreviation TypeEnv := (gmap string Ty).

Fixpoint typeEq (ty1 ty2 : Ty) {struct ty2} : bool :=
  match ty2 with
  | Boolean => match ty1 with Boolean => true | _ => false end
  | Number => match ty1 with Number => true | _ => false end
  | Func params2 retType2 =>
      match ty1 with
      | Func params1 retType1 =>
          if negb (Nat.eqb (length params1) (length params2)) then false else
          if all2 (λ p2 p1, typeEq p1.2 p2.2) params2 params1
          then typeEq retType1 retType2
          else false
      | _ => false
      end
  end.

Section loops.
Variable typecheck : Term → TypeEnv → Res Term Ty.

Fixpoint checkArgs (args : list Term) (params : list (string * Ty))
    (tyEnv : TypeEnv) : Res Term unit :=
  match args with
  | [] => Ok tt
  | arg :: args' =>
      match params with
      | [] => TypeError
      | param :: params' =>
          let* argTy := typecheck arg tyEnv in
          if typeEq param.2 argTy then checkArgs args' params' tyEnv
          else Error ArgumentTypeMismatch arg
      end
  end.
End loops.

Fixpoint typecheck (t : Term) (tyEnv : TypeEnv) {struct t} : Res Term Ty :=
  match t with
  | t_true => Ok Boolean
  | t_false => Ok Boolean
  | t_if cond thn els =>
      let* condTy := typecheck cond tyEnv in
      match condTy with
      | Boolean =>
          let* thnTy := typecheck thn tyEnv in
          let* elsTy := typecheck els tyEnv in
          if negb (typeEq thnTy elsTy) then Error BranchTypeMismatch t else Ok thnTy
      | _ => Error ConditionNotBoolean cond
      end
  | t_number _ => Ok Number
  | t_add left_ right_ =>
      let* leftTy := typecheck left_ tyEnv in
      match leftTy with
      | Number =>
          let* rightTy := typecheck right_ tyEnv in
          match rightTy with
          | Number => Ok Number
          | _ => Error OperandNotNumber right_
          end
      | _ => Error OperandNotNumber left_
      end
  | t_var name =>
      match tyEnv !! name with
      | None => Error (UnknownVariable name) t
      | Some ty => Ok ty
      end
  | t_func params body =>
      let newTyEnv := bindParams params tyEnv in
      let* retType := typecheck body newTyEnv in
      Ok (Func params retType)
  | t_call func args =>
      let* funcTy := typecheck func tyEnv in
      match funcTy with
      | Func params retType =>
          if negb (Nat.eqb (length params) (length args))
          then Error ArgumentCountMismatch t
          else
            let* _ := checkArgs typecheck args params tyEnv in
            Ok retType
      | _ => Error NotAFunction func
      end
  | t_seq body rest =>
      let* _ := typecheck body tyEnv in
      typecheck rest tyEnv
  | t_const name init rest =>
      let* ty := typecheck init tyEnv in
      let newTyEnv := <[name := ty]> tyEnv in
      typecheck rest newTyEnv
  end.

(** The programs run at the end of the source file. *)

(* const add = (x: number, y: number) => x + y;
   const select = (b: boolean, x: number, y: number) => b ? x : y;
   const x = add(1, add(2, 3)); const y = select(true, x, x); y; *)
Definition prog_select : Term :=
  t_const "add" (t_func [("x", Number); ("y", Number)] (t_add (t_var "x") (t_var "y")))
    (t_const "select"
       (t_func [("b", Boolean); ("x", Number); ("y", Number)]
          (t_if (t_var "b") (t_var "x") (t_var "y")))
       (t_const "x" (t_call (t_var "add")
                       [t_number 1; t_call (t_var "add") [t_number 2; t_number 3]])
          (t_const "y" (t_call (t_var "select") [t_true; t_var "x"; t_var "x"])
             (t_var "y")))).

End Basic.

(** ** One chapter's programs as programs of the next *)

Module Embed.

(** The outcome of a checker, with its type and term carried over. *)
Definition mapRes {T T' A B} (g : T → T') (f : A → B) (r : Res T A) : Res T' B :=
  match r with
  | Ok a => Ok (f a)
  | Error msg t => Error msg (g t)
  | Throw msg => Throw msg
  | TypeError => TypeError
  | Diverge => Diverge
  end.

(** The message of a failure, whichever way it is raised. *)
Definition message {T A} (r : Res T A) : option string :=
  match r with
  | Error msg _ | Throw msg => Some msg
  | _ => None
  end.

Definition arithTy (ty : Arith.Ty) : Basic.Ty :=
  match ty with
  | Arith.Boolean => Basic.Boolean
  | Arith.Number => Basic.Number
  end.

Fixpoint arithTerm (t : Arith.Term) : Basic.Term :=
  match t with
  | Arith.t_true => Basic.t_true
  | Arith.t_false => Basic.t_false
  | Arith.t_if cond thn els =>
      Basic.t_if (arithTerm cond) (arithTerm thn) (arithTerm els)
  | Arith.t_number n => Basic.t_number n
  | Arith.t_add left_ right_ => Basic.t_add (arithTerm left_) (arithTerm right_)
  end.

Fixpoint basicTy (ty : Basic.Ty) : RecFunc.Ty :=
  match ty with
  | Basic.Boolean => RecFunc.Boolean
  | Basic.Number => RecFunc.Number
  | Basic.Func params retType =>
      RecFunc.Func (List.map (λ p, (p.1, basicTy p.2)) params) (basicTy retType)
  end.

Definition basicParams (params : list (string * Basic.Ty)) : list (string * RecFunc.Ty) :=
  List.map (λ p, (p.1, basicTy p.2)) params.

Fixpoint basicTerm (t : Basic.Term) : RecFunc.Term :=
  match t with
  | Basic.t_true => RecFunc.t_true
  | Basic.t_false => RecFunc.t_false
  | Basic.t_if cond thn els =>
      RecFunc.t_if (basicTerm cond) (basicTerm thn) (basicTerm els)
  | Basic.t_number n => RecFunc.t_number n
  | Basic.t_add left_ right_ => RecFunc.t_add (basicTerm left_) (basicTerm right_)
  | Basic.t_var name => RecFunc.t_var name
  | Basic.t_func params body => RecFunc.t_func (basicParams params) (basicTerm body)
  | Basic.t_call func args => RecFunc.t_call (basicTerm func) (List.map basicTerm args)
  | Basic.t_seq body rest => RecFunc.t_seq (basicTerm body) (basicTerm rest)
  | Basic.t_const name init rest =>
      RecFunc.t_const name (basicTerm init) (basicTerm rest)
  end.

Fixpoint recFuncTy (ty : RecFunc.Ty) : Rec.Ty :=
  match ty with
  | RecFunc.Boolean => Rec.Boolean
  | RecFunc.Number => Rec.Number
  | RecFunc.Func params retType =>
      Rec.Func (List.map (λ p, (p.1, recFuncTy p.2)) params) (recFuncTy retType)
  | RecFunc.Object props => Rec.Object (List.map (λ p, (p.1, recFuncTy p.2)) props)
  end.

Definition recFuncParams (params : list (string * RecFunc.Ty)) : list (string * Rec.Ty) :=
  List.map (λ p, (p.1, recFuncTy p.2)) params.

Fixpoint recFuncTerm (t : RecFunc.Term) : Rec.Term :=
  match t with
  | RecFunc.t_true => Rec.t_true
  | RecFunc.t_false => Rec.t_false
  | RecFunc.t_if cond thn els =>
      Rec.t_if (recFuncTerm cond) (recFuncTerm thn) (recFuncTerm els)
  | RecFunc.t_number n => Rec.t_number n
  | RecFunc.t_add left_ right_ => Rec.t_add (recFuncTerm left_) (recFuncTerm right_)
  | RecFunc.t_var name => Rec.t_var name
  | RecFunc.t_func params body => Rec.t_func (recFuncParams params) (recFuncTerm body)
  | RecFunc.t_call func args => Rec.t_call (recFuncTerm func) (List.map recFuncTerm args)
  | RecFunc.t_seq body rest => Rec.t_seq (recFuncTerm body) (recFuncTerm rest)
  | RecFunc.t_const name init rest =>
      Rec.t_const name (recFuncTerm init) (recFuncTerm rest)
  | RecFunc.t_objectNew props =>
      Rec.t_objectNew (List.map (λ p, (p.1, recFuncTerm p.2)) props)
  | RecFunc.t_objectGet obj propName => Rec.t_objectGet (recFuncTerm obj) propName
  | RecFunc.t_recFunc funcName params retType body rest =>
      Rec.t_recFunc funcName (recFuncParams params) (recFuncTy retType)
        (recFuncTerm body) (recFuncTerm rest)
  end.

(** The subtyping variant's language inside the recursive-function variant's
    (which has [if] besides). *)
Fixpoint subTy (ty : Sub.Ty) : RecFunc.Ty :=
  match ty with
  | Sub.Boolean => RecFunc.Boolean
  | Sub.Number => RecFunc.Number
  | Sub.Func params retType =>
      RecFunc.Func (List.map (λ p, (p.1, subTy p.2)) params) (subTy retType)
  | Sub.Object props => RecFunc.Object (List.map (λ p, (p.1, subTy p.2)) props)
  end.

Definition subParams (params : list (string * Sub.Ty)) : list (string * RecFunc.Ty) :=
  List.map (λ p, (p.1, subTy p.2)) params.

Fixpoint subTerm (t : Sub.Term) : RecFunc.Term :=
  match t with
  | Sub.t_true => RecFunc.t_true
  | Sub.t_false => RecFunc.t_false
  | Sub.t_number n => RecFunc.t_number n
  | Sub.t_add left_ right_ => RecFunc.t_add (subTerm left_) (subTerm right_)
  | Sub.t_var name => RecFunc.t_var name
  | Sub.t_func params body => RecFunc.t_func (subParams params) (subTerm body)
  | Sub.t_call func args => RecFunc.t_call (subTerm func) (List.map subTerm args)
  | Sub.t_seq body rest => RecFunc.t_seq (subTerm body) (subTerm rest)
  | Sub.t_const name init rest => RecFunc.t_const name (subTerm init) (subTerm rest)
  | Sub.t_objectNew props =>
      RecFunc.t_objectNew (List.map (λ p, (p.1, subTerm p.2)) props)
  | Sub.t_objectGet obj propName => RecFunc.t_objectGet (subTerm obj) propName
  | Sub.t_recFunc funcName params retType body rest =>
      RecFunc.t_recFunc funcName (subParams params) (subTy retType)
        (subTerm body) (subTerm rest)
  end.

(** [agrees t]: from some bound on the depth of the recursion, the
    recursive-types checker returns on [t] what the recursive-function checker
    returns. *)
Definition agrees (t : RecFunc.Term) : Prop :=
  ∀ tyEnv : gmap string RecFunc.Ty, ∃ N, ∀ fuel, N ≤ fuel →
    Rec.typecheck fuel (recFuncTerm t) (recFuncTy <$> tyEnv)
    = mapRes recFuncTerm recFuncTy (RecFunc.typecheck t tyEnv).

End Embed.

(** * Properties *)

(** ** Facts about the array loops *)

Section array_loops_facts.
Context {A B : Type}.

Lemma all2_true (f : A → B → bool) xs ys :
  length xs = length ys →
  all2 f xs ys = true ↔ Forall2 (λ x y, f x y = true) xs ys.
Proof.
  revert ys. induction xs as [|x xs IH]; intros [|y ys] Hlen; simpl in *; try done.
  destruct (f x y) eqn:Hf.
  - rewrite IH by lia. split.
    + by constructor.
    + by inversion 1.
  - split; [done | inversion 1; congruence].
Qed.

Lemma all2_flip (f : A → B → bool) xs ys :
  length xs = length ys → all2 f xs ys = all2 (λ y x, f x y) ys xs.
Proof.
  revert ys. induction xs as [|x xs IH]; intros [|y ys] Hlen; simpl in *; try done.
  destruct (f x y); [apply IH; lia | done].
Qed.

Lemma all2_ext_in (f g : A → B → bool) xs ys :
  Forall (λ x, ∀ y, f x y = g x y) xs → all2 f xs ys = all2 g xs ys.
Proof.
  intros H. revert ys. induction H as [|x xs Hx _ IH]; intros [|y ys]; simpl; try done.
  rewrite Hx, IH. done.
Qed.

Lemma all2_diag (f : A → A → bool) xs :
  Forall (λ x, f x x = true) xs → all2 f xs xs = true.
Proof. induction 1 as [|x xs Hx _ IH]; simpl; [done|]. by rewrite Hx. Qed.

Lemma forallb_ext_in (f g : A → bool) xs :
  Forall (λ x, f x = g x) xs → forallb f xs = forallb g xs.
Proof. induction 1 as [|x xs Hx _ IH]; simpl; [done|]. by rewrite Hx, IH. Qed.

Lemma findThen_find (f : A → bool) name (props : list (string * A)) :
  findThen f name props =
  match findProp name props with
  | None => false
  | Some prop => f prop.2
  end.
Proof.
  induction props as [|p ps IH]; simpl; [done|].
  by destruct (bool_decide (p.1 = name)).
Qed.
End array_loops_facts.

Lemma Forall2_compose {A B C} (R1 : A → B → Prop) (R2 : B → C → Prop)
    (R3 : A → C → Prop) xs ys zs :
  Forall (λ y, ∀ x z, R1 x y → R2 y z → R3 x z) ys →
  Forall2 R1 xs ys → Forall2 R2 ys zs → Forall2 R3 xs zs.
Proof.
  intros Hys H1. revert zs. induction H1 as [|x y xs ys Hxy _ IH]; intros zs H2.
  - inversion H2. constructor.
  - inversion H2 as [|? z ? zs' Hyz H2']; subst.
    apply Forall_cons in Hys as [Hy Hys].
    constructor; [by eapply Hy | by apply IH].
Qed.

Lemma find_name_Some {A} name (props : list (string * A)) prop :
  findProp name props = Some prop → prop ∈ props ∧ prop.1 = name.
Proof.
  unfold findProp. intros H. apply find_some in H as [Hin Hn].
  apply bool_decide_eq_true in Hn. by rewrite list_elem_of_In.
Qed.

Lemma find_name_NoDup {A} (props : list (string * A)) prop :
  NoDup props.*1 → prop ∈ props → findProp prop.1 props = Some prop.
Proof.
  unfold findProp. induction props as [|p ps IH]; simpl; intros Hnd Hin.
  - by apply elem_of_nil in Hin.
  - apply NoDup_cons in Hnd as [Hp Hnd].
    apply elem_of_cons in Hin as [->|Hin].
    + by rewrite bool_decide_eq_true_2.
    + rewrite bool_decide_eq_false_2; [by apply IH|].
      intros Heq. apply Hp. rewrite Heq. by apply list_elem_of_fmap_2.
Qed.

(** ** Facts about the environment of a function body *)

Lemma bindParams_app {A} (params1 params2 : list (string * A)) tyEnv :
  bindParams (params1 ++ params2) tyEnv = bindParams params2 (bindParams params1 tyEnv).
Proof. apply foldl_app. Qed.

Lemma bindParams_lookup_other {A} (params : list (string * A)) tyEnv x :
  x ∉ params.*1 → bindParams params tyEnv !! x = tyEnv !! x.
Proof.
  revert tyEnv. induction params as [|[y ty] params IH]; intros tyEnv Hx; [done|].
  simpl in Hx. apply not_elem_of_cons in Hx as [Hxy Hx].
  change (bindParams ((y, ty) :: params) tyEnv)
    with (bindParams params (<[y:=ty]> tyEnv)).
  rewrite IH by done. by apply lookup_insert_ne.
Qed.

(** The last parameter of a name is the one the body sees. *)
Lemma bindParams_lookup_last {A} (params1 params2 : list (string * A)) x ty tyEnv :
  x ∉ params2.*1 →
  bindParams (params1 ++ (x, ty) :: params2) tyEnv !! x = Some ty.
Proof.
  intros Hx. rewrite bindParams_app.
  change (bindParams ((x, ty) :: params2) ?e) with (bindParams params2 (<[x:=ty]> e)).
  rewrite bindParams_lookup_other by done. apply lookup_insert_eq.
Qed.

(** ** The subtyping variant *)

Module SubTheory.
Import Sub.

(** Induction on types, with the hypothesis on every parameter and field. *)
Lemma Sub_Ty_ind (P : Ty → Prop) :
  P Boolean → P Number →
  (∀ params retType, Forall (λ p, P p.2) params → P retType → P (Func params retType)) →
  (∀ props, Forall (λ p, P p.2) props → P (Object props)) →
  ∀ ty, P ty.
Proof.
  intros HB HN HF HO.
  fix IH 1. intros [| |params retType|props].
  - exact HB.
  - exact HN.
  - apply HF; [|apply IH].
    induction params as [|[n ty] ps IHps]; constructor; [apply IH | exact IHps].
  - apply HO.
    induction props as [|[n ty] ps IHps]; constructor; [apply IH | exact IHps].
Qed.

(** The mirror image computes the same relation. *)
Lemma superType_subType_both ty1 :
  ∀ ty2, superType ty1 ty2 = subType ty2 ty1 ∧ superType ty2 ty1 = subType ty1 ty2.
Proof.
  induction ty1 as [| |params1 retType1 IHps IHr|props1 IHps] using Sub_Ty_ind;
    intros [| |params2 retType2|props2]; simpl; try done.
  - (* Func, Func *)
    rewrite (Nat.eqb_sym (length params1) (length params2)).
    destruct (Nat.eqb_spec (length params2) (length params1)) as [Hlen|]; simpl; [|done].
    split.
    + rewrite (all2_flip (λ p2 p1, superType p2.2 p1.2) params2 params1) by done.
      rewrite (all2_ext_in (λ y x, superType x.2 y.2) (λ y x, subType y.2 x.2)
                 params1 params2).
      * by rewrite (proj1 (IHr retType2)).
      * eapply Forall_impl; [exact IHps|]. intros p Hp y. simpl. apply Hp.
    + rewrite (all2_flip (λ p2 p1, subType p2.2 p1.2) params2 params1) by done.
      rewrite (all2_ext_in (λ y x, subType x.2 y.2) (λ p1 p2, superType p1.2 p2.2)
                 params1 params2).
      * by rewrite (proj2 (IHr retType2)).
      * eapply Forall_impl; [exact IHps|]. intros p Hp y. simpl.
        symmetry. apply Hp.
  - (* Object, Object *)
    split.
    + apply forallb_ext_in. eapply Forall_impl; [exact IHps|].
      intros p Hp. simpl. rewrite findThen_find.
      destruct (findProp _ props2); [apply Hp | done].
    + apply forallb_ext_in. apply Forall_forall. intros p _.
      rewrite findThen_find.
      destruct (findProp _ props1) as [q|] eqn:Hfind; [|done].
      apply find_name_Some in Hfind as [Hin _].
      rewrite Forall_forall in IHps. apply (IHps q Hin).
Qed.

Lemma superType_subType ty2 ty1 : superType ty2 ty1 = subType ty1 ty2.
Proof. apply superType_subType_both. Qed.

(** The recursion of [subType], as the source writes it. *)
Lemma subType_eq ty1 ty2 :
  subType ty1 ty2 =
  match ty2 with
  | Boolean => match ty1 with Boolean => true | _ => false end
  | Number => match ty1 with Number => true | _ => false end
  | Func params2 retType2 =>
      match ty1 with
      | Func params1 retType1 =>
          if negb (Nat.eqb (length params1) (length params2)) then false else
          if all2 (λ p1 p2, subType p2.2 p1.2) params1 params2
          then subType retType1 retType2
          else false
      | _ => false
      end
  | Object props2 =>
      match ty1 with
      | Object props1 =>
          forallb (λ prop2, match findProp prop2.1 props1 with
                            | None => false
                            | Some prop1 => subType prop1.2 prop2.2
                            end) props2
      | _ => false
      end
  end.
Proof.
  destruct ty2 as [| |params2 retType2|props2], ty1 as [| |params1 retType1|props1];
    simpl; try done.
  - rewrite (all2_ext_in _ (λ p1 p2, subType p2.2 p1.2) params1 params2); [done|].
    apply Forall_forall. intros p _ y. apply superType_subType.
  - apply forallb_ext_in, Forall_forall. intros p _. by rewrite findThen_find.
Qed.

(** Subtyping between two function types. *)
Lemma subType_Func params1 retType1 params2 retType2 :
  subType (Func params1 retType1) (Func params2 retType2) = true ↔
  Forall2 (λ p1 p2, subType p2.2 p1.2 = true) params1 params2 ∧
  subType retType1 retType2 = true.
Proof.
  rewrite subType_eq.
  destruct (Nat.eqb_spec (length params1) (length params2)) as [Hlen|Hlen]; simpl.
  - rewrite <- all2_true by done.
    destruct (all2 _ params1 params2); split; try done.
    + by intros [? ?].
    + by intros [? _].
  - split; [done|]. intros [Hps _]. by apply Forall2_length in Hps.
Qed.

(** Subtyping between two object types: every field of [props2] is found
    in [props1] (the first of that name) at a subtype. *)
Lemma subType_Object props1 props2 :
  subType (Object props1) (Object props2) = true ↔
  ∀ prop2, prop2 ∈ props2 →
    ∃ prop1, findProp prop2.1 props1 = Some prop1 ∧ subType prop1.2 prop2.2 = true.
Proof.
  rewrite subType_eq, forallb_forall. split.
  - intros H prop2 Hin. apply list_elem_of_In, H in Hin.
    destruct (findProp prop2.1 props1) as [prop1|]; [eauto | done].
  - intros H prop2 Hin. apply list_elem_of_In, H in Hin as (prop1 & -> & Hsub). done.
Qed.

Lemma subType_Func_inv ty1 params2 retType2 :
  subType ty1 (Func params2 retType2) = true → ∃ params1 retType1, ty1 = Func params1 retType1.
Proof. rewrite subType_eq. destruct ty1; try done. eauto. Qed.

Lemma subType_Object_inv ty1 props2 :
  subType ty1 (Object props2) = true → ∃ props1, ty1 = Object props1.
Proof. rewrite subType_eq. destruct ty1; try done. eauto. Qed.

Lemma subType_refl_unique ty : uniqueFields ty = true → subType ty ty = true.
Proof.
  induction ty as [| |params retType IHps IHr|props IHps] using Sub_Ty_ind; try done.
  - simpl. intros [Hps Hr]%andb_true_iff. apply subType_Func. split; [|by apply IHr].
    rewrite forallb_forall in Hps. rewrite Forall_forall in IHps.
    apply Forall2_same_length_lookup. split; [done|].
    intros i p p' Hp Hp'. simplify_eq.
    apply list_elem_of_lookup_2 in Hp.
    apply IHps; [done|]. apply Hps. by apply list_elem_of_In.
  - simpl. intros [Hnd Hps]%andb_true_iff. apply bool_decide_eq_true in Hnd.
    apply subType_Object. intros prop2 Hin. exists prop2. split.
    + by apply find_name_NoDup.
    + rewrite forallb_forall in Hps. rewrite Forall_forall in IHps.
      apply IHps; [done|]. apply Hps. by apply list_elem_of_In.
Qed.

Lemma subType_trans_mid ty2 :
  ∀ ty1 ty3, subType ty1 ty2 = true → subType ty2 ty3 = true → subType ty1 ty3 = true.
Proof.
  induction ty2 as [| |params2 retType2 IHps IHr|props2 IHps] using Sub_Ty_ind;
    intros ty1 ty3 H12 H23.
  - by destruct ty1.
  - by destruct ty1.
  - destruct (subType_Func_inv _ _ _ H12) as (params1 & retType1 & ->).
    destruct ty3 as [| |params3 retType3|]; try done.
    apply subType_Func in H12 as [Hps12 Hr12].
    apply subType_Func in H23 as [Hps23 Hr23].
    apply subType_Func. split; [|by eapply IHr].
    eapply (Forall2_compose _ _ _ params1 params2 params3); [|exact Hps12|exact Hps23].
    eapply Forall_impl; [exact IHps|]. intros p2 Hp2 p1 p3 H1 H3. simpl in *.
    by apply Hp2.
  - destruct (subType_Object_inv _ _ H12) as (props1 & ->).
    destruct ty3 as [| | |props3]; try done.
    rewrite subType_Object in H12, H23. apply subType_Object.
    intros prop3 Hin3.
    destruct (H23 prop3 Hin3) as (prop2 & Hf2 & Hs23).
    apply find_name_Some in Hf2 as [Hin2 Hname].
    destruct (H12 prop2 Hin2) as (prop1 & Hf1 & Hs12).
    exists prop1. rewrite <- Hname. split; [done|].
    rewrite Forall_forall in IHps. by apply (IHps prop2 Hin2).
Qed.

(** *** The driver *)

Lemma Sub_Term_ind (P : Term → Prop) :
  P t_true → P t_false → (∀ n, P (t_number n)) →
  (∀ l r, P l → P r → P (t_add l r)) →
  (∀ name, P (t_var name)) →
  (∀ params body, P body → P (t_func params body)) →
  (∀ func args, P func → Forall P args → P (t_call func args)) →
  (∀ body rest, P body → P rest → P (t_seq body rest)) →
  (∀ name init rest, P init → P rest → P (t_const name init rest)) →
  (∀ props, Forall (λ p, P p.2) props → P (t_objectNew props)) →
  (∀ obj propName, P obj → P (t_objectGet obj propName)) →
  (∀ funcName params retType body rest,
     P body → P rest → P (t_recFunc funcName params retType body rest)) →
  ∀ t, P t.
Proof.
  intros Htrue Hfalse Hnum Hadd Hvar Hfunc Hcall Hseq Hconst Hnew Hget Hrec.
  fix IH 1. intros [| |n|l r|name|params body|func args|body rest|name init rest
                    |props|obj propName|funcName params retType body rest].
  - exact Htrue.
  - exact Hfalse.
  - apply Hnum.
  - apply Hadd; apply IH.
  - apply Hvar.
  - apply Hfunc, IH.
  - apply Hcall; [apply IH|].
    induction args as [|a args IHargs]; constructor; [apply IH | exact IHargs].
  - apply Hseq; apply IH.
  - apply Hconst; apply IH.
  - apply Hnew.
    induction props as [|[n a] props IHprops]; constructor; [apply IH | exact IHprops].
  - apply Hget, IH.
  - apply Hrec; apply IH.
Qed.



Lemma checkArgs_value_or_checked tc args params tyEnv :
  Forall (λ arg, value_or_checked (tc arg tyEnv)) args →
  length params = length args →
  value_or_checked (checkArgs tc args params tyEnv).
Proof.
  intros Hargs. revert params.
  induction Hargs as [|arg args Harg _ IH]; intros [|param params] Hlen;
    simpl in *; try done.
  destruct (tc arg tyEnv); simpl; try done.
  destruct (subType _ _); [apply IH; lia | done].
Qed.

Lemma checkProps_value_or_checked tc props tyEnv :
  Forall (λ p, value_or_checked (tc p.2 tyEnv)) props →
  value_or_checked (checkProps tc props tyEnv).
Proof.
  induction 1 as [|prop props Hprop _ IH]; simpl; [done|].
  destruct (tc prop.2 tyEnv); simpl; try done.
  by destruct (checkProps tc props tyEnv).
Qed.

(** In this variant [typecheck] returns a type or a checked error. *)
Lemma typecheck_value_or_checked t : ∀ tyEnv, value_or_checked (typecheck t tyEnv).
Proof.
  induction t as [| |n|l r IHl IHr|name|params body IHbody|func args IHfunc IHargs
                  |body rest IHbody IHrest|name init rest IHinit IHrest
                  |props IHprops|obj propName IHobj
                  |funcName params retType body rest IHbody IHrest] using Sub_Term_ind;
    intros tyEnv; simpl.
  - done.
  - done.
  - done.
  - specialize (IHl tyEnv). destruct (typecheck l tyEnv) as [[]| | | |]; simpl; try done.
    specialize (IHr tyEnv). by destruct (typecheck r tyEnv) as [[]| | | |].
  - by destruct (tyEnv !! name).
  - specialize (IHbody (bindParams params tyEnv)).
    by destruct (typecheck body _).
  - specialize (IHfunc tyEnv).
    destruct (typecheck func tyEnv) as [[| |params retType|]| | | |]; simpl; try done.
    destruct (Nat.eqb_spec (length params) (length args)) as [Hlen|]; simpl; [|done].
    pose proof (checkArgs_value_or_checked typecheck args params tyEnv) as Hargs.
    destruct (checkArgs typecheck args params tyEnv); simpl; try done;
      apply Hargs; try done;
      (eapply Forall_impl; [exact IHargs|]; intros a Ha; apply Ha).
  - specialize (IHbody tyEnv).
    destruct (typecheck body tyEnv); simpl; first [done | apply IHrest].
  - specialize (IHinit tyEnv).
    destruct (typecheck init tyEnv); simpl; first [done | apply IHrest].
  - pose proof (checkProps_value_or_checked typecheck props tyEnv) as Hprops.
    destruct (checkProps typecheck props tyEnv); simpl; try done;
      apply Hprops; (eapply Forall_impl; [exact IHprops|]; intros a Ha; apply Ha).
  - specialize (IHobj tyEnv).
    destruct (typecheck obj tyEnv) as [[| | |props]| | | |]; simpl; try done.
    by destruct (findProp propName props).
  - specialize (IHbody (<[funcName:=Func params retType]> (bindParams params tyEnv))).
    destruct (typecheck body _); simpl; try done.
    destruct (typeEq retType _); simpl; first [done | apply IHrest].
Qed.

(** C4. [subType] is reflexive on every type of the data model (object
    field names unique) and transitive on all types: [subType A A] holds,
    and [subType A B] with [subType B C] gives [subType A C]. *)
Theorem subType_reflexive_transitive :
  (∀ A, uniqueFields A = true → subType A A = true) ∧
  (∀ A B C, subType A B = true → subType B C = true → subType A C = true).
Proof.
  split.
  - apply subType_refl_unique.
  - intros A B C. apply subType_trans_mid.
Qed.

(** Uniqueness of the field names is needed: the second field [a] of
    [{ a: number; a: boolean }] is compared with the first one. *)
Lemma subType_duplicate_fields :
  uniqueFields dupFields = false ∧ subType dupFields dupFields = false.
Proof. split; by vm_compute. Qed.

Lemma subType_reflexive_transitive_witness :
  subType fooBar fooBar = true ∧
  subType (Func [("x", fooNumber)] fooBar) (Func [("y", fooBar)] fooNumber) = true.
Proof.
  destruct subType_reflexive_transitive as [Hrefl Htrans]. split.
  - apply (Hrefl fooBar). reflexivity.
  - apply (Htrans (Func [("x", fooNumber)] fooBar) (Func [("x", fooBar)] fooBar)
             (Func [("y", fooBar)] fooNumber)); reflexivity.
Defined.

(** C5. Function subtyping is contravariant in the parameters and covariant
    in the return type: if [A2 <: A1] and [B1 <: B2] then [(A1) => B1] is a
    subtype of [(A2) => B2] (and likewise for any number of parameters); the
    converse fails for some such types; and function types with parameter
    lists of different lengths are never in the relation. *)
Theorem subType_Func_variance :
  (∀ x1 x2 A1 A2 B1 B2,
     subType A2 A1 = true → subType B1 B2 = true →
     subType (Func [(x1, A1)] B1) (Func [(x2, A2)] B2) = true) ∧
  (∀ params1 params2 B1 B2,
     Forall2 (λ p1 p2, subType p2.2 p1.2 = true) params1 params2 →
     subType B1 B2 = true →
     subType (Func params1 B1) (Func params2 B2) = true) ∧
  (∃ x1 x2 A1 A2 B1 B2,
     subType A2 A1 = true ∧ subType B1 B2 = true ∧
     subType (Func [(x2, A2)] B2) (Func [(x1, A1)] B1) = false) ∧
  (∀ params1 B1 params2 B2,
     length params1 ≠ length params2 →
     subType (Func params1 B1) (Func params2 B2) = false).
Proof.
  split; [|split; [|split]].
  - intros x1 x2 A1 A2 B1 B2 HA HB. apply subType_Func. split; [|done].
    by repeat constructor.
  - intros params1 params2 B1 B2 Hps HB. by apply subType_Func.
  - exists "x", "x", fooNumber, fooBar, Number, Number. by vm_compute.
  - intros params1 B1 params2 B2 Hlen. rewrite subType_eq.
    by destruct (Nat.eqb_spec (length params1) (length params2)).
Qed.

Lemma subType_Func_variance_witness :
  subType (Func [("x", fooNumber)] fooBar) (Func [("y", fooBar)] fooNumber) = true ∧
  subType (Func [("x", fooNumber); ("b", Boolean)] fooBar)
          (Func [("y", fooBar); ("c", Boolean)] fooNumber) = true ∧
  subType (Func [("x", Number)] Number) (Func [] Number) = false.
Proof.
  destruct subType_Func_variance as (H1 & Hn & _ & Hlen). split; [|split].
  - apply (H1 "x" "y" fooNumber fooBar fooBar fooNumber); reflexivity.
  - apply (Hn [("x", fooNumber); ("b", Boolean)] [("y", fooBar); ("c", Boolean)]
              fooBar fooNumber); [|reflexivity].
    repeat constructor.
  - apply (Hlen [("x", Number)] Number [] Number). simpl. lia.
Defined.

(** C6. Width subtyping: with unique field names in [props1], the object
    type [props1] is a subtype of the object type [props2] exactly when every
    field of [props2] has a field of the same name in [props1] whose type is
    a subtype of it; [{foo: Number, bar: Boolean}] is a subtype of
    [{foo: Number}], and not the other way round. *)
Theorem subType_Object_width :
  (∀ props1 props2,
     NoDup props1.*1 →
     subType (Object props1) (Object props2) = true ↔
     ∀ name ty2, (name, ty2) ∈ props2 →
       ∃ ty1, (name, ty1) ∈ props1 ∧ subType ty1 ty2 = true) ∧
  subType fooBar fooNumber = true ∧
  subType fooNumber fooBar = false.
Proof.
  split; [|by vm_compute].
  intros props1 props2 Hnd. rewrite subType_Object. split.
  - intros H name ty2 Hin. destruct (H _ Hin) as ([n1 ty1] & Hfind & Hsub).
    apply find_name_Some in Hfind as [Hin1 Hname]. simpl in *. subst n1. eauto.
  - intros H [name ty2] Hin. destruct (H _ _ Hin) as (ty1 & Hin1 & Hsub).
    exists (name, ty1). split; [|done].
    by apply (find_name_NoDup props1 (name, ty1)).
Qed.

Lemma subType_Object_width_witness :
  subType (Object [("foo", Number); ("bar", Boolean)]) (Object [("bar", Boolean)]) = true.
Proof.
  destruct subType_Object_width as [Hiff _].
  apply (Hiff [("foo", Number); ("bar", Boolean)] [("bar", Boolean)]).
  - apply (bool_decide_unpack _). by vm_compute.
  - intros name ty2 Hin. apply list_elem_of_singleton in Hin. simplify_eq.
    exists Boolean. split; [|reflexivity].
    apply elem_of_cons. right. apply elem_of_cons. by left.
Defined.

End SubTheory.

(** ** The recursive-types variant *)

Module RecTheory.
Import Rec.

(** C8, as corrected. When [typeEqNaive] compares two type variables and the
    name of the first has no entry in the renaming map, it throws
    ["unknown type variable: <name>"] and does not return false, unless the
    name is one the map inherits from [Object.prototype] ([toString],
    [constructor], ...): the read then finds the inherited value and the
    answer is false.  It also returns false against a type variable when the
    first type is not a type variable, or when the name is renamed to another
    name. *)
Theorem typeEqNaive_TypeVar_unknown :
  (∀ name1 name2 (map : gmap string string),
     map !! name1 = None → inheritedName name1 = false →
     typeEqNaive (TypeVar name1) (TypeVar name2) map
     = Throw ("unknown type variable: " +:+ name1)) ∧
  (∀ name1 name2 (map : gmap string string),
     map !! name1 = None → inheritedName name1 = true →
     typeEqNaive (TypeVar name1) (TypeVar name2) map = Ok false) ∧
  (∀ name1 name2 name (map : gmap string string),
     map !! name1 = Some name →
     typeEqNaive (TypeVar name1) (TypeVar name2) map = Ok (bool_decide (name = name2))) ∧
  (∀ ty1 name2 (map : gmap string string),
     tag ty1 ≠ "TypeVar" → typeEqNaive ty1 (TypeVar name2) map = Ok false).
Proof.
  split; [|split; [|split]].
  - intros name1 name2 map Hnone Hown. simpl. by rewrite Hnone, Hown.
  - intros name1 name2 map Hnone Hinh. simpl. by rewrite Hnone, Hinh.
  - intros name1 name2 name map Hsome. simpl. by rewrite Hsome.
  - intros ty1 name2 map Htag. by destruct ty1.
Qed.

Lemma typeEqNaive_TypeVar_unknown_witness :
  typeEqNaive (TypeVar "X") (TypeVar "Y") ∅ = Throw "unknown type variable: X" ∧
  typeEqNaive (TypeVar "toString") (TypeVar "Y") ∅ = Ok false ∧
  typeEqNaive (TypeVar "X") (TypeVar "Y") {["X" := "Y"]} = Ok true ∧
  typeEqNaive Number (TypeVar "Y") ∅ = Ok false.
Proof.
  destruct typeEqNaive_TypeVar_unknown as (Hnone & Hinh & Hsome & Hother).
  split; [|split; [|split]].
  - apply (Hnone "X" "Y" ∅); reflexivity.
  - apply (Hinh "toString" "Y" ∅); reflexivity.
  - apply (Hsome "X" "Y" "Y" {["X" := "Y"]}). reflexivity.
  - apply (Hother Number "Y" ∅). simpl. discriminate.
Defined.

(** C8, as stated, fails: on two type variables and the empty renaming map
    the comparison throws, it does not return false. *)
Lemma typeEqNaive_TypeVar_throws :
  typeEqNaive (TypeVar "X") (TypeVar "X") ∅ = Throw "unknown type variable: X" ∧
  typeEqNaive (TypeVar "X") (TypeVar "X") ∅ ≠ Ok false ∧
  typeEqNaive (Func [] (TypeVar "X")) (Func [] (TypeVar "Y")) ∅
  = Throw "unknown type variable: X".
Proof. split; [reflexivity|]. split; [discriminate | reflexivity]. Qed.

(** [simplifyType] never returns a [Rec]. *)
Lemma simplifyType_not_Rec fuel ty ty' :
  simplifyType fuel ty = Ok ty' → isRec ty' = false.
Proof.
  revert ty. induction fuel as [|fuel IH]; intros ty; destruct ty; simpl; try naive_solver.
Qed.

(** C9, as corrected. On [Rec name. body], [simplifyType] unfolds once,
    [expandType body name rec], and goes on unfolding while the result is a
    [Rec]; what it returns is never a [Rec].  When [body] is neither a [Rec]
    nor the variable [name] itself, one unfolding is made and the result is
    exactly [expandType body name rec]. *)
Theorem simplifyType_unfold :
  (∀ fuel name body,
     simplifyType (S fuel) (Rec name body)
     = simplifyType fuel (expandType body name (Rec name body))) ∧
  (∀ fuel name body,
     isRec body = false → body ≠ TypeVar name →
     simplifyType (S fuel) (Rec name body) = Ok (expandType body name (Rec name body))) ∧
  (∀ fuel ty ty', simplifyType fuel ty = Ok ty' → isRec ty' = false).
Proof.
  split; [|split].
  - reflexivity.
  - intros fuel name body Hrec Hvar. simpl.
    destruct body as [| | | | |name']; try done; try by destruct fuel.
    simpl. rewrite bool_decide_eq_false_2 by congruence. by destruct fuel.
  - apply simplifyType_not_Rec.
Qed.

Lemma simplifyType_unfold_witness :
  simplifyType 1 NumStream
  = Ok (Object [("num", Number); ("rest", Func [] NumStream)]) ∧
  isRec (Object [("num", Number); ("rest", Func [] NumStream)]) = false.
Proof.
  destruct simplifyType_unfold as (_ & Hone & Hnot). split.
  - apply (Hone 0 "NumStream"
             (Object [("num", Number); ("rest", Func [] (TypeVar "NumStream"))])).
    + reflexivity.
    + discriminate.
  - apply (Hnot 1 NumStream). reflexivity.
Defined.

(** C9, as stated, fails: on [Rec X. Rec Y. { a: X; b: Y }] no amount of
    unfolding steps makes [simplifyType] return the one-step unfolding, which
    is still a [Rec]. *)
Lemma simplifyType_not_one_step :
  expandType (Rec "Y" (Object [("a", TypeVar "X"); ("b", TypeVar "Y")])) "X" nestedRec
  = Rec "Y" (Object [("a", nestedRec); ("b", TypeVar "Y")]) ∧
  simplifyType 2 nestedRec
  = Ok (Object [("a", nestedRec);
                ("b", Rec "Y" (Object [("a", nestedRec); ("b", TypeVar "Y")]))]) ∧
  ¬ ∃ fuel, simplifyType fuel nestedRec
            = Ok (expandType (Rec "Y" (Object [("a", TypeVar "X"); ("b", TypeVar "Y")]))
                    "X" nestedRec).
Proof.
  split; [reflexivity|]. split; [reflexivity|].
  intros [fuel H]. apply simplifyType_not_Rec in H. discriminate.
Qed.

(** *** Equality of equi-recursive types *)

(** One call of [typeEqSub], as the source writes it. *)
Lemma typeEqSub_S fuel ty1 ty2 seen :
  typeEqSub (S fuel) ty1 ty2 seen =
  let* haveSeen := haveTypesSeen seen ty1 ty2 in
  if haveSeen then Ok true else
  if isRec ty1 then
    let* ty1' := simplifyType fuel ty1 in
    typeEqSub fuel ty1' ty2 (seen ++ [(ty1, ty2)])
  else if isRec ty2 then
    let* ty2' := simplifyType fuel ty2 in
    typeEqSub fuel ty1 ty2' (seen ++ [(ty1, ty2)])
  else
    match ty2 with
    | Boolean => Ok (bool_decide (tag ty1 = "Boolean"))
    | Number => Ok (bool_decide (tag ty1 = "Number"))
    | Func params2 retType2 =>
        match ty1 with
        | Func params1 retType1 =>
            if negb (Nat.eqb (length params1) (length params2)) then Ok false else
            let* isSameParams :=
              eqParams (λ a b, typeEqSub fuel a b seen) params1 params2 in
            if isSameParams then typeEqSub fuel retType1 retType2 seen else Ok false
        | _ => Ok false
        end
    | Object props2 =>
        match ty1 with
        | Object props1 =>
            if negb (Nat.eqb (length props1) (length props2)) then Ok false else
            eqProps (λ a b, typeEqSub fuel a b seen) props1 props2
        | _ => Ok false
        end
    | TypeVar _ => Throw "unreachable"
    | Rec _ _ => Throw "typeEq error"
    end.
Proof. reflexivity. Qed.

Ltac naive_eval :=
  unfold selfStream, findProp; simpl;
  repeat (first [rewrite bool_decide_eq_true_2 by done | rewrite lookup_insert_eq]; simpl).

Section stream.
Variables (X f Y g : string).
Local Abbreviation T1 := (selfStream X f).
Local Abbreviation T2 := (selfStream Y g).
Local Abbreviation F1 := (Func [] T1).
Local Abbreviation F2 := (Func [] T2).
Local Abbreviation U1 := (Object [(f, F1)]).
Local Abbreviation U2 := (Object [(g, F2)]).

Lemma typeEqNaive_selfStream_refl name field :
  typeEqNaive (selfStream name field) (selfStream name field) ∅ = Ok true.
Proof. by naive_eval. Qed.

Lemma typeEqNaive_unfolded_refl name field :
  typeEqNaive (Object [(field, Func [] (selfStream name field))])
              (Object [(field, Func [] (selfStream name field))]) ∅ = Ok true.
Proof. by naive_eval. Qed.

Lemma simplifyType_selfStream fuel name field :
  simplifyType (S fuel) (selfStream name field)
  = Ok (Object [(field, Func [] (selfStream name field))]).
Proof. naive_eval. by destruct fuel. Qed.

(** The pair met again is found in [seen]. *)
Lemma typeEqSub_stream_seen fuel :
  typeEqSub (S fuel) T1 T2 [(T1, T2); (U1, T2)] = Ok true.
Proof.
  rewrite typeEqSub_S. cbn [haveTypesSeen].
  rewrite !typeEqNaive_selfStream_refl. done.
Qed.

Lemma typeEqSub_stream_func fuel :
  typeEqSub (S (S fuel)) F1 F2 [(T1, T2); (U1, T2)] = Ok true.
Proof.
  rewrite typeEqSub_S.
  change (haveTypesSeen [(T1, T2); (U1, T2)] F1 F2) with (@Ok Term bool false).
  cbn [bind isRec length Nat.eqb negb eqParams]. apply typeEqSub_stream_seen.
Qed.

Lemma typeEqSub_stream_object fuel :
  typeEqSub (S (S (S fuel))) U1 U2 [(T1, T2); (U1, T2)] = Ok (bool_decide (f = g)).
Proof.
  rewrite typeEqSub_S.
  assert (haveTypesSeen [(T1, T2); (U1, T2)] U1 U2 = Ok false) as ->.
  { cbn [haveTypesSeen]. rewrite typeEqNaive_unfolded_refl. done. }
  cbn [bind isRec length Nat.eqb negb eqProps fst snd]. unfold findProp. cbn [find fst].
  case_bool_decide; [|done].
  cbn [bind snd]. rewrite typeEqSub_stream_func. done.
Qed.

Lemma typeEq_stream fuel :
  typeEq (S (S (S (S (S fuel))))) T1 T2 = Ok (bool_decide (f = g)).
Proof.
  unfold typeEq. rewrite typeEqSub_S. cbn [haveTypesSeen bind].
  change (isRec T1) with true. cbn match.
  rewrite simplifyType_selfStream. cbn [bind app].
  rewrite typeEqSub_S.
  change (haveTypesSeen _ _ _) with (@Ok Term bool false).
  cbn [bind isRec]. change (isRec T2) with true. cbn match.
  rewrite simplifyType_selfStream. cbn [bind app].
  apply typeEqSub_stream_object.
Qed.
End stream.

(** Where the function of the field takes no parameter, the equality check
    does return an answer.  On two record types [Rec X. { f: () => X }] and
    [Rec Y. { g: () => Y }] (possibly the same), [typeEq] returns an answer
    within five nested calls: true when the field names agree, false
    otherwise.  The pair met again after the unfolding is answered from
    [seen] with no further call.  The same holds for [NumStream] of the
    source. *)
Theorem typeEq_selfStream_terminates :
  (∀ X f Y g (fuel : nat),
     (5 ≤ fuel)%nat →
     typeEq fuel (selfStream X f) (selfStream Y g) = Ok (bool_decide (f = g))) ∧
  (∀ X f Y g (fuel : nat),
     (1 ≤ fuel)%nat →
     typeEqSub fuel (selfStream X f) (selfStream Y g)
       [(selfStream X f, selfStream Y g);
        (Object [(f, Func [] (selfStream X f))], selfStream Y g)] = Ok true) ∧
  (∀ fuel : nat, (5 ≤ fuel)%nat → typeEq fuel NumStream NumStream = Ok true).
Proof.
  split; [|split].
  - intros X f Y g fuel Hfuel. do 5 (destruct fuel as [|fuel]; [lia|]).
    apply typeEq_stream.
  - intros X f Y g fuel Hfuel. destruct fuel as [|fuel]; [lia|].
    apply typeEqSub_stream_seen.
  - intros fuel Hfuel. do 5 (destruct fuel as [|fuel]; [lia|]).
    by vm_compute.
Qed.

Lemma typeEq_selfStream_terminates_witness :
  typeEq 5 (selfStream "NumStream" "rest") (selfStream "S" "rest") = Ok true ∧
  typeEq 5 (selfStream "NumStream" "rest") (selfStream "NumStream" "next") = Ok false ∧
  typeEqSub 1 (selfStream "NumStream" "rest") (selfStream "S" "rest")
    [(selfStream "NumStream" "rest", selfStream "S" "rest");
     (Object [("rest", Func [] (selfStream "NumStream" "rest"))], selfStream "S" "rest")]
  = Ok true ∧
  typeEq 7 NumStream NumStream = Ok true.
Proof.
  destruct typeEq_selfStream_terminates as (Heq & Hseen & Hnum).
  split; [|split; [|split]].
  - apply (Heq "NumStream" "rest" "S" "rest" 5). lia.
  - apply (Heq "NumStream" "rest" "NumStream" "next" 5). lia.
  - apply (Hseen "NumStream" "rest" "S" "rest" 1). lia.
  - apply (Hnum 7). lia.
Defined.

Ltac param_step :=
  rewrite ?typeEqSub_S; unfold paramStream, findProp; cbn -[typeEqSub];
  repeat (first [rewrite bool_decide_eq_true_2 by done | rewrite lookup_insert_eq];
          cbn -[typeEqSub]).

(** C3 fails on the code.  [paramStream name field param], that is
    [Rec S. { f: (p: { f: () => number }) => S }], is a self-referential record
    whose only field is a function returning the recursive type, and
    [typeEq] of this type and itself returns no answer.  After the two
    unfoldings the parameter types are compared; the test of the pairs of
    [seen] then calls [typeEqNaive] on the unfolded record and the parameter
    type, finds the field in both, and compares the one-parameter function
    with the parameterless one: the loop over the parameters of the first
    reads a parameter of the second that is not there. *)
Theorem typeEq_paramStream_no_answer name field param (fuel : nat) :
  typeEq fuel (paramStream name field param) (paramStream name field param)
  = if decide (fuel < 5) then Diverge else TypeError.
Proof.
  unfold typeEq.
  do 5 (destruct fuel as [|fuel]; [rewrite decide_True by lia; by repeat param_step|]).
  rewrite decide_False by lia. by repeat param_step.
Qed.

(** The same from [typecheck], on the identity function at this type. *)
Lemma typecheck_identity_on_paramStream (fuel : nat) :
  typecheck fuel (identity_on (paramStream "S" "f" "p")) ∅
  = if decide (fuel < 5) then Diverge else TypeError.
Proof.
  do 5 (destruct fuel as [|fuel]; [by vm_compute|]).
  rewrite decide_False by lia. by vm_compute.
Qed.

(** *** More fuel does not change an outcome *)

Lemma fuel_le_refl {T A} (r : Res T A) : fuel_le r r.
Proof. by right. Qed.

Lemma fuel_le_trans {T A} (r1 r2 r3 : Res T A) :
  fuel_le r1 r2 → fuel_le r2 r3 → fuel_le r1 r3.
Proof. intros [->| ->]; [by left | done]. Qed.

Lemma fuel_le_bind {T A B} (r r' : Res T A) (k k' : A → Res T B) :
  fuel_le r r' → (∀ a, fuel_le (k a) (k' a)) → fuel_le (bind r k) (bind r' k').
Proof.
  intros [->| ->] Hk; [by left|]. destruct r'; simpl; first [apply Hk | by right].
Qed.

Lemma fuel_le_if {T A} (b : bool) (r1 r1' r2 r2' : Res T A) :
  fuel_le r1 r1' → fuel_le r2 r2' →
  fuel_le (if b then r1 else r2) (if b then r1' else r2').
Proof. by destruct b. Qed.

Lemma simplifyType_fuel_S fuel ty :
  fuel_le (simplifyType fuel ty) (simplifyType (S fuel) ty).
Proof.
  revert ty. induction fuel as [|fuel IH]; intros ty.
  - destruct ty; first [by right | by left].
  - destruct ty; try by right. apply IH.
Qed.

Lemma eqParams_fuel_le (eq eq' : Ty → Ty → R bool) ps1 ps2 :
  (∀ a b, fuel_le (eq a b) (eq' a b)) →
  fuel_le (eqParams eq ps1 ps2) (eqParams eq' ps1 ps2).
Proof.
  intros Heq. revert ps2. induction ps1 as [|p1 ps1 IH]; intros [|p2 ps2]; simpl;
    try by right.
  apply fuel_le_bind; [apply Heq|]. intros b. apply fuel_le_if; [apply IH | by right].
Qed.

Lemma eqProps_fuel_le (eq eq' : Ty → Ty → R bool) props1 ps2 :
  (∀ a b, fuel_le (eq a b) (eq' a b)) →
  fuel_le (eqProps eq props1 ps2) (eqProps eq' props1 ps2).
Proof.
  intros Heq. induction ps2 as [|p2 ps2 IH]; simpl; [by right|].
  destruct (findProp p2.1 props1); [|by right].
  apply fuel_le_bind; [apply Heq|]. intros b. apply fuel_le_if; [apply IH | by right].
Qed.

Lemma typeEqSub_fuel_S fuel :
  ∀ ty1 ty2 seen,
    fuel_le (typeEqSub fuel ty1 ty2 seen) (typeEqSub (S fuel) ty1 ty2 seen).
Proof.
  induction fuel as [|fuel IH]; intros ty1 ty2 seen; [by left|].
  rewrite (typeEqSub_S (S fuel)), (typeEqSub_S fuel).
  apply fuel_le_bind; [apply fuel_le_refl|]. intros haveSeen.
  apply fuel_le_if; [apply fuel_le_refl|].
  apply fuel_le_if; [|apply fuel_le_if].
  - apply fuel_le_bind; [apply simplifyType_fuel_S | intros; apply IH].
  - apply fuel_le_bind; [apply simplifyType_fuel_S | intros; apply IH].
  - destruct ty2 as [| |params2 retType2|props2| |]; try apply fuel_le_refl.
    + destruct ty1 as [| |params1 retType1| | |]; try apply fuel_le_refl.
      apply fuel_le_if; [apply fuel_le_refl|].
      apply fuel_le_bind.
      * apply eqParams_fuel_le. intros; apply IH.
      * intros b. apply fuel_le_if; [apply IH | apply fuel_le_refl].
    + destruct ty1 as [| | |props1| |]; try apply fuel_le_refl.
      apply fuel_le_if; [apply fuel_le_refl|].
      apply eqProps_fuel_le. intros; apply IH.
Qed.

(** An answer of [simplifyType] or [typeEqSub] is the answer for any larger
    bound on the depth of the recursion. *)
Lemma simplifyType_fuel_mono fuel fuel' ty :
  fuel ≤ fuel' → fuel_le (simplifyType fuel ty) (simplifyType fuel' ty).
Proof.
  induction 1 as [|fuel' _ IH]; [apply fuel_le_refl|].
  eapply fuel_le_trans; [exact IH | apply simplifyType_fuel_S].
Qed.

Lemma typeEqSub_fuel_mono fuel fuel' ty1 ty2 seen :
  fuel ≤ fuel' →
  fuel_le (typeEqSub fuel ty1 ty2 seen) (typeEqSub fuel' ty1 ty2 seen).
Proof.
  induction 1 as [|fuel' _ IH]; [apply fuel_le_refl|].
  eapply fuel_le_trans; [exact IH | apply typeEqSub_fuel_S].
Qed.

(** *** The driver *)

Lemma Rec_Term_ind (P : Term → Prop) :
  P t_true → P t_false →
  (∀ cond thn els, P cond → P thn → P els → P (t_if cond thn els)) →
  (∀ n, P (t_number n)) →
  (∀ l r, P l → P r → P (t_add l r)) →
  (∀ name, P (t_var name)) →
  (∀ params body, P body → P (t_func params body)) →
  (∀ func args, P func → Forall P args → P (t_call func args)) →
  (∀ body rest, P body → P rest → P (t_seq body rest)) →
  (∀ name init rest, P init → P rest → P (t_const name init rest)) →
  (∀ props, Forall (λ p, P p.2) props → P (t_objectNew props)) →
  (∀ obj propName, P obj → P (t_objectGet obj propName)) →
  (∀ funcName params retType body rest,
     P body → P rest → P (t_recFunc funcName params retType body rest)) →
  ∀ t, P t.
Proof.
  intros Htrue Hfalse Hif Hnum Hadd Hvar Hfunc Hcall Hseq Hconst Hnew Hget Hrec.
  fix IH 1. intros [| |cond thn els|n|l r|name|params body|func args|body rest
                    |name init rest|props|obj propName
                    |funcName params retType body rest].
  - exact Htrue.
  - exact Hfalse.
  - apply Hif; apply IH.
  - apply Hnum.
  - apply Hadd; apply IH.
  - apply Hvar.
  - apply Hfunc, IH.
  - apply Hcall; [apply IH|].
    induction args as [|a args IHargs]; constructor; [apply IH | exact IHargs].
  - apply Hseq; apply IH.
  - apply Hconst; apply IH.
  - apply Hnew.
    induction props as [|[n a] props IHprops]; constructor; [apply IH | exact IHprops].
  - apply Hget, IH.
  - apply Hrec; apply IH.
Qed.

Lemma checkArgs_fuel_le fuel (tc tc' : Term → TypeEnv → R Ty) args params tyEnv :
  Forall (λ arg, ∀ tyEnv, fuel_le (tc arg tyEnv) (tc' arg tyEnv)) args →
  fuel_le (checkArgs fuel tc args params tyEnv) (checkArgs (S fuel) tc' args params tyEnv).
Proof.
  intros Hargs. revert params.
  induction Hargs as [|arg args Harg _ IH]; intros [|param params]; simpl; try by right.
  apply fuel_le_bind; [apply Harg|]. intros argTy.
  apply fuel_le_bind; [apply typeEqSub_fuel_S|]. intros b.
  apply fuel_le_if; [apply IH | by right].
Qed.

Lemma checkProps_fuel_le (tc tc' : Term → TypeEnv → R Ty) props tyEnv :
  Forall (λ p, ∀ tyEnv, fuel_le (tc p.2 tyEnv) (tc' p.2 tyEnv)) props →
  fuel_le (checkProps tc props tyEnv) (checkProps tc' props tyEnv).
Proof.
  induction 1 as [|prop props Hprop _ IH]; simpl; [by right|].
  apply fuel_le_bind; [apply Hprop|]. intros ty.
  apply fuel_le_bind; [apply IH | intros; by right].
Qed.

Lemma typecheck_fuel_S fuel t :
  ∀ tyEnv, fuel_le (typecheck fuel t tyEnv) (typecheck (S fuel) t tyEnv).
Proof.
  induction t as [| |cond thn els IHcond IHthn IHels|n|l r IHl IHr|name
                  |params body IHbody|func args IHfunc IHargs
                  |body rest IHbody IHrest|name init rest IHinit IHrest
                  |props IHprops|obj propName IHobj
                  |funcName params retType body rest IHbody IHrest] using Rec_Term_ind;
    intros tyEnv; cbn [typecheck].
  - by right.
  - by right.
  - apply fuel_le_bind; [apply IHcond|]. intros condTy0.
    apply fuel_le_bind; [apply simplifyType_fuel_S|]. intros condTy.
    destruct condTy; try by right.
    apply fuel_le_bind; [apply IHthn|]. intros thnTy.
    apply fuel_le_bind; [apply IHels|]. intros elsTy.
    apply fuel_le_bind; [apply typeEqSub_fuel_S | intros; by right].
  - by right.
  - apply fuel_le_bind; [apply IHl|]. intros leftTy0.
    apply fuel_le_bind; [apply simplifyType_fuel_S|]. intros leftTy.
    destruct leftTy; try by right.
    apply fuel_le_bind; [apply IHr|]. intros rightTy0.
    apply fuel_le_bind; [apply simplifyType_fuel_S | intros; by right].
  - by right.
  - apply fuel_le_bind; [apply IHbody | intros; by right].
  - apply fuel_le_bind; [apply IHfunc|]. intros funcTy0.
    apply fuel_le_bind; [apply simplifyType_fuel_S|]. intros funcTy.
    destruct funcTy; try by right.
    apply fuel_le_if; [by right|].
    apply fuel_le_bind; [by apply checkArgs_fuel_le | intros; by right].
  - apply fuel_le_bind; [apply IHbody | intros; apply IHrest].
  - apply fuel_le_bind; [apply IHinit | intros; apply IHrest].
  - apply fuel_le_bind; [by apply checkProps_fuel_le | intros; by right].
  - apply fuel_le_bind; [apply IHobj|]. intros objectTy0.
    apply fuel_le_bind; [apply simplifyType_fuel_S | intros; by right].
  - apply fuel_le_bind; [apply IHbody|]. intros retType'.
    apply fuel_le_bind; [apply typeEqSub_fuel_S|]. intros same.
    apply fuel_le_if; [by right | apply IHrest].
Qed.

Lemma typecheck_fuel_mono fuel fuel' t tyEnv :
  fuel ≤ fuel' → fuel_le (typecheck fuel t tyEnv) (typecheck fuel' t tyEnv).
Proof.
  induction 1 as [|fuel' _ IH]; [apply fuel_le_refl|].
  eapply fuel_le_trans; [exact IH | apply typecheck_fuel_S].
Qed.



(** *** Reflexivity of the equality *)

Lemma Rec_Ty_ind (P : Ty → Prop) :
  P Boolean → P Number →
  (∀ params retType, Forall (λ p, P p.2) params → P retType → P (Func params retType)) →
  (∀ props, Forall (λ p, P p.2) props → P (Object props)) →
  (∀ name type, P type → P (Rec name type)) →
  (∀ name, P (TypeVar name)) →
  ∀ ty, P ty.
Proof.
  intros HB HN HF HO HR HV.
  fix IH 1. intros [| |params retType|props|name type|name].
  - exact HB.
  - exact HN.
  - apply HF; [|apply IH].
    induction params as [|[n ty] ps IHps]; constructor; [apply IH | exact IHps].
  - apply HO.
    induction props as [|[n ty] ps IHps]; constructor; [apply IH | exact IHps].
  - apply HR, IH.
  - apply HV.
Qed.

Lemma depth_elem (props : list (string * Ty)) p :
  p ∈ props → depth p.2 ≤ foldr (λ p d, max (depth p.2) d) 0 props.
Proof.
  induction props as [|q props IH]; intros Hin.
  - by apply elem_of_nil in Hin.
  - apply elem_of_cons in Hin as [->|Hin]; simpl; [lia|].
    specialize (IH Hin). lia.
Qed.

Lemma eqParams_refl (eq : Ty → Ty → R bool) ps :
  Forall (λ p, eq p.2 p.2 = Ok true) ps → eqParams eq ps ps = Ok true.
Proof. induction 1 as [|p ps Hp _ IH]; simpl; [done|]. by rewrite Hp. Qed.

Lemma eqProps_refl (eq : Ty → Ty → R bool) props ps2 :
  NoDup props.*1 → ps2 ⊆ props →
  Forall (λ p, eq p.2 p.2 = Ok true) ps2 → eqProps eq props ps2 = Ok true.
Proof.
  intros Hnd Hsub Hps. induction Hps as [|p ps2 Hp _ IH]; simpl; [done|].
  rewrite (find_name_NoDup props p) by (first [done | apply Hsub; by left]).
  rewrite Hp. simpl. apply IH. intros q Hq. apply Hsub. by right.
Qed.

(** On types with no recursive type inside (and unique field names),
    [typeEq] is reflexive: nothing is unfolded and [seen] stays empty. *)
Lemma typeEq_refl_plain ty :
  plainType ty = true → ∀ fuel, depth ty < fuel → typeEq fuel ty ty = Ok true.
Proof.
  unfold typeEq.
  induction ty as [| |params retType IHps IHr|props IHps|name type _|name]
    using Rec_Ty_ind; intros Hplain fuel Hfuel; try done;
    (destruct fuel as [|fuel]; [lia|]); rewrite typeEqSub_S; simpl in *; try done.
  - apply andb_true_iff in Hplain as [Hps Hr].
    rewrite Nat.eqb_refl. simpl.
    rewrite eqParams_refl; [apply IHr; [done | lia]|].
    rewrite forallb_forall in Hps. apply Forall_forall. intros p Hp.
    rewrite Forall_forall in IHps. apply IHps; [done | by apply Hps, list_elem_of_In|].
    pose proof (depth_elem params p Hp). lia.
  - apply andb_true_iff in Hplain as [Hnd Hps]. apply bool_decide_eq_true in Hnd.
    rewrite Nat.eqb_refl. simpl.
    apply eqProps_refl; [done | done |].
    rewrite forallb_forall in Hps. apply Forall_forall. intros p Hp.
    rewrite Forall_forall in IHps. apply IHps; [done | by apply Hps, list_elem_of_In|].
    pose proof (depth_elem props p Hp). lia.
Qed.

(** C2 fails on the code.  [tyP = Rec P. (a: number, b: P) => tyQ] with
    [tyQ = Rec Q. (a: number) => Q] is closed, and [typeEq tyP tyP] does not
    return true: while comparing the return types, [typeEqNaive] tests the
    pair [(tyP, tyP)] of [seen] against [tyQ], runs over the two parameters
    of [tyP] and reads the second parameter of the one-parameter function. *)
Theorem typeEq_not_reflexive_tyP :
  ∀ fuel : nat,
    typeEq fuel tyP tyP = if decide (fuel < 4)%nat then Diverge else TypeError.
Proof.
  intros fuel. do 4 (destruct fuel as [|fuel]; [by vm_compute|]).
  rewrite decide_False by lia. by vm_compute.
Qed.

(** The same failure seen from the driver: the identity function on [tyP],
    [function f(x: P): P { return x; }; f], does not check. *)
Lemma typecheck_identity_on_tyP (fuel : nat) :
  typecheck fuel (identity_on tyP) ∅ = if decide (fuel < 4) then Diverge else TypeError.
Proof.
  do 4 (destruct fuel as [|fuel]; [by vm_compute|]).
  rewrite decide_False by lia. by vm_compute.
Qed.

End RecTheory.

(** ** The rules of the driver, across the variants *)

Module DriverTheory.




(** C7.  In both variants with recursive functions, the body of
    [function f(params): retType { body }; rest] is checked with the
    parameters bound and [f] bound, last, to [Func params retType]; if the body
    checks to a type that [typeEq] finds different from [retType] the result is
    the error "wrong return type" at the term, and if it finds them equal the
    result is that of [rest] checked with only [f] added to the environment.
    [function f(x: number): number { return f(x); }; f] checks to
    [(x: number) => number]. *)
Theorem recFunc_typing :
  (∀ f params retType (tyEnv : gmap string RecFunc.Ty),
     let funcTy := RecFunc.Func params retType in
     let bodyEnv := <[f := funcTy]> (bindParams params tyEnv) in
     let restEnv := <[f := funcTy]> tyEnv in
     bodyEnv !! f = Some funcTy ∧
     (∀ params1 x ty params2,
        params = (params1 ++ (x, ty) :: params2)%list → x ∉ params2.*1 → x ≠ f →
        bodyEnv !! x = Some ty) ∧
     restEnv !! f = Some funcTy ∧
     (∀ x, x ≠ f → restEnv !! x = tyEnv !! x) ∧
     (∀ body rest bodyTy,
        RecFunc.typecheck body bodyEnv = Ok bodyTy →
        RecFunc.typeEq retType bodyTy = false →
        RecFunc.typecheck (RecFunc.t_recFunc f params retType body rest) tyEnv
        = Error ReturnTypeMismatch (RecFunc.t_recFunc f params retType body rest)) ∧
     (∀ body rest bodyTy,
        RecFunc.typecheck body bodyEnv = Ok bodyTy →
        RecFunc.typeEq retType bodyTy = true →
        RecFunc.typecheck (RecFunc.t_recFunc f params retType body rest) tyEnv
        = RecFunc.typecheck rest restEnv)) ∧
  (∀ f x rest (tyEnv : gmap string RecFunc.Ty),
     x ≠ f →
     RecFunc.typecheck
       (RecFunc.t_recFunc f [(x, RecFunc.Number)] RecFunc.Number
          (RecFunc.t_call (RecFunc.t_var f) [RecFunc.t_var x]) rest) tyEnv
     = RecFunc.typecheck rest
         (<[f := RecFunc.Func [(x, RecFunc.Number)] RecFunc.Number]> tyEnv)) ∧
  RecFunc.typecheck RecFunc.prog_f ∅
  = Ok (RecFunc.Func [("x", RecFunc.Number)] RecFunc.Number) ∧
  RecFunc.typecheck RecFunc.prog_f0 ∅ = Ok RecFunc.Number ∧
  RecFunc.typecheck RecFunc.prog_wrong_return ∅
  = Error ReturnTypeMismatch RecFunc.prog_wrong_return ∧
  (∀ fuel f params retType (tyEnv : gmap string Rec.Ty),
     let funcTy := Rec.Func params retType in
     let bodyEnv := <[f := funcTy]> (bindParams params tyEnv) in
     let restEnv := <[f := funcTy]> tyEnv in
     bodyEnv !! f = Some funcTy ∧
     (∀ params1 x ty params2,
        params = (params1 ++ (x, ty) :: params2)%list → x ∉ params2.*1 → x ≠ f →
        bodyEnv !! x = Some ty) ∧
     restEnv !! f = Some funcTy ∧
     (∀ x, x ≠ f → restEnv !! x = tyEnv !! x) ∧
     (∀ body rest bodyTy,
        Rec.typecheck fuel body bodyEnv = Ok bodyTy →
        Rec.typeEq fuel retType bodyTy = Ok false →
        Rec.typecheck fuel (Rec.t_recFunc f params retType body rest) tyEnv
        = Error ReturnTypeMismatch (Rec.t_recFunc f params retType body rest)) ∧
     (∀ body rest bodyTy,
        Rec.typecheck fuel body bodyEnv = Ok bodyTy →
        Rec.typeEq fuel retType bodyTy = Ok true →
        Rec.typecheck fuel (Rec.t_recFunc f params retType body rest) tyEnv
        = Rec.typecheck fuel rest restEnv)) ∧
  (∀ (fuel : nat) f x rest (tyEnv : gmap string Rec.Ty),
     (1 ≤ fuel)%nat → x ≠ f →
     Rec.typecheck fuel
       (Rec.t_recFunc f [(x, Rec.Number)] Rec.Number
          (Rec.t_call (Rec.t_var f) [Rec.t_var x]) rest) tyEnv
     = Rec.typecheck fuel rest (<[f := Rec.Func [(x, Rec.Number)] Rec.Number]> tyEnv)) ∧
  (∀ fuel : nat, (1 ≤ fuel)%nat →
     Rec.typecheck fuel Rec.prog_f ∅ = Ok (Rec.Func [("x", Rec.Number)] Rec.Number) ∧
     Rec.typecheck fuel Rec.prog_wrong_return ∅
     = Error ReturnTypeMismatch Rec.prog_wrong_return).
Proof.
  split; [|split; [|split; [|split; [|split; [|split; [|split]]]]]].
  - intros f params retType tyEnv funcTy bodyEnv restEnv.
    subst funcTy bodyEnv restEnv. repeat apply conj.
    + apply lookup_insert_eq.
    + intros params1 x ty params2 -> Hx Hxf.
      rewrite lookup_insert_ne by done. by apply bindParams_lookup_last.
    + apply lookup_insert_eq.
    + intros x Hx. by apply lookup_insert_ne.
    + intros body rest bodyTy Hbody Heq. simpl. rewrite Hbody. simpl. by rewrite Heq.
    + intros body rest bodyTy Hbody Heq. simpl. rewrite Hbody. simpl. by rewrite Heq.
  - intros f x rest tyEnv Hxf. simpl. unfold bindParams. simpl.
    rewrite lookup_insert_eq. simpl.
    rewrite lookup_insert_ne by done. rewrite lookup_insert_eq. done.
  - by vm_compute.
  - by vm_compute.
  - by vm_compute.
  - intros fuel f params retType tyEnv funcTy bodyEnv restEnv.
    subst funcTy bodyEnv restEnv. repeat apply conj.
    + apply lookup_insert_eq.
    + intros params1 x ty params2 -> Hx Hxf.
      rewrite lookup_insert_ne by done. by apply bindParams_lookup_last.
    + apply lookup_insert_eq.
    + intros x Hx. by apply lookup_insert_ne.
    + intros body rest bodyTy Hbody Heq. simpl. rewrite Hbody. simpl. by rewrite Heq.
    + intros body rest bodyTy Hbody Heq. simpl. rewrite Hbody. simpl. by rewrite Heq.
  - intros fuel f x rest tyEnv Hfuel Hxf. destruct fuel as [|fuel]; [lia|].
    cbn [Rec.typecheck]. unfold bindParams. cbn [foldl fst snd].
    rewrite lookup_insert_eq. cbn [bind Rec.simplifyType length Nat.eqb negb Rec.checkArgs].
    cbn [Rec.typecheck]. rewrite lookup_insert_ne by done. rewrite lookup_insert_eq.
    cbn [bind snd].
    change (Rec.typeEq (S fuel) Rec.Number Rec.Number) with (@Ok Rec.Term bool true).
    done.
  - intros fuel Hfuel. destruct fuel as [|fuel]; [lia|]. split; by vm_compute.
Qed.

Lemma recFunc_typing_witness :
  RecFunc.typecheck RecFunc.prog_wrong_return ∅
  = Error ReturnTypeMismatch RecFunc.prog_wrong_return ∧
  RecFunc.typecheck RecFunc.prog_f ∅
  = RecFunc.typecheck (RecFunc.t_var "f")
      (<["f" := RecFunc.Func [("x", RecFunc.Number)] RecFunc.Number]> ∅) ∧
  (<["f" := RecFunc.Func [("x", RecFunc.Boolean); ("x", RecFunc.Number)] RecFunc.Number]>
     (bindParams [("x", RecFunc.Boolean); ("x", RecFunc.Number)] ∅) : gmap string RecFunc.Ty)
    !! "x" = Some RecFunc.Number ∧
  Rec.typecheck 1 Rec.prog_wrong_return ∅
  = Error ReturnTypeMismatch Rec.prog_wrong_return ∧
  Rec.typecheck 1 Rec.prog_f ∅
  = Rec.typecheck 1 (Rec.t_var "f")
      (<["f" := Rec.Func [("x", Rec.Number)] Rec.Number]> ∅) ∧
  Rec.typecheck 1 Rec.prog_f ∅ = Ok (Rec.Func [("x", Rec.Number)] Rec.Number).
Proof.
  destruct recFunc_typing as (HrecFunc & HrecFuncSelf & _ & _ & _ & Hrec & HrecSelf & Hprog).
  repeat apply conj.
  - destruct (HrecFunc "f" [("x", RecFunc.Number)] RecFunc.Number ∅)
      as (_ & _ & _ & _ & Hwrong & _).
    apply (Hwrong RecFunc.t_true (RecFunc.t_var "f") RecFunc.Boolean); reflexivity.
  - apply (HrecFuncSelf "f" "x" (RecFunc.t_var "f") ∅). discriminate.
  - destruct (HrecFunc "f" [("x", RecFunc.Boolean); ("x", RecFunc.Number)]
                RecFunc.Number ∅) as (_ & Hlast & _).
    apply (Hlast [("x", RecFunc.Boolean)] "x" RecFunc.Number []).
    + reflexivity.
    + simpl. apply not_elem_of_nil.
    + discriminate.
  - destruct (Hrec 1 "f" [("x", Rec.Number)] Rec.Number ∅)
      as (_ & _ & _ & _ & Hwrong & _).
    apply (Hwrong Rec.t_true (Rec.t_var "f") Rec.Boolean); reflexivity.
  - apply (HrecSelf 1 "f" "x" (Rec.t_var "f") ∅); [lia | discriminate].
  - apply (Hprog 1). lia.
Defined.

(** C10.  A function literal with several parameters of one name is checked
    with that name bound to the type of the last of them, and its type lists
    all the parameters as given: with [(x, ty)] the last parameter named [x],
    the body is checked in [bindParams params tyEnv], where [x] has type [ty],
    and the literal [(params) => x] has type [Func params ty]. *)
Theorem func_duplicate_params :
  (∀ params1 x ty params2 body (tyEnv : gmap string Sub.Ty),
     x ∉ params2.*1 →
     let params := (params1 ++ (x, ty) :: params2)%list in
     bindParams params tyEnv !! x = Some ty ∧
     Sub.typecheck (Sub.t_func params body) tyEnv
     = (let* retType := Sub.typecheck body (bindParams params tyEnv) in
        Ok (Sub.Func params retType)) ∧
     Sub.typecheck (Sub.t_func params (Sub.t_var x)) tyEnv = Ok (Sub.Func params ty)) ∧
  (∀ fuel params1 x ty params2 body (tyEnv : gmap string Rec.Ty),
     x ∉ params2.*1 →
     let params := (params1 ++ (x, ty) :: params2)%list in
     bindParams params tyEnv !! x = Some ty ∧
     Rec.typecheck fuel (Rec.t_func params body) tyEnv
     = (let* retType := Rec.typecheck fuel body (bindParams params tyEnv) in
        Ok (Rec.Func params retType)) ∧
     Rec.typecheck fuel (Rec.t_func params (Rec.t_var x)) tyEnv = Ok (Rec.Func params ty)).
Proof.
  split.
  - intros params1 x ty params2 body tyEnv Hx params.
    assert (bindParams params tyEnv !! x = Some ty) as Hlast
      by by apply bindParams_lookup_last.
    split; [done|]. split; [done|]. simpl. by rewrite Hlast.
  - intros fuel params1 x ty params2 body tyEnv Hx params.
    assert (bindParams params tyEnv !! x = Some ty) as Hlast
      by by apply bindParams_lookup_last.
    split; [done|]. split; [done|]. simpl. by rewrite Hlast.
Qed.

Lemma func_duplicate_params_witness :
  Sub.typecheck (Sub.t_func [("x", Sub.Boolean); ("y", Sub.Boolean); ("x", Sub.Number)]
                   (Sub.t_var "x")) ∅
  = Ok (Sub.Func [("x", Sub.Boolean); ("y", Sub.Boolean); ("x", Sub.Number)] Sub.Number) ∧
  Rec.typecheck 0 (Rec.t_func [("x", Rec.Boolean); ("x", Rec.Number); ("y", Rec.Boolean)]
                     (Rec.t_var "x")) ∅
  = Ok (Rec.Func [("x", Rec.Boolean); ("x", Rec.Number); ("y", Rec.Boolean)] Rec.Number).
Proof.
  destruct func_duplicate_params as [Hsub Hrec]. split.
  - apply (Hsub [("x", Sub.Boolean); ("y", Sub.Boolean)] "x" Sub.Number []
             (Sub.t_var "x") ∅).
    simpl. apply not_elem_of_nil.
  - apply (Hrec 0 [("x", Rec.Boolean)] "x" Rec.Number [("y", Rec.Boolean)]
             (Rec.t_var "x") ∅).
    simpl. by apply (bool_decide_unpack _).
Defined.

End DriverTheory.

#[local] Set Warnings "-clear-no-such-hyp".

(** ** Equality and subtyping in the subtyping variant *)

Module SubEquality.
Import Sub SubTheory.

Lemma typeEq_Func params1 retType1 params2 retType2 :
  typeEq (Func params1 retType1) (Func params2 retType2) = true ↔
  Forall2 (λ p1 p2, typeEq p1.2 p2.2 = true) params1 params2 ∧
  typeEq retType1 retType2 = true.
Proof.
  simpl. destruct (Nat.eqb_spec (length params1) (length params2)) as [Hlen|Hlen]; simpl.
  - rewrite <- Forall2_flip. unfold flip.
    rewrite <- (all2_true (λ p2 p1, typeEq p1.2 p2.2)) by done.
    destruct (all2 _ params2 params1); split; try done.
    + by intros [? ?].
    + by intros [? _].
  - split; [done|]. intros [Hps _]. by apply Forall2_length in Hps.
Qed.

Lemma typeEq_Object props1 props2 :
  typeEq (Object props1) (Object props2) = true ↔
  length props1 = length props2 ∧
  ∀ prop2, prop2 ∈ props2 →
    ∃ prop1, findProp prop2.1 props1 = Some prop1 ∧ typeEq prop1.2 prop2.2 = true.
Proof.
  simpl. destruct (Nat.eqb_spec (length props1) (length props2)) as [Hlen|Hlen]; simpl.
  - rewrite forallb_forall. split.
    + intros H. split; [done|]. intros prop2 Hin. apply list_elem_of_In, H in Hin.
      destruct (findProp prop2.1 props1) as [prop1|]; [eauto | done].
    + intros [_ H] prop2 Hin. apply list_elem_of_In, H in Hin as (prop1 & -> & Heq). done.
  - split; [done | by intros [? _]].
Qed.

Lemma findProp_is_Some {A} name (props : list (string * A)) :
  name ∈ props.*1 → ∃ prop, findProp name props = Some prop.
Proof.
  unfold findProp. induction props as [|p props IH]; simpl; intros Hin.
  - by apply elem_of_nil in Hin.
  - destruct (bool_decide (p.1 = name)) eqn:Hp; [eauto|].
    apply bool_decide_eq_false in Hp.
    apply elem_of_cons in Hin as [?|Hin]; [congruence | by apply IH].
Qed.

Lemma uniqueFields_Func params retType :
  uniqueFields (Func params retType) = true ↔
  (∀ p, p ∈ params → uniqueFields p.2 = true) ∧ uniqueFields retType = true.
Proof.
  simpl. rewrite andb_true_iff, forallb_forall.
  split; intros [Hps Hr]; (split; [|done]); intros p Hp; apply Hps;
    by apply list_elem_of_In.
Qed.

Lemma uniqueFields_Object props :
  uniqueFields (Object props) = true ↔
  NoDup props.*1 ∧ (∀ p, p ∈ props → uniqueFields p.2 = true).
Proof.
  simpl. rewrite andb_true_iff, forallb_forall, bool_decide_eq_true.
  split; intros [Hnd Hps]; (split; [done|]); intros p Hp; apply Hps;
    by apply list_elem_of_In.
Qed.

(** same field names in two lists found in one another *)
Lemma names_covered {A B} (props1 : list (string * A)) (props2 : list (string * B)) :
  NoDup props1.*1 → NoDup props2.*1 →
  length props1 = length props2 →
  (∀ name, name ∈ props2.*1 → name ∈ props1.*1) →
  ∀ name, name ∈ props1.*1 → name ∈ props2.*1.
Proof.
  intros Hnd1 Hnd2 Hlen Hsub name Hin.
  assert (props2.*1 ≡ₚ props1.*1) as Hperm.
  { apply submseteq_length_Permutation.
    - by apply NoDup_submseteq.
    - rewrite !length_fmap. lia. }
  by rewrite Hperm.
Qed.

Lemma names_same_length {A B} (props1 : list (string * A)) (props2 : list (string * B)) :
  NoDup props1.*1 → NoDup props2.*1 →
  (∀ name, name ∈ props2.*1 → name ∈ props1.*1) →
  (∀ name, name ∈ props1.*1 → name ∈ props2.*1) →
  length props1 = length props2.
Proof.
  intros Hnd1 Hnd2 H21 H12.
  pose proof (submseteq_length _ _ (NoDup_submseteq _ _ Hnd1 H12)) as Hle1.
  pose proof (submseteq_length _ _ (NoDup_submseteq _ _ Hnd2 H21)) as Hle2.
  rewrite !length_fmap in Hle1, Hle2. lia.
Qed.

Lemma typeEq_mutual_subType ty2 : ∀ ty1,
  uniqueFields ty1 = true → uniqueFields ty2 = true →
  typeEq ty1 ty2 = true ↔ subType ty1 ty2 = true ∧ subType ty2 ty1 = true.
Proof.
  induction ty2 as [| |params2 retType2 IHps IHr|props2 IHps] using Sub_Ty_ind;
    intros ty1 Hu1 Hu2.
  - destruct ty1; simpl; split; try done; by intros [? ?].
  - destruct ty1; simpl; split; try done; by intros [? ?].
  - destruct ty1 as [| |params1 retType1|];
      try (simpl; split; [done | by intros [? ?]]).
    apply uniqueFields_Func in Hu1 as [Hu1 Hur1].
    apply uniqueFields_Func in Hu2 as [Hu2 Hur2].
    rewrite typeEq_Func, !subType_Func, (IHr retType1 Hur1 Hur2).
    rewrite Forall_forall in IHps.
    rewrite !Forall2_same_length_lookup. split.
    + intros [[Hlen Hps] [Hr1 Hr2]]. repeat split; try done.
      * intros i p1 p2 Hp1 Hp2.
        apply (IHps p2 (list_elem_of_lookup_2 _ _ _ Hp2) p1.2); eauto using list_elem_of_lookup_2.
      * intros i p2 p1 Hp2 Hp1.
        apply (IHps p2 (list_elem_of_lookup_2 _ _ _ Hp2) p1.2); eauto using list_elem_of_lookup_2.
    + intros [[[Hlen Hps12] Hr1] [[_ Hps21] Hr2]]. repeat split; try done.
      intros i p1 p2 Hp1 Hp2.
      apply (IHps p2 (list_elem_of_lookup_2 _ _ _ Hp2) p1.2); eauto using list_elem_of_lookup_2.
  - destruct ty1 as [| | |props1];
      try (simpl; split; [done | by intros [? ?]]).
    apply uniqueFields_Object in Hu1 as [Hnd1 Hu1].
    apply uniqueFields_Object in Hu2 as [Hnd2 Hu2].
    rewrite typeEq_Object, !subType_Object.
    rewrite Forall_forall in IHps. split.
    + intros [Hlen Heq].
      assert (∀ name, name ∈ props2.*1 → name ∈ props1.*1) as H21.
      { intros name (prop2 & -> & Hin2)%list_elem_of_fmap.
        destruct (Heq prop2 Hin2) as (prop1 & Hf & _).
        apply find_name_Some in Hf as [Hin1 <-]. by apply list_elem_of_fmap_2. }
      split.
      * intros prop2 Hin2. destruct (Heq prop2 Hin2) as (prop1 & Hf & Hteq).
        exists prop1. split; [done|].
        pose proof (find_name_Some _ _ _ Hf) as [Hin1 _].
        apply (IHps prop2 Hin2 prop1.2); eauto.
      * intros prop1 Hin1.
        assert (prop1.1 ∈ props2.*1) as Hname.
        { apply (names_covered props1 props2); try done. by apply list_elem_of_fmap_2. }
        apply list_elem_of_fmap in Hname as (prop2 & Hn & Hin2).
        exists prop2. split; [rewrite Hn; by apply find_name_NoDup|].
        destruct (Heq prop2 Hin2) as (prop1' & Hf & Hteq).
        rewrite <- Hn, (find_name_NoDup props1 prop1) in Hf by done.
        injection Hf as <-.
        apply (IHps prop2 Hin2 prop1.2); eauto.
    + intros [H12 H21].
      split.
      * apply names_same_length; try done.
        -- intros name (prop2 & -> & Hin2)%list_elem_of_fmap.
           destruct (H12 prop2 Hin2) as (prop1 & Hf & _).
           apply find_name_Some in Hf as [Hin1 <-]. by apply list_elem_of_fmap_2.
        -- intros name (prop1 & -> & Hin1)%list_elem_of_fmap.
           destruct (H21 prop1 Hin1) as (prop2 & Hf & _).
           apply find_name_Some in Hf as [Hin2 <-]. by apply list_elem_of_fmap_2.
      * intros prop2 Hin2. destruct (H12 prop2 Hin2) as (prop1 & Hf & Hs12).
        exists prop1. split; [done|].
        pose proof (find_name_Some _ _ _ Hf) as [Hin1 Hn].
        destruct (H21 prop1 Hin1) as (prop2' & Hf' & Hs21).
        rewrite Hn, (find_name_NoDup props2 prop2) in Hf' by done.
        injection Hf' as <-.
        apply (IHps prop2 Hin2 prop1.2); eauto.
Qed.

Lemma bool_eq_iff (b1 b2 : bool) : (b1 = true ↔ b2 = true) → b1 = b2.
Proof. destruct b1, b2; intros [H1 H2]; try done; [by rewrite H1 | by rewrite H2]. Qed.

Lemma Forall2_types (R : Ty → Ty → Prop) (ps1 ps2 : list (string * Ty)) :
  Forall2 (λ p1 p2, R p1.2 p2.2) ps1 ps2 ↔ Forall2 R ps1.*2 ps2.*2.
Proof. by rewrite Forall2_fmap. Qed.

Lemma subType_param_names params1 params1' params2 params2' retType1 retType2 :
  params1.*2 = params1'.*2 → params2.*2 = params2'.*2 →
  subType (Func params1 retType1) (Func params2 retType2)
  = subType (Func params1' retType1) (Func params2' retType2).
Proof.
  intros H1 H2. apply bool_eq_iff. rewrite !subType_Func.
  rewrite (Forall2_types (λ t1 t2, subType t2 t1 = true) params1 params2).
  rewrite (Forall2_types (λ t1 t2, subType t2 t1 = true) params1' params2').
  by rewrite H1, H2.
Qed.

Lemma typeEq_param_names params1 params1' params2 params2' retType1 retType2 :
  params1.*2 = params1'.*2 → params2.*2 = params2'.*2 →
  typeEq (Func params1 retType1) (Func params2 retType2)
  = typeEq (Func params1' retType1) (Func params2' retType2).
Proof.
  intros H1 H2. apply bool_eq_iff. rewrite !typeEq_Func.
  rewrite (Forall2_types (λ t1 t2, typeEq t1 t2 = true) params1 params2).
  rewrite (Forall2_types (λ t1 t2, typeEq t1 t2 = true) params1' params2').
  by rewrite H1, H2.
Qed.

Lemma findProp_Permutation {A} name (props props' : list (string * A)) :
  NoDup props.*1 → props ≡ₚ props' → findProp name props = findProp name props'.
Proof.
  intros Hnd Hperm.
  assert (NoDup props'.*1) as Hnd' by by rewrite <- Hperm.
  destruct (findProp name props) as [p|] eqn:Hf.
  - apply find_name_Some in Hf as [Hin <-]. symmetry.
    apply find_name_NoDup; [done|]. by rewrite <- Hperm.
  - destruct (findProp name props') as [p'|] eqn:Hf'; [|done].
    apply find_name_Some in Hf' as [Hin' <-].
    rewrite <- Hperm in Hin'. by rewrite (find_name_NoDup props p') in Hf.
Qed.

Lemma subType_field_order props1 props1' props2 props2' :
  NoDup props1.*1 → props1 ≡ₚ props1' → props2 ≡ₚ props2' →
  subType (Object props1) (Object props2) = subType (Object props1') (Object props2').
Proof.
  intros Hnd H1 H2. apply bool_eq_iff. rewrite !subType_Object.
  split; intros H prop2 Hin.
  - rewrite <- H2 in Hin. destruct (H prop2 Hin) as (prop1 & Hf & Hs).
    exists prop1. by rewrite <- (findProp_Permutation _ props1 props1').
  - rewrite H2 in Hin. destruct (H prop2 Hin) as (prop1 & Hf & Hs).
    exists prop1. by rewrite (findProp_Permutation _ props1 props1').
Qed.

Lemma typeEq_field_order props1 props1' props2 props2' :
  NoDup props1.*1 → props1 ≡ₚ props1' → props2 ≡ₚ props2' →
  typeEq (Object props1) (Object props2) = typeEq (Object props1') (Object props2').
Proof.
  intros Hnd H1 H2. apply bool_eq_iff. rewrite !typeEq_Object.
  rewrite <- (Permutation_length H1), <- (Permutation_length H2).
  split; intros [Hlen H]; (split; [done|]); intros prop2 Hin.
  - rewrite <- H2 in Hin. destruct (H prop2 Hin) as (prop1 & Hf & Hs).
    exists prop1. by rewrite <- (findProp_Permutation _ props1 props1').
  - rewrite H2 in Hin. destruct (H prop2 Hin) as (prop1 & Hf & Hs).
    exists prop1. by rewrite (findProp_Permutation _ props1 props1').
Qed.

Lemma typeEq_refl ty : uniqueFields ty = true → typeEq ty ty = true.
Proof.
  intros Hu. apply typeEq_mutual_subType; [done | done|].
  split; by apply subType_refl_unique.
Qed.

Lemma typeEq_sym ty1 ty2 :
  uniqueFields ty1 = true → uniqueFields ty2 = true → typeEq ty1 ty2 = typeEq ty2 ty1.
Proof.
  intros Hu1 Hu2. apply bool_eq_iff.
  rewrite !typeEq_mutual_subType by done. tauto.
Qed.

Lemma typeEq_trans ty1 ty2 ty3 :
  uniqueFields ty1 = true → uniqueFields ty2 = true → uniqueFields ty3 = true →
  typeEq ty1 ty2 = true → typeEq ty2 ty3 = true → typeEq ty1 ty3 = true.
Proof.
  intros Hu1 Hu2 Hu3.
  rewrite !typeEq_mutual_subType by done.
  intros [H12 H21] [H23 H32]. split; by eapply subType_trans_mid.
Qed.

(** X1. In the subtyping variant, on types whose objects have no repeated
    field name, [typeEq] holds exactly when [subType] holds in both
    directions. *)
Theorem typeEq_is_subType_both_ways ty1 ty2 :
  uniqueFields ty1 = true → uniqueFields ty2 = true →
  typeEq ty1 ty2 = subType ty1 ty2 && subType ty2 ty1.
Proof.
  intros Hu1 Hu2. apply bool_eq_iff.
  rewrite andb_true_iff. by apply typeEq_mutual_subType.
Qed.

Lemma typeEq_is_subType_both_ways_witness :
  typeEq fooBar (Object [("bar", Boolean); ("foo", Number)])
  = subType fooBar (Object [("bar", Boolean); ("foo", Number)])
    && subType (Object [("bar", Boolean); ("foo", Number)]) fooBar.
Proof.
  apply (typeEq_is_subType_both_ways fooBar (Object [("bar", Boolean); ("foo", Number)]));
    reflexivity.
Defined.

(** With a repeated field name the two notions differ: the lookup by name
    sees only the first field of that name. *)
Example typeEq_repeated_field_not_subType :
  typeEq (Object [("a", Number); ("a", Boolean)]) (Object [("a", Number); ("a", Number)]) = true ∧
  subType (Object [("a", Number); ("a", Number)]) (Object [("a", Number); ("a", Boolean)]) = false.
Proof. by vm_compute. Qed.

(** X2. [typeEq] of the subtyping variant is an equivalence relation on types
    whose objects have no repeated field name. *)
Theorem typeEq_equivalence ty1 ty2 ty3 :
  uniqueFields ty1 = true → uniqueFields ty2 = true → uniqueFields ty3 = true →
  typeEq ty1 ty1 = true ∧
  typeEq ty1 ty2 = typeEq ty2 ty1 ∧
  (typeEq ty1 ty2 = true → typeEq ty2 ty3 = true → typeEq ty1 ty3 = true).
Proof.
  intros Hu1 Hu2 Hu3. split; [|split].
  - by apply typeEq_refl.
  - by apply typeEq_sym.
  - by apply typeEq_trans.
Qed.

Lemma typeEq_equivalence_witness :
  typeEq fooBar fooBar = true ∧
  typeEq fooBar (Object [("bar", Boolean); ("foo", Number)])
  = typeEq (Object [("bar", Boolean); ("foo", Number)]) fooBar ∧
  (typeEq fooBar (Object [("bar", Boolean); ("foo", Number)]) = true →
   typeEq (Object [("bar", Boolean); ("foo", Number)]) fooBar = true →
   typeEq fooBar fooBar = true).
Proof.
  apply (typeEq_equivalence fooBar (Object [("bar", Boolean); ("foo", Number)]) fooBar);
    reflexivity.
Defined.

(** X3. Parameter names play no part in comparing function types: [subType]
    and [typeEq] give the same answer when the parameters are renamed. *)
Theorem Func_parameter_names_ignored params1 params1' params2 params2' retType1 retType2 :
  params1.*2 = params1'.*2 → params2.*2 = params2'.*2 →
  subType (Func params1 retType1) (Func params2 retType2)
  = subType (Func params1' retType1) (Func params2' retType2) ∧
  typeEq (Func params1 retType1) (Func params2 retType2)
  = typeEq (Func params1' retType1) (Func params2' retType2).
Proof.
  intros H1 H2. split.
  - by apply subType_param_names.
  - by apply typeEq_param_names.
Qed.

Lemma Func_parameter_names_ignored_witness :
  subType (Func [("x", fooNumber)] Number) (Func [("y", fooBar)] Number)
  = subType (Func [("a", fooNumber)] Number) (Func [("b", fooBar)] Number) ∧
  typeEq (Func [("x", fooNumber)] Number) (Func [("y", fooBar)] Number)
  = typeEq (Func [("a", fooNumber)] Number) (Func [("b", fooBar)] Number).
Proof.
  apply (Func_parameter_names_ignored [("x", fooNumber)] [("a", fooNumber)]
           [("y", fooBar)] [("b", fooBar)] Number Number); reflexivity.
Defined.

(** X4. The order of the fields plays no part in comparing object types
    whose field names are distinct: [subType] and [typeEq] give the same
    answer when the fields of either side are permuted. *)
Theorem Object_field_order_ignored props1 props1' props2 props2' :
  NoDup props1.*1 → props1 ≡ₚ props1' → props2 ≡ₚ props2' →
  subType (Object props1) (Object props2) = subType (Object props1') (Object props2') ∧
  typeEq (Object props1) (Object props2) = typeEq (Object props1') (Object props2').
Proof.
  intros Hnd H1 H2. split.
  - by apply subType_field_order.
  - by apply typeEq_field_order.
Qed.

Lemma Object_field_order_ignored_witness :
  subType (Object [("foo", Number); ("bar", Boolean)]) (Object [("bar", Boolean); ("foo", Number)])
  = subType (Object [("bar", Boolean); ("foo", Number)]) (Object [("foo", Number); ("bar", Boolean)]) ∧
  typeEq (Object [("foo", Number); ("bar", Boolean)]) (Object [("bar", Boolean); ("foo", Number)])
  = typeEq (Object [("bar", Boolean); ("foo", Number)]) (Object [("foo", Number); ("bar", Boolean)]).
Proof.
  apply (Object_field_order_ignored
           [("foo", Number); ("bar", Boolean)] [("bar", Boolean); ("foo", Number)]
           [("bar", Boolean); ("foo", Number)] [("foo", Number); ("bar", Boolean)]).
  - apply (bool_decide_unpack _). by vm_compute.
  - apply perm_swap.
  - apply perm_swap.
Defined.

End SubEquality.

(** ** Substitution and the renaming-aware comparison *)

Module RecTypeTheory.
Import Rec RecTheory.

Lemma simplifyType_not_Rec_id fuel ty :
  Rec.isRec ty = false → Rec.simplifyType fuel ty = Ok ty.
Proof. by destruct ty, fuel. Qed.

Lemma map_type_id (f : Ty → Ty) (props : list (string * Ty)) :
  Forall (λ p, f p.2 = p.2) props → List.map (λ p, (p.1, f p.2)) props = props.
Proof.
  induction 1 as [|[n ty] props Hp _ IH]; simpl in *; [done|]. by rewrite Hp, IH.
Qed.

Lemma map_type_names (f : Ty → Ty) (props : list (string * Ty)) :
  (List.map (λ p, (p.1, f p.2)) props).*1 = props.*1.
Proof. induction props as [|[n ty] props IH]; [done|]. cbn. by f_equal. Qed.

Lemma elem_of_freeTypeVars_list x (props : list (string * Ty)) :
  x ∈ ⋃ (List.map (λ p, freeTypeVars p.2) props) ↔
  ∃ p, p ∈ props ∧ x ∈ freeTypeVars p.2.
Proof.
  rewrite elem_of_union_list. split.
  - intros (X & HX & Hx). apply list_elem_of_In, in_map_iff in HX as (p & <- & Hp).
    exists p. by rewrite list_elem_of_In.
  - intros (p & Hp & Hx). exists (freeTypeVars p.2). split; [|done].
    apply list_elem_of_In, in_map_iff. exists p. by rewrite <- list_elem_of_In.
Qed.

(** X5. [expandType] leaves a type unchanged when the variable does not
    occur free in it; in particular it never substitutes under a [Rec] that
    binds the same name. *)
Theorem expandType_variable_not_free ty x rep :
  x ∉ freeTypeVars ty → expandType ty x rep = ty.
Proof.
  induction ty as [| |params retType IHps IHr|props IHps|name type IH|name]
    using Rec_Ty_ind; simpl; intros Hx; try done.
  - rewrite not_elem_of_union in Hx. destruct Hx as [Hps Hr].
    rewrite IHr by done. f_equal. apply (map_type_id (λ ty, expandType ty x rep)).
    rewrite Forall_forall in IHps. apply Forall_forall. intros p Hp.
    apply IHps; [done|]. intros Hxp. apply Hps.
    apply elem_of_freeTypeVars_list. eauto.
  - f_equal. apply (map_type_id (λ ty, expandType ty x rep)).
    rewrite Forall_forall in IHps. apply Forall_forall. intros p Hp.
    apply IHps; [done|]. intros Hxp. apply Hx.
    apply elem_of_freeTypeVars_list. eauto.
  - case_bool_decide; [done|]. rewrite IH; [done|]. set_solver.
  - case_bool_decide; [|done]. set_solver.
Qed.

Lemma freeTypeVars_expandType ty x rep :
  freeTypeVars (expandType ty x rep) ⊆ (freeTypeVars ty ∖ {[x]}) ∪ freeTypeVars rep.
Proof.
  induction ty as [| |params retType IHps IHr|props IHps|name type IH|name]
    using Rec_Ty_ind; simpl.
  - set_solver.
  - set_solver.
  - intros y. rewrite elem_of_union, elem_of_freeTypeVars_list.
    intros [(p & Hp & Hy)|Hy].
    + apply list_elem_of_In, in_map_iff in Hp as (q & <- & Hq). simpl in Hy.
      apply list_elem_of_In in Hq.
      rewrite Forall_forall in IHps. apply (IHps q Hq) in Hy.
      assert (freeTypeVars q.2 ⊆ ⋃ (List.map (λ p, freeTypeVars p.2) params)).
      { intros z Hz. apply elem_of_freeTypeVars_list. eauto. }
      set_solver.
    + apply IHr in Hy. set_solver.
  - intros y. rewrite elem_of_freeTypeVars_list.
    intros (p & Hp & Hy).
    apply list_elem_of_In, in_map_iff in Hp as (q & <- & Hq). simpl in Hy.
    apply list_elem_of_In in Hq.
    rewrite Forall_forall in IHps. apply (IHps q Hq) in Hy.
    assert (freeTypeVars q.2 ⊆ ⋃ (List.map (λ p, freeTypeVars p.2) props)).
    { intros z Hz. apply elem_of_freeTypeVars_list. eauto. }
    set_solver.
  - case_bool_decide; simpl; set_solver.
  - case_bool_decide; simpl; set_solver.
Qed.

Lemma uniqueFields_expandType ty x rep :
  uniqueFields ty = true → uniqueFields rep = true →
  uniqueFields (expandType ty x rep) = true.
Proof.
  intros Hty Hrep.
  induction ty as [| |params retType IHps IHr|props IHps|name type IH|name]
    using Rec_Ty_ind; simpl in *; try done.
  - apply andb_true_iff in Hty as [Hps Hr]. apply andb_true_iff. split; [|by apply IHr].
    rewrite forallb_forall in *. intros p Hp.
    apply in_map_iff in Hp as (q & <- & Hq). simpl.
    rewrite Forall_forall in IHps. apply IHps; [by apply list_elem_of_In | by apply Hps].
  - apply andb_true_iff in Hty as [Hnd Hps]. apply andb_true_iff. split.
    + by rewrite (map_type_names (λ ty, expandType ty x rep)).
    + rewrite forallb_forall in *. intros p Hp.
      apply in_map_iff in Hp as (q & <- & Hq). simpl.
      rewrite Forall_forall in IHps. apply IHps; [by apply list_elem_of_In | by apply Hps].
  - case_bool_decide; simpl; [done | by apply IH].
  - by case_bool_decide.
Qed.

Lemma simplifyType_closed_unique fuel : ∀ ty ty',
  freeTypeVars ty = ∅ → uniqueFields ty = true →
  simplifyType fuel ty = Ok ty' →
  freeTypeVars ty' = ∅ ∧ uniqueFields ty' = true.
Proof.
  induction fuel as [|fuel IH]; intros ty ty' Hclosed Huniq Hsimp.
  - destruct ty; simpl in Hsimp; try done; by simplify_eq.
  - destruct ty as [| | | |name type|]; simpl in Hsimp; try by simplify_eq.
    apply IH in Hsimp; [done| |].
    + pose proof (freeTypeVars_expandType type name (Rec name type)) as Hsub.
      simpl in Hclosed. set_solver.
    + by apply uniqueFields_expandType.
Qed.

Lemma typeEqNaive_Func params1 retType1 params2 retType2 map :
  typeEqNaive (Func params1 retType1) (Func params2 retType2) map =
  let* isSameParams := eqParams (λ a b, typeEqNaive a b map) params1 params2 in
  if isSameParams then typeEqNaive retType1 retType2 map else Ok false.
Proof. reflexivity. Qed.

Lemma typeEqNaive_Object props1 props2 map :
  typeEqNaive (Object props1) (Object props2) map =
  if negb (Nat.eqb (length props1) (length props2)) then Ok false
  else eqProps (λ b a, typeEqNaive a b map) props2 props1.
Proof.
  simpl. destruct (negb _); [done|].
  induction props1 as [|prop1 props1 IH]; simpl; [done|].
  destruct (findProp prop1.1 props2); [|done].
  destruct (typeEqNaive prop1.2 _ map) as [[|]| | | |]; simpl; try done.
Qed.

Lemma typeEqNaive_refl ty :
  ∀ map : gmap string string,
    uniqueFields ty = true →
    (∀ x, x ∈ freeTypeVars ty → map !! x = Some x) →
    typeEqNaive ty ty map = Ok true.
Proof.
  induction ty as [| |params retType IHps IHr|props IHps|name type IH|name]
    using Rec_Ty_ind; intros map Huniq Hmap.
  - done.
  - done.
  - rewrite typeEqNaive_Func. simpl in Huniq, Hmap.
    apply andb_true_iff in Huniq as [Hps Hr].
    rewrite eqParams_refl.
    + apply IHr; [done|]. intros x Hx. apply Hmap. set_solver.
    + rewrite forallb_forall in Hps. rewrite Forall_forall in IHps.
      apply Forall_forall. intros p Hp. apply IHps; [done | by apply Hps, list_elem_of_In|].
      intros x Hx. apply Hmap. apply elem_of_union. left.
      apply elem_of_union_list. exists (freeTypeVars p.2). split; [|done].
      apply list_elem_of_In, in_map_iff. exists p. by rewrite <- list_elem_of_In.
  - rewrite typeEqNaive_Object. simpl in Huniq, Hmap.
    apply andb_true_iff in Huniq as [Hnd Hps]. apply bool_decide_eq_true in Hnd.
    rewrite Nat.eqb_refl. simpl.
    apply eqProps_refl; [done | done |].
    rewrite forallb_forall in Hps. rewrite Forall_forall in IHps.
    apply Forall_forall. intros p Hp. apply IHps; [done | by apply Hps, list_elem_of_In|].
    intros x Hx. apply Hmap.
    apply elem_of_union_list. exists (freeTypeVars p.2). split; [|done].
    apply list_elem_of_In, in_map_iff. exists p. by rewrite <- list_elem_of_In.
  - simpl. apply IH; [done|]. intros x Hx.
    destruct (decide (x = name)) as [->|Hne].
    + apply lookup_insert_eq.
    + rewrite lookup_insert_ne by done. apply Hmap. simpl. set_solver.
  - simpl. rewrite (Hmap name) by (simpl; set_solver). by rewrite bool_decide_eq_true_2.
Qed.

(** surplus parameters of ty2 are not looked at *)
Lemma eqParams_surplus (eq : Ty → Ty → R bool) ps1 ps2 extra :
  length ps1 = length ps2 →
  eqParams eq ps1 (ps2 ++ extra) = eqParams eq ps1 ps2.
Proof.
  revert ps2. induction ps1 as [|p1 ps1 IH]; intros [|p2 ps2] Hlen; simpl in *; try done.
  destruct (eq p1.2 p2.2) as [[|]| | | |]; simpl; try done. apply IH. lia.
Qed.

Lemma eqParams_short (eq : Ty → Ty → R bool) ps1 p ps1' ps2 :
  Forall2 (λ p1 p2, eq p1.2 p2.2 = Ok true) ps1 ps2 →
  eqParams eq (ps1 ++ p :: ps1') ps2 = TypeError.
Proof.
  induction 1 as [|p1 p2 ps1 ps2 Hp _ IH]; simpl; [done|]. by rewrite Hp.
Qed.

Lemma eqParams_all_equal (eq : Ty → Ty → R bool) ps1 ps2 :
  Forall2 (λ p1 p2, eq p1.2 p2.2 = Ok true) ps1 ps2 → eqParams eq ps1 ps2 = Ok true.
Proof.
  induction 1 as [|p1 p2 ps1 ps2 Hp _ IH]; [done|]. simpl. by rewrite Hp.
Qed.

Lemma expandType_variable_not_free_witness :
  expandType (Func [("x", Rec "X" (Func [] (TypeVar "X")))] Number) "X" Boolean
  = Func [("x", Rec "X" (Func [] (TypeVar "X")))] Number.
Proof.
  apply (expandType_variable_not_free
           (Func [("x", Rec "X" (Func [] (TypeVar "X")))] Number) "X" Boolean).
  simpl. set_solver.
Defined.

(** X6. [expandType ty x rep] has no free type variable other than those of
    [ty] apart from [x], and those of [rep]. *)
Theorem expandType_free_variables ty x rep :
  freeTypeVars (expandType ty x rep) ⊆ (freeTypeVars ty ∖ {[x]}) ∪ freeTypeVars rep.
Proof. apply freeTypeVars_expandType. Qed.

(** X7. When [simplifyType] returns on a closed type whose objects have no
    repeated field name, its result is again closed with no repeated field
    name, and is not a [Rec]. *)
Theorem simplifyType_keeps_closed fuel ty ty' :
  freeTypeVars ty = ∅ → uniqueFields ty = true →
  simplifyType fuel ty = Ok ty' →
  freeTypeVars ty' = ∅ ∧ uniqueFields ty' = true ∧ isRec ty' = false.
Proof.
  intros Hc Hu Hs.
  destruct (simplifyType_closed_unique fuel ty ty' Hc Hu Hs) as [Hc' Hu'].
  split; [done|]. split; [done|]. by eapply simplifyType_not_Rec.
Qed.

Lemma simplifyType_keeps_closed_witness :
  freeTypeVars (Object [("num", Number); ("rest", Func [] NumStream)]) = ∅ ∧
  uniqueFields (Object [("num", Number); ("rest", Func [] NumStream)]) = true ∧
  isRec (Object [("num", Number); ("rest", Func [] NumStream)]) = false.
Proof.
  apply (simplifyType_keeps_closed 1 NumStream).
  - apply set_eq. intros x. unfold NumStream. simpl. set_solver.
  - reflexivity.
  - reflexivity.
Defined.

(** X8. [typeEqNaive] answers [true] on a type compared with itself, when
    no object of the type repeats a field name and the renaming maps each
    free type variable to itself. *)
Theorem typeEqNaive_reflexive ty (map : gmap string string) :
  uniqueFields ty = true →
  (∀ x, x ∈ freeTypeVars ty → map !! x = Some x) →
  typeEqNaive ty ty map = Ok true.
Proof. apply typeEqNaive_refl. Qed.

Lemma typeEqNaive_reflexive_witness :
  typeEqNaive (Func [("x", TypeVar "A")] NumStream) (Func [("x", TypeVar "A")] NumStream)
    (<["A" := "A"]> ∅) = Ok true.
Proof.
  apply (typeEqNaive_reflexive (Func [("x", TypeVar "A")] NumStream) (<["A" := "A"]> ∅)).
  - reflexivity.
  - intros x Hx. assert (x = "A") as -> by (revert Hx; unfold NumStream; simpl; set_solver).
    apply lookup_insert_eq.
Defined.

(** X9. A pair of closed types that is first in the list of pairs assumed
    equal is answered [true] by [typeEqSub] without looking into the
    types. *)
Theorem typeEqSub_assumed_pair fuel ty1 ty2 seen :
  freeTypeVars ty1 = ∅ → uniqueFields ty1 = true →
  freeTypeVars ty2 = ∅ → uniqueFields ty2 = true →
  typeEqSub (S fuel) ty1 ty2 ((ty1, ty2) :: seen) = Ok true.
Proof.
  intros Hc1 Hu1 Hc2 Hu2. simpl.
  rewrite (typeEqNaive_refl ty1 ∅ Hu1) by (intros x; rewrite Hc1; set_solver).
  simpl.
  by rewrite (typeEqNaive_refl ty2 ∅ Hu2) by (intros x; rewrite Hc2; set_solver).
Qed.

Lemma typeEqSub_assumed_pair_witness :
  typeEqSub 1 NumStream (Func [] Number) [(NumStream, Func [] Number)] = Ok true.
Proof.
  apply (typeEqSub_assumed_pair 0 NumStream (Func [] Number) []).
  - apply set_eq. intros x. unfold NumStream. simpl. set_solver.
  - reflexivity.
  - apply set_eq. intros x. simpl. set_solver.
  - reflexivity.
Defined.

(** X10. [typeEqNaive] does not compare the numbers of parameters of two
    function types.  When the parameters of the first are equal to the first
    parameters of the second, further parameters of the second are ignored
    and the answer is that of the return types; further parameters of the
    first make the comparison read a parameter that is not there, a
    [TypeError]. *)
Theorem typeEqNaive_parameter_count params1 params2 extra retType1 retType2 map :
  Forall2 (λ p1 p2, typeEqNaive p1.2 p2.2 map = Ok true) params1 params2 →
  extra ≠ [] →
  typeEqNaive (Func params1 retType1) (Func (params2 ++ extra) retType2) map
  = typeEqNaive retType1 retType2 map ∧
  typeEqNaive (Func (params1 ++ extra) retType1) (Func params2 retType2) map = TypeError.
Proof.
  intros Hps Hextra. rewrite !typeEqNaive_Func. split.
  - rewrite eqParams_surplus by by eapply Forall2_length.
    by rewrite (eqParams_all_equal _ _ _ Hps).
  - destruct extra as [|p extra]; [done|].
    by rewrite (eqParams_short _ _ _ _ _ Hps).
Qed.

Lemma typeEqNaive_parameter_count_witness :
  typeEqNaive (Func [("x", Number)] Boolean)
    (Func ([("y", Number)] ++ [("z", Boolean)]) Boolean) ∅
  = typeEqNaive Boolean Boolean ∅ ∧
  typeEqNaive (Func ([("x", Number)] ++ [("z", Boolean)]) Boolean)
    (Func [("y", Number)] Boolean) ∅ = TypeError.
Proof.
  apply (typeEqNaive_parameter_count [("x", Number)] [("y", Number)] [("z", Boolean)]
           Boolean Boolean ∅).
  - constructor; [reflexivity | constructor].
  - discriminate.
Defined.

End RecTypeTheory.

(** ** Each checker extends the one before *)

Module ChapterTheory.
Import Embed RecTypeTheory.

Lemma RecFunc_Ty_ind (P : RecFunc.Ty → Prop) :
  P RecFunc.Boolean → P RecFunc.Number →
  (∀ params retType,
     Forall (λ p, P p.2) params → P retType → P (RecFunc.Func params retType)) →
  (∀ props, Forall (λ p, P p.2) props → P (RecFunc.Object props)) →
  ∀ ty, P ty.
Proof.
  intros HB HN HF HO.
  fix IH 1. intros [| |params retType|props].
  - exact HB.
  - exact HN.
  - apply HF; [|apply IH].
    induction params as [|[n ty] ps IHps]; constructor; [apply IH | exact IHps].
  - apply HO.
    induction props as [|[n ty] ps IHps]; constructor; [apply IH | exact IHps].
Qed.

Lemma isRec_recFuncTy ty : Rec.isRec (recFuncTy ty) = false.
Proof. by destruct ty. Qed.

Lemma simplifyType_recFuncTy fuel ty :
  Rec.simplifyType fuel (recFuncTy ty) = Ok (recFuncTy ty).
Proof. apply simplifyType_not_Rec_id, isRec_recFuncTy. Qed.

Lemma findProp_recFuncParams name props :
  findProp name (recFuncParams props)
  = (λ p, (p.1, recFuncTy p.2)) <$> findProp name props.
Proof.
  unfold findProp, recFuncParams.
  induction props as [|[n ty] props IH]; simpl; [done|].
  by destruct (bool_decide (n = name)).
Qed.

Lemma depth_recFuncParams (props : list (string * RecFunc.Ty)) p :
  p ∈ props →
  Rec.depth (recFuncTy p.2)
  ≤ foldr (λ p d, max (Rec.depth p.2) d) 0 (recFuncParams props).
Proof.
  intros Hp.
  apply (RecTheory.depth_elem (recFuncParams props) (p.1, recFuncTy p.2)).
  apply list_elem_of_In, in_map_iff. exists p. by rewrite <- list_elem_of_In.
Qed.

Lemma eqParams_recFuncParams (eq : Rec.Ty → Rec.Ty → Rec.R bool) ps1 : ∀ ps2,
  length ps1 = length ps2 →
  Forall (λ p2, ∀ ty1, eq (recFuncTy ty1) (recFuncTy p2.2) = Ok (RecFunc.typeEq ty1 p2.2)) ps2 →
  Rec.eqParams eq (recFuncParams ps1) (recFuncParams ps2)
  = Ok (all2 (λ p2 p1, RecFunc.typeEq p1.2 p2.2) ps2 ps1).
Proof.
  induction ps1 as [|p1 ps1 IH]; intros [|p2 ps2] Hlen Heq; simpl in *; try done.
  apply Forall_cons in Heq as [Hp Heq].
  rewrite Hp. simpl. destruct (RecFunc.typeEq p1.2 p2.2); [|done].
  apply IH; [lia | done].
Qed.

Lemma eqProps_recFuncParams (eq : Rec.Ty → Rec.Ty → Rec.R bool) props1 ps2 :
  Forall (λ p2, ∀ ty1, eq (recFuncTy ty1) (recFuncTy p2.2) = Ok (RecFunc.typeEq ty1 p2.2)) ps2 →
  Rec.eqProps eq (recFuncParams props1) (recFuncParams ps2)
  = Ok (forallb (λ prop2, match findProp prop2.1 props1 with
                          | None => false
                          | Some prop1 => RecFunc.typeEq prop1.2 prop2.2
                          end) ps2).
Proof.
  induction 1 as [|p2 ps2 Hp _ IH]; simpl; [done|].
  rewrite findProp_recFuncParams.
  destruct (findProp p2.1 props1) as [prop1|]; simpl; [|done].
  rewrite Hp. simpl. by destruct (RecFunc.typeEq prop1.2 p2.2).
Qed.

Lemma typeEq_recFuncTy ty2 : ∀ ty1 fuel,
  Rec.depth (recFuncTy ty2) < fuel →
  Rec.typeEq fuel (recFuncTy ty1) (recFuncTy ty2) = Ok (RecFunc.typeEq ty1 ty2).
Proof.
  unfold Rec.typeEq.
  induction ty2 as [| |params2 retType2 IHps IHr|props2 IHps] using RecFunc_Ty_ind;
    intros ty1 fuel Hfuel; (destruct fuel as [|fuel]; [lia|]);
    rewrite RecTheory.typeEqSub_S; cbn [Rec.haveTypesSeen bind];
    rewrite isRec_recFuncTy; cbn [recFuncTy Rec.isRec].
  - by destruct ty1.
  - by destruct ty1.
  - destruct ty1 as [| |params1 retType1|]; try done. cbn [recFuncTy].
    change (List.map _ params1) with (recFuncParams params1).
    change (List.map _ params2) with (recFuncParams params2).
    unfold recFuncParams at 1 2. rewrite !length_map. simpl RecFunc.typeEq.
    destruct (Nat.eqb_spec (length params1) (length params2)) as [Hlen|]; simpl; [|done].
    simpl in Hfuel.
    rewrite eqParams_recFuncParams; [| done |].
    + simpl. destruct (all2 _ params2 params1); [|done]. apply IHr. lia.
    + rewrite Forall_forall in IHps. apply Forall_forall. intros p2 Hp2 ty1.
      apply IHps; [done|]. pose proof (depth_recFuncParams params2 p2 Hp2) as Hd.
      unfold recFuncParams in Hd. lia.
  - destruct ty1 as [| | |props1]; try done. cbn [recFuncTy].
    change (List.map _ props1) with (recFuncParams props1).
    change (List.map _ props2) with (recFuncParams props2).
    unfold recFuncParams at 1 2. rewrite !length_map. simpl RecFunc.typeEq.
    destruct (Nat.eqb_spec (length props1) (length props2)) as [Hlen|]; simpl; [|done].
    simpl in Hfuel.
    apply eqProps_recFuncParams.
    rewrite Forall_forall in IHps. apply Forall_forall. intros p2 Hp2 ty1.
    apply IHps; [done|]. pose proof (depth_recFuncParams props2 p2 Hp2) as Hd.
    unfold recFuncParams in Hd. lia.
Qed.

Lemma RecFunc_Term_ind (P : RecFunc.Term → Prop) :
  P RecFunc.t_true → P RecFunc.t_false →
  (∀ cond thn els, P cond → P thn → P els → P (RecFunc.t_if cond thn els)) →
  (∀ n, P (RecFunc.t_number n)) →
  (∀ l r, P l → P r → P (RecFunc.t_add l r)) →
  (∀ name, P (RecFunc.t_var name)) →
  (∀ params body, P body → P (RecFunc.t_func params body)) →
  (∀ func args, P func → Forall P args → P (RecFunc.t_call func args)) →
  (∀ body rest, P body → P rest → P (RecFunc.t_seq body rest)) →
  (∀ name init rest, P init → P rest → P (RecFunc.t_const name init rest)) →
  (∀ props, Forall (λ p, P p.2) props → P (RecFunc.t_objectNew props)) →
  (∀ obj propName, P obj → P (RecFunc.t_objectGet obj propName)) →
  (∀ funcName params retType body rest,
     P body → P rest → P (RecFunc.t_recFunc funcName params retType body rest)) →
  ∀ t, P t.
Proof.
  intros Htrue Hfalse Hif Hnum Hadd Hvar Hfunc Hcall Hseq Hconst Hnew Hget Hrec.
  fix IH 1. intros [| |cond thn els|n|l r|name|params body|func args|body rest
                    |name init rest|props|obj propName
                    |funcName params retType body rest].
  - exact Htrue.
  - exact Hfalse.
  - apply Hif; apply IH.
  - apply Hnum.
  - apply Hadd; apply IH.
  - apply Hvar.
  - apply Hfunc, IH.
  - apply Hcall; [apply IH|].
    induction args as [|a args IHargs]; constructor; [apply IH | exact IHargs].
  - apply Hseq; apply IH.
  - apply Hconst; apply IH.
  - apply Hnew.
    induction props as [|[n a] props IHprops]; constructor; [apply IH | exact IHprops].
  - apply Hget, IH.
  - apply Hrec; apply IH.
Qed.

Lemma bindParams_recFuncParams params : ∀ tyEnv : gmap string RecFunc.Ty,
  bindParams (recFuncParams params) (recFuncTy <$> tyEnv)
  = recFuncTy <$> bindParams params tyEnv.
Proof.
  induction params as [|[n ty] params IH]; intros tyEnv; [done|].
  change (bindParams (recFuncParams ((n, ty) :: params)) (recFuncTy <$> tyEnv))
    with (bindParams (recFuncParams params) (<[n:=recFuncTy ty]> (recFuncTy <$> tyEnv))).
  rewrite <- fmap_insert. apply IH.
Qed.

Lemma checkArgs_agrees args :
  Forall agrees args →
  ∀ params (tyEnv : gmap string RecFunc.Ty), ∃ N, ∀ fuel, N ≤ fuel →
    Rec.checkArgs fuel (Rec.typecheck fuel) (List.map recFuncTerm args)
      (recFuncParams params) (recFuncTy <$> tyEnv)
    = mapRes recFuncTerm id (RecFunc.checkArgs RecFunc.typecheck args params tyEnv).
Proof.
  induction 1 as [|arg args Harg _ IH]; intros [|param params] tyEnv;
    try (exists 0; reflexivity).
  destruct (Harg tyEnv) as [N1 H1]. simpl.
  destruct (RecFunc.typecheck arg tyEnv) as [argTy| | | |] eqn:Hty;
    try (exists N1; intros fuel Hfuel; rewrite H1 by lia; reflexivity).
  destruct (RecFunc.typeEq param.2 argTy) eqn:Heq.
  - destruct (IH params tyEnv) as [N2 H2].
    exists (Nat.max (Nat.max N1 N2) (S (Rec.depth (recFuncTy argTy)))). intros fuel Hfuel.
    rewrite H1 by lia. simpl. rewrite typeEq_recFuncTy by lia. rewrite Heq. simpl.
    apply H2. lia.
  - exists (Nat.max N1 (S (Rec.depth (recFuncTy argTy)))). intros fuel Hfuel.
    rewrite H1 by lia. simpl. rewrite typeEq_recFuncTy by lia. rewrite Heq. done.
Qed.

Lemma checkProps_agrees props :
  Forall (λ p, agrees p.2) props →
  ∀ tyEnv : gmap string RecFunc.Ty, ∃ N, ∀ fuel, N ≤ fuel →
    Rec.checkProps (Rec.typecheck fuel) (List.map (λ p, (p.1, recFuncTerm p.2)) props)
      (recFuncTy <$> tyEnv)
    = mapRes recFuncTerm recFuncParams (RecFunc.checkProps RecFunc.typecheck props tyEnv).
Proof.
  induction 1 as [|prop props Hprop _ IH]; intros tyEnv; [exists 0; reflexivity|].
  destruct (Hprop tyEnv) as [N1 H1]. destruct (IH tyEnv) as [N2 H2]. simpl.
  exists (Nat.max N1 N2). intros fuel Hfuel.
  rewrite H1 by lia. destruct (RecFunc.typecheck prop.2 tyEnv); simpl; try done.
  rewrite H2 by lia. by destruct (RecFunc.checkProps _ props tyEnv).
Qed.

(** X12. The recursive-types checker extends the recursive-function
    checker: on a program and an environment with no recursive type, it
    returns the same type, or the same error at the same term, once the bound
    on the recursion is large enough. *)
Theorem rec_typecheck_extends_recFunc t (tyEnv : gmap string RecFunc.Ty) :
  ∃ N, ∀ fuel, N ≤ fuel →
    Rec.typecheck fuel (recFuncTerm t) (recFuncTy <$> tyEnv)
    = mapRes recFuncTerm recFuncTy (RecFunc.typecheck t tyEnv).
Proof.
  revert tyEnv. change (agrees t).
  induction t as [| |cond thn els IHcond IHthn IHels|n|l r IHl IHr|name
                  |params body IHbody|func args IHfunc IHargs
                  |body rest IHbody IHrest|name init rest IHinit IHrest
                  |props IHprops|obj propName IHobj
                  |funcName params retType body rest IHbody IHrest]
    using RecFunc_Term_ind; intros tyEnv; cbn [recFuncTerm].
  - by exists 0.
  - by exists 0.
  - destruct (IHcond tyEnv) as [N1 H1]. destruct (IHthn tyEnv) as [N2 H2].
    destruct (IHels tyEnv) as [N3 H3]. simpl.
    destruct (RecFunc.typecheck cond tyEnv) as [condTy| | | |] eqn:Hc;
      try (exists N1; intros fuel Hfuel; simpl; rewrite H1 by lia; reflexivity).
    destruct (RecFunc.typecheck thn tyEnv) as [thnTy| | | |] eqn:Ht;
      try (exists (Nat.max N1 N2); intros fuel Hfuel; simpl; rewrite H1 by lia; simpl;
           rewrite simplifyType_recFuncTy; destruct condTy; simpl; try done;
           rewrite H2 by lia; reflexivity).
    destruct (RecFunc.typecheck els tyEnv) as [elsTy| | | |] eqn:He;
      try (exists (Nat.max (Nat.max N1 N2) N3); intros fuel Hfuel; simpl; rewrite H1 by lia; simpl;
           rewrite simplifyType_recFuncTy; destruct condTy; simpl; try done;
           rewrite H2 by lia; simpl; rewrite H3 by lia; reflexivity).
    exists (Nat.max (Nat.max (Nat.max N1 N2) N3) (S (Rec.depth (recFuncTy elsTy)))).
    intros fuel Hfuel. simpl. rewrite H1 by lia. simpl.
    rewrite simplifyType_recFuncTy. destruct condTy; simpl; try done.
    rewrite H2 by lia. simpl. rewrite H3 by lia. simpl.
    rewrite typeEq_recFuncTy by lia. simpl.
    by destruct (RecFunc.typeEq thnTy elsTy).
  - by exists 0.
  - destruct (IHl tyEnv) as [N1 H1]. destruct (IHr tyEnv) as [N2 H2]. simpl.
    exists (Nat.max N1 N2). intros fuel Hfuel. simpl. rewrite H1 by lia.
    destruct (RecFunc.typecheck l tyEnv) as [leftTy| | | |]; simpl; try done.
    rewrite simplifyType_recFuncTy. destruct leftTy; simpl; try done.
    rewrite H2 by lia.
    destruct (RecFunc.typecheck r tyEnv) as [rightTy| | | |]; simpl; try done.
    rewrite simplifyType_recFuncTy. by destruct rightTy.
  - exists 0. intros fuel _. simpl. rewrite lookup_fmap. by destruct (tyEnv !! name).
  - destruct (IHbody (bindParams params tyEnv)) as [N1 H1].
    exists N1. intros fuel Hfuel. simpl.
    rewrite bindParams_recFuncParams, H1 by lia.
    by destruct (RecFunc.typecheck body _).
  - destruct (IHfunc tyEnv) as [N1 H1].
    destruct (RecFunc.typecheck func tyEnv) as [funcTy| | | |] eqn:Hf;
      try (exists N1; intros fuel Hfuel; cbn [Rec.typecheck RecFunc.typecheck];
           rewrite H1, Hf by lia; reflexivity).
    destruct funcTy as [| |params retType|];
      try (exists N1; intros fuel Hfuel; cbn [Rec.typecheck RecFunc.typecheck];
           rewrite H1, Hf by lia; cbn [mapRes bind recFuncTy];
           rewrite simplifyType_not_Rec_id by done; reflexivity).
    destruct (checkArgs_agrees args IHargs params tyEnv) as [N2 H2].
    exists (Nat.max N1 N2). intros fuel Hfuel. cbn [Rec.typecheck RecFunc.typecheck].
    rewrite H1, Hf by lia. cbn [mapRes bind recFuncTy].
    rewrite simplifyType_not_Rec_id by done. cbn [bind].
    rewrite !length_map.
    destruct (Nat.eqb_spec (length params) (length args)); cbn [negb]; [|done].
    change (List.map (λ p, (p.1, recFuncTy p.2)) params) with (recFuncParams params).
    rewrite H2 by lia.
    by destruct (RecFunc.checkArgs _ args params tyEnv).
  - destruct (IHbody tyEnv) as [N1 H1]. destruct (IHrest tyEnv) as [N2 H2].
    exists (Nat.max N1 N2). intros fuel Hfuel. simpl. rewrite H1 by lia.
    destruct (RecFunc.typecheck body tyEnv); simpl; try done. apply H2. lia.
  - destruct (IHinit tyEnv) as [N1 H1]. simpl.
    destruct (RecFunc.typecheck init tyEnv) as [ty| | | |] eqn:Hi;
      try (exists N1; intros fuel Hfuel; simpl; rewrite H1 by lia; reflexivity).
    destruct (IHrest (<[name:=ty]> tyEnv)) as [N2 H2].
    exists (Nat.max N1 N2). intros fuel Hfuel. simpl. rewrite H1 by lia. simpl.
    rewrite <- fmap_insert. apply H2. lia.
  - destruct (checkProps_agrees props IHprops tyEnv) as [N1 H1].
    exists N1. intros fuel Hfuel. simpl. rewrite H1 by lia.
    by destruct (RecFunc.checkProps _ props tyEnv).
  - destruct (IHobj tyEnv) as [N1 H1].
    exists N1. intros fuel Hfuel. simpl. rewrite H1 by lia.
    destruct (RecFunc.typecheck obj tyEnv) as [objectTy| | | |]; simpl; try done.
    rewrite simplifyType_recFuncTy. destruct objectTy as [| | |props]; simpl; try done.
    change (List.map _ props) with (recFuncParams props).
    rewrite findProp_recFuncParams. by destruct (findProp propName props).
  - destruct (IHbody (<[funcName:=RecFunc.Func params retType]> (bindParams params tyEnv)))
      as [N1 H1]. simpl.
    destruct (RecFunc.typecheck body _) as [bodyTy| | | |] eqn:Hb;
      try (exists N1; intros fuel Hfuel; simpl;
           rewrite bindParams_recFuncParams;
           change (Rec.Func (recFuncParams params) (recFuncTy retType))
             with (recFuncTy (RecFunc.Func params retType));
           rewrite <- fmap_insert, H1 by lia; reflexivity).
    destruct (IHrest (<[funcName:=RecFunc.Func params retType]> tyEnv)) as [N2 H2].
    exists (Nat.max (Nat.max N1 N2) (S (Rec.depth (recFuncTy bodyTy)))).
    intros fuel Hfuel. simpl.
    rewrite bindParams_recFuncParams.
    change (Rec.Func (recFuncParams params) (recFuncTy retType))
      with (recFuncTy (RecFunc.Func params retType)).
    rewrite <- !fmap_insert, H1 by lia. simpl.
    rewrite typeEq_recFuncTy by lia. simpl.
    destruct (RecFunc.typeEq retType bodyTy); simpl; [|done].
    apply H2. lia.
Qed.


(** never crash *)
Lemma recFunc_checkArgs_value_or_checked tc args params (tyEnv : gmap string RecFunc.Ty) :
  Forall (λ arg, value_or_checked (tc arg tyEnv)) args →
  length params = length args →
  value_or_checked (RecFunc.checkArgs tc args params tyEnv).
Proof.
  intros Hargs. revert params.
  induction Hargs as [|arg args Harg _ IH]; intros [|param params] Hlen;
    simpl in *; try done.
  destruct (tc arg tyEnv); simpl; try done.
  destruct (RecFunc.typeEq _ _); [apply IH; lia | done].
Qed.

Lemma recFunc_checkProps_value_or_checked tc props (tyEnv : gmap string RecFunc.Ty) :
  Forall (λ p, value_or_checked (tc p.2 tyEnv)) props →
  value_or_checked (RecFunc.checkProps tc props tyEnv).
Proof.
  induction 1 as [|prop props Hprop _ IH]; simpl; [done|].
  destruct (tc prop.2 tyEnv); simpl; try done.
  by destruct (RecFunc.checkProps tc props tyEnv).
Qed.

Lemma recFunc_typecheck_value_or_checked t :
  ∀ tyEnv, value_or_checked (RecFunc.typecheck t tyEnv).
Proof.
  induction t as [| |cond thn els IHcond IHthn IHels|n|l r IHl IHr|name
                  |params body IHbody|func args IHfunc IHargs
                  |body rest IHbody IHrest|name init rest IHinit IHrest
                  |props IHprops|obj propName IHobj
                  |funcName params retType body rest IHbody IHrest]
    using RecFunc_Term_ind; intros tyEnv; simpl.
  - done.
  - done.
  - specialize (IHcond tyEnv).
    destruct (RecFunc.typecheck cond tyEnv) as [[]| | | |]; simpl; try done.
    specialize (IHthn tyEnv). destruct (RecFunc.typecheck thn tyEnv); simpl; try done.
    specialize (IHels tyEnv). destruct (RecFunc.typecheck els tyEnv); simpl; try done.
    by destruct (RecFunc.typeEq _ _).
  - done.
  - specialize (IHl tyEnv).
    destruct (RecFunc.typecheck l tyEnv) as [[]| | | |]; simpl; try done.
    specialize (IHr tyEnv). by destruct (RecFunc.typecheck r tyEnv) as [[]| | | |].
  - by destruct (tyEnv !! name).
  - specialize (IHbody (bindParams params tyEnv)).
    by destruct (RecFunc.typecheck body _).
  - specialize (IHfunc tyEnv).
    destruct (RecFunc.typecheck func tyEnv) as [[| |params retType|]| | | |];
      simpl; try done.
    destruct (Nat.eqb_spec (length params) (length args)) as [Hlen|]; simpl; [|done].
    pose proof (recFunc_checkArgs_value_or_checked RecFunc.typecheck args params tyEnv)
      as Hargs.
    destruct (RecFunc.checkArgs RecFunc.typecheck args params tyEnv); simpl; try done;
      apply Hargs; try done;
      (eapply Forall_impl; [exact IHargs|]; intros a Ha; apply Ha).
  - specialize (IHbody tyEnv).
    destruct (RecFunc.typecheck body tyEnv); simpl; first [done | apply IHrest].
  - specialize (IHinit tyEnv).
    destruct (RecFunc.typecheck init tyEnv); simpl; first [done | apply IHrest].
  - pose proof (recFunc_checkProps_value_or_checked RecFunc.typecheck props tyEnv)
      as Hprops.
    destruct (RecFunc.checkProps RecFunc.typecheck props tyEnv); simpl; try done;
      apply Hprops; (eapply Forall_impl; [exact IHprops|]; intros a Ha; apply Ha).
  - specialize (IHobj tyEnv).
    destruct (RecFunc.typecheck obj tyEnv) as [[| | |props]| | | |]; simpl; try done.
    by destruct (findProp propName props).
  - specialize (IHbody (<[funcName:=RecFunc.Func params retType]>
                          (bindParams params tyEnv))).
    destruct (RecFunc.typecheck body _); simpl; try done.
    destruct (RecFunc.typeEq retType _); simpl; first [done | apply IHrest].
Qed.

Lemma Basic_Ty_ind (P : Basic.Ty → Prop) :
  P Basic.Boolean → P Basic.Number →
  (∀ params retType,
     Forall (λ p, P p.2) params → P retType → P (Basic.Func params retType)) →
  ∀ ty, P ty.
Proof.
  intros HB HN HF.
  fix IH 1. intros [| |params retType].
  - exact HB.
  - exact HN.
  - apply HF; [|apply IH].
    induction params as [|[n ty] ps IHps]; constructor; [apply IH | exact IHps].
Qed.

Lemma Basic_Term_ind (P : Basic.Term → Prop) :
  P Basic.t_true → P Basic.t_false →
  (∀ cond thn els, P cond → P thn → P els → P (Basic.t_if cond thn els)) →
  (∀ n, P (Basic.t_number n)) →
  (∀ l r, P l → P r → P (Basic.t_add l r)) →
  (∀ name, P (Basic.t_var name)) →
  (∀ params body, P body → P (Basic.t_func params body)) →
  (∀ func args, P func → Forall P args → P (Basic.t_call func args)) →
  (∀ body rest, P body → P rest → P (Basic.t_seq body rest)) →
  (∀ name init rest, P init → P rest → P (Basic.t_const name init rest)) →
  ∀ t, P t.
Proof.
  intros Htrue Hfalse Hif Hnum Hadd Hvar Hfunc Hcall Hseq Hconst.
  fix IH 1. intros [| |cond thn els|n|l r|name|params body|func args|body rest
                    |name init rest].
  - exact Htrue.
  - exact Hfalse.
  - apply Hif; apply IH.
  - apply Hnum.
  - apply Hadd; apply IH.
  - apply Hvar.
  - apply Hfunc, IH.
  - apply Hcall; [apply IH|].
    induction args as [|a args IHargs]; constructor; [apply IH | exact IHargs].
  - apply Hseq; apply IH.
  - apply Hconst; apply IH.
Qed.

Lemma all2_basicParams (ps2 : list (string * Basic.Ty)) : ∀ ps1,
  Forall (λ p2, ∀ ty1, RecFunc.typeEq (basicTy ty1) (basicTy p2.2) = Basic.typeEq ty1 p2.2) ps2 →
  all2 (λ p2 p1, RecFunc.typeEq p1.2 p2.2) (basicParams ps2) (basicParams ps1)
  = all2 (λ p2 p1, Basic.typeEq p1.2 p2.2) ps2 ps1.
Proof.
  induction ps2 as [|p2 ps2 IH]; intros [|p1 ps1] Heq; simpl; try done.
  apply Forall_cons in Heq as [Hp Heq]. rewrite Hp. by rewrite IH.
Qed.

Lemma typeEq_basicTy ty2 : ∀ ty1,
  RecFunc.typeEq (basicTy ty1) (basicTy ty2) = Basic.typeEq ty1 ty2.
Proof.
  induction ty2 as [| |params2 retType2 IHps IHr] using Basic_Ty_ind; intros ty1.
  - by destruct ty1.
  - by destruct ty1.
  - destruct ty1 as [| |params1 retType1]; try done. simpl.
    rewrite !length_map.
    destruct (negb _); [done|].
    change (List.map _ params1) with (basicParams params1).
    change (List.map _ params2) with (basicParams params2).
    rewrite all2_basicParams by done. by rewrite IHr.
Qed.

Lemma bindParams_basicParams params : ∀ tyEnv : gmap string Basic.Ty,
  bindParams (basicParams params) (basicTy <$> tyEnv)
  = basicTy <$> bindParams params tyEnv.
Proof.
  induction params as [|[n ty] params IH]; intros tyEnv; [done|].
  change (bindParams (basicParams ((n, ty) :: params)) (basicTy <$> tyEnv))
    with (bindParams (basicParams params) (<[n:=basicTy ty]> (basicTy <$> tyEnv))).
  rewrite <- fmap_insert. apply IH.
Qed.

Lemma checkArgs_basic args :
  Forall (λ arg, ∀ tyEnv : gmap string Basic.Ty,
            RecFunc.typecheck (basicTerm arg) (basicTy <$> tyEnv)
            = mapRes basicTerm basicTy (Basic.typecheck arg tyEnv)) args →
  ∀ params (tyEnv : gmap string Basic.Ty),
    RecFunc.checkArgs RecFunc.typecheck (List.map basicTerm args) (basicParams params)
      (basicTy <$> tyEnv)
    = mapRes basicTerm id (Basic.checkArgs Basic.typecheck args params tyEnv).
Proof.
  induction 1 as [|arg args Harg _ IH]; intros [|param params] tyEnv; try done.
  simpl. rewrite Harg.
  destruct (Basic.typecheck arg tyEnv) as [argTy| | | |]; simpl; try done.
  rewrite typeEq_basicTy. destruct (Basic.typeEq param.2 argTy); [apply IH | done].
Qed.

Lemma typecheck_basic t : ∀ tyEnv : gmap string Basic.Ty,
  RecFunc.typecheck (basicTerm t) (basicTy <$> tyEnv)
  = mapRes basicTerm basicTy (Basic.typecheck t tyEnv).
Proof.
  induction t as [| |cond thn els IHcond IHthn IHels|n|l r IHl IHr|name
                  |params body IHbody|func args IHfunc IHargs
                  |body rest IHbody IHrest|name init rest IHinit IHrest]
    using Basic_Term_ind; intros tyEnv; cbn [basicTerm RecFunc.typecheck Basic.typecheck].
  - done.
  - done.
  - rewrite IHcond. destruct (Basic.typecheck cond tyEnv) as [[]| | | |]; simpl; try done.
    rewrite IHthn. destruct (Basic.typecheck thn tyEnv) as [thnTy| | | |]; simpl; try done.
    rewrite IHels. destruct (Basic.typecheck els tyEnv) as [elsTy| | | |]; simpl; try done.
    rewrite typeEq_basicTy. by destruct (Basic.typeEq thnTy elsTy).
  - done.
  - rewrite IHl. destruct (Basic.typecheck l tyEnv) as [[]| | | |]; simpl; try done.
    rewrite IHr. by destruct (Basic.typecheck r tyEnv) as [[]| | | |].
  - rewrite lookup_fmap. by destruct (tyEnv !! name).
  - rewrite bindParams_basicParams, IHbody. by destruct (Basic.typecheck body _).
  - rewrite IHfunc.
    destruct (Basic.typecheck func tyEnv) as [[| |params retType]| | | |]; simpl; try done.
    rewrite !length_map.
    destruct (negb _); [done|].
    change (List.map _ params) with (basicParams params).
    rewrite checkArgs_basic by done.
    by destruct (Basic.checkArgs _ args params tyEnv).
  - rewrite IHbody. destruct (Basic.typecheck body tyEnv); simpl; first [done | apply IHrest].
  - rewrite IHinit. destruct (Basic.typecheck init tyEnv) as [ty| | | |]; simpl; try done.
    rewrite <- fmap_insert. apply IHrest.
Qed.

(** arith vs basic *)
Lemma typeEq_arithTy ty1 ty2 :
  Basic.typeEq (arithTy ty1) (arithTy ty2) = Arith.sameTag ty1 ty2.
Proof. by destruct ty1, ty2. Qed.

(** X14. The basic checker extends the arithmetic checker: on an arithmetic
    term it returns the same type, and where the arithmetic checker throws a
    message it reports an error with that message; the arithmetic checker
    fails in no other way. *)
Theorem basic_extends_arith t (tyEnv : gmap string Basic.Ty) :
  match Arith.typecheck t with
  | Ok ty => Basic.typecheck (arithTerm t) tyEnv = Ok (arithTy ty)
  | Throw msg => ∃ t', Basic.typecheck (arithTerm t) tyEnv = Error msg t'
  | _ => False
  end.
Proof.
  induction t as [| |cond IHcond thn IHthn els IHels|n|l IHl r IHr]; simpl; try done.
  - destruct (Arith.typecheck cond) as [[]| |msg| |]; simpl; try done.
    + rewrite IHcond. simpl.
      destruct (Arith.typecheck thn) as [thnTy| |msg| |]; simpl; try done.
      * rewrite IHthn. simpl.
        destruct (Arith.typecheck els) as [elsTy| |msg| |]; simpl; try done.
        -- rewrite IHels. simpl. rewrite typeEq_arithTy.
           destruct (Arith.sameTag thnTy elsTy); simpl; eauto.
        -- destruct IHels as [t' ->]. simpl. eauto.
      * destruct IHthn as [t' ->]. simpl. eauto.
    + rewrite IHcond. simpl. eauto.
    + destruct IHcond as [t' ->]. simpl. eauto.
  - destruct (Arith.typecheck l) as [[]| |msg| |]; simpl; try done.
    + rewrite IHl. simpl. eauto.
    + rewrite IHl. simpl.
      destruct (Arith.typecheck r) as [[]| |msg| |]; simpl; try done.
      * rewrite IHr. simpl. eauto.
      * by rewrite IHr.
      * destruct IHr as [t' ->]. simpl. eauto.
    + destruct IHl as [t' ->]. simpl. eauto.
Qed.

(** basic.ts *)
Lemma basicTs_ofArith t :
  BasicTs.typecheck (BasicTs.ofArith t) = mapRes BasicTs.ofArith Some (Arith.typecheck t).
Proof.
  induction t as [| |cond IHcond thn IHthn els IHels|n|l IHl r IHr]; simpl; try done.
  - rewrite IHcond. destruct (Arith.typecheck cond) as [[]| | | |]; simpl; try done.
    rewrite IHthn. destruct (Arith.typecheck thn) as [thnTy| | | |]; simpl; try done.
    rewrite IHels. destruct (Arith.typecheck els) as [elsTy| | | |]; simpl; try done.
    by destruct (Arith.sameTag thnTy elsTy).
  - rewrite IHl. destruct (Arith.typecheck l) as [[]| | | |]; simpl; try done.
    rewrite IHr. by destruct (Arith.typecheck r) as [[]| | | |].
Qed.

Lemma arithmetic_ofArith t : BasicTs.arithmetic t = true → ∃ t0, t = BasicTs.ofArith t0.
Proof.
  induction t as [| |cond IHcond thn IHthn els IHels|n|l IHl r IHr| | | | |]; simpl; try done.
  - by exists Arith.t_true.
  - by exists Arith.t_false.
  - intros [[Hc Ht]%andb_true_iff He]%andb_true_iff.
    destruct (IHcond Hc) as [c ->], (IHthn Ht) as [t ->], (IHels He) as [e ->].
    by exists (Arith.t_if c t e).
  - by exists (Arith.t_number n).
  - intros [Hl Hr]%andb_true_iff.
    destruct (IHl Hl) as [l0 ->], (IHr Hr) as [r0 ->]. by exists (Arith.t_add l0 r0).
Qed.

Lemma basicTs_type_arithmetic t ty :
  BasicTs.typecheck t = Ok (Some ty) → BasicTs.arithmetic t = true.
Proof.
  revert ty.
  induction t as [| |cond IHcond thn IHthn els IHels|n|l IHl r IHr| | | | |];
    intros ty; simpl; try done.
  - destruct (BasicTs.typecheck cond) as [[[]|]| | | |]; simpl; try done.
    rewrite (IHcond Arith.Boolean) by done. simpl.
    destruct (BasicTs.typecheck thn) as [[thnTy|]| | | |]; simpl; try done;
      destruct (BasicTs.typecheck els) as [[elsTy|]| | | |]; simpl; try done.
    rewrite (IHthn thnTy), (IHels elsTy) by done. done.
  - destruct (BasicTs.typecheck l) as [[[]|]| | | |]; simpl; try done.
    rewrite (IHl Arith.Number) by done. simpl.
    destruct (BasicTs.typecheck r) as [[[]|]| | | |]; simpl; try done.
    by rewrite (IHr Arith.Number).
Qed.

Lemma value_or_checked_mapRes {T T' A B} (g : T → T') (f : A → B) (r : Res T A) :
  value_or_checked (mapRes g f r) ↔ value_or_checked r.
Proof. by destruct r. Qed.

(** X11. On types with no recursive type inside, [typeEq] of the
    recursive-types variant gives the answer of [typeEq] of the
    recursive-function variant, as soon as the bound on the recursion exceeds
    the depth of the second type. *)
Theorem rec_typeEq_extends_recFunc ty1 ty2 fuel :
  Rec.depth (recFuncTy ty2) < fuel →
  Rec.typeEq fuel (recFuncTy ty1) (recFuncTy ty2) = Ok (RecFunc.typeEq ty1 ty2).
Proof. apply typeEq_recFuncTy. Qed.

Lemma rec_typeEq_extends_recFunc_witness :
  Rec.typeEq 3 (recFuncTy (RecFunc.Func [("x", RecFunc.Number)] RecFunc.Boolean))
    (recFuncTy (RecFunc.Func [("y", RecFunc.Number)] RecFunc.Boolean))
  = Ok (RecFunc.typeEq (RecFunc.Func [("x", RecFunc.Number)] RecFunc.Boolean)
          (RecFunc.Func [("y", RecFunc.Number)] RecFunc.Boolean)).
Proof.
  apply (rec_typeEq_extends_recFunc
           (RecFunc.Func [("x", RecFunc.Number)] RecFunc.Boolean)
           (RecFunc.Func [("y", RecFunc.Number)] RecFunc.Boolean) 3).
  cbn. lia.
Defined.

Lemma rec_typecheck_extends_recFunc_witness :
  ∃ N, ∀ fuel, N ≤ fuel →
    Rec.typecheck fuel (recFuncTerm RecFunc.prog_wrong_return) (recFuncTy <$> ∅)
    = mapRes recFuncTerm recFuncTy (RecFunc.typecheck RecFunc.prog_wrong_return ∅).
Proof. apply (rec_typecheck_extends_recFunc RecFunc.prog_wrong_return ∅). Defined.

(** X13. The recursive-function checker extends the basic checker: on a
    program of the basic language it returns the same type, or the same error
    at the same term, and its [typeEq] gives the same answer on the types of
    the basic language. *)
Theorem recFunc_extends_basic t ty1 ty2 (tyEnv : gmap string Basic.Ty) :
  RecFunc.typeEq (basicTy ty1) (basicTy ty2) = Basic.typeEq ty1 ty2 ∧
  RecFunc.typecheck (basicTerm t) (basicTy <$> tyEnv)
  = mapRes basicTerm basicTy (Basic.typecheck t tyEnv).
Proof. split; [apply typeEq_basicTy | apply typecheck_basic]. Qed.

(** X15. [typecheck] of basic.ts handles the five arithmetic constructors
    only: on an arithmetic term it behaves as the arithmetic checker, and a
    term on which it returns a type is an arithmetic term that the arithmetic
    checker gives this type. *)
Theorem basicTs_typecheck_arithmetic_only :
  (∀ t, BasicTs.typecheck (BasicTs.ofArith t)
        = mapRes BasicTs.ofArith Some (Arith.typecheck t)) ∧
  (∀ t ty, BasicTs.typecheck t = Ok (Some ty) →
           ∃ t0, t = BasicTs.ofArith t0 ∧ Arith.typecheck t0 = Ok ty).
Proof.
  split; [apply basicTs_ofArith|].
  intros t ty Ht.
  destruct (arithmetic_ofArith t (basicTs_type_arithmetic t ty Ht)) as [t0 ->].
  exists t0. split; [done|].
  rewrite basicTs_ofArith in Ht.
  destruct (Arith.typecheck t0); simpl in Ht; congruence.
Qed.

Lemma basicTs_typecheck_arithmetic_only_witness :
  ∃ t0, BasicTs.t_if BasicTs.t_true (BasicTs.t_number 1) (BasicTs.t_number 2)
        = BasicTs.ofArith t0 ∧
        Arith.typecheck t0 = Ok Arith.Number.
Proof.
  destruct basicTs_typecheck_arithmetic_only as [_ Honly].
  apply (Honly (BasicTs.t_if BasicTs.t_true (BasicTs.t_number 1) (BasicTs.t_number 2))
           Arith.Number).
  reflexivity.
Defined.

(** X16. The basic, recursive-function and subtyping checkers end in a type
    or in a reported error on every environment and every term none of whose
    names is inherited from [Object.prototype]: they never read a field of a
    missing value and never throw anything else. *)
Theorem typecheck_type_or_reported_error :
  (∀ t tyEnv, RecFunc.ownNames (basicTerm t) = true →
              value_or_checked (Basic.typecheck t tyEnv)) ∧
  (∀ t tyEnv, RecFunc.ownNames t = true →
              value_or_checked (RecFunc.typecheck t tyEnv)) ∧
  (∀ t tyEnv, RecFunc.ownNames (subTerm t) = true →
              value_or_checked (Sub.typecheck t tyEnv)).
Proof.
  split; [|split].
  - intros t tyEnv _.
    apply (value_or_checked_mapRes basicTerm basicTy).
    rewrite <- typecheck_basic. apply recFunc_typecheck_value_or_checked.
  - intros t tyEnv _. apply recFunc_typecheck_value_or_checked.
  - intros t tyEnv _. apply SubTheory.typecheck_value_or_checked.
Qed.

Lemma typecheck_type_or_reported_error_witness :
  value_or_checked (Basic.typecheck Basic.prog_select ∅) ∧
  value_or_checked (RecFunc.typecheck RecFunc.prog_wrong_return ∅) ∧
  value_or_checked (Sub.typecheck Sub.prog2 ∅).
Proof.
  destruct typecheck_type_or_reported_error as (Hbasic & HrecFunc & Hsub).
  split; [|split].
  - apply (Hbasic Basic.prog_select ∅). reflexivity.
  - apply (HrecFunc RecFunc.prog_wrong_return ∅). reflexivity.
  - apply (Hsub Sub.prog2 ∅). reflexivity.
Defined.

End ChapterTheory.

(** ** The subtyping checker and the recursive-function checker *)

Module SubChapter.
Import Sub SubTheory SubEquality Embed.

Lemma bindParams_unique params : ∀ tyEnv : gmap string Ty,
  forallb (λ p, uniqueFields p.2) params = true →
  map_Forall (λ _ ty, uniqueFields ty = true) tyEnv →
  map_Forall (λ _ ty, uniqueFields ty = true) (bindParams params tyEnv).
Proof.
  induction params as [|[n ty] params IH]; intros tyEnv Hps Henv; [done|].
  simpl in Hps. apply andb_true_iff in Hps as [Hty Hps].
  change (bindParams ((n, ty) :: params) tyEnv)
    with (bindParams params (<[n:=ty]> tyEnv)).
  apply IH; [done|]. by apply map_Forall_insert_2.
Qed.

Lemma sub_checkProps_Ok tc props (tyEnv : gmap string Ty) tys :
  checkProps tc props tyEnv = Ok tys ↔
  Forall2 (λ p q, q.1 = p.1 ∧ tc p.2 tyEnv = Ok q.2) props tys.
Proof.
  revert tys. induction props as [|prop props IH]; intros tys; simpl.
  - split; [intros [= <-]; constructor | by inversion 1].
  - split.
    + destruct (tc prop.2 tyEnv) as [ty| | | |] eqn:Hty; simpl; try done.
      destruct (checkProps tc props tyEnv) as [tys'| | | |] eqn:Hps; simpl; try done.
      intros [= <-]. constructor; [done | by apply IH].
    + inversion 1 as [|? q ? tys' [Hn Hty] Hrest]; subst.
      apply IH in Hrest. rewrite Hty. simpl. rewrite Hrest. simpl.
      destruct q as [n ty]. simpl in *. by subst.
Qed.

Lemma typecheck_unique t : ∀ (tyEnv : gmap string Ty) ty,
  uniqueTerm t = true →
  map_Forall (λ _ ty, uniqueFields ty = true) tyEnv →
  typecheck t tyEnv = Ok ty → uniqueFields ty = true.
Proof.
  induction t as [| |n|l r IHl IHr|name|params body IHbody|func args IHfunc IHargs
                  |body rest IHbody IHrest|name init rest IHinit IHrest
                  |props IHprops|obj propName IHobj
                  |funcName params retType body rest IHbody IHrest]
    using Sub_Term_ind; intros tyEnv ty Hu Henv; cbn [typecheck uniqueTerm] in *.
  - by intros [= <-].
  - by intros [= <-].
  - by intros [= <-].
  - destruct (typecheck l tyEnv) as [[]| | | |]; simpl; try done.
    destruct (typecheck r tyEnv) as [[]| | | |]; simpl; try done.
    by intros [= <-].
  - destruct (tyEnv !! name) as [ty'|] eqn:Hlook; [|done].
    intros [= <-]. by apply (Henv name).
  - apply andb_true_iff in Hu as [Hps Hbody].
    destruct (typecheck body _) as [retType| | | |] eqn:Hb; simpl; try done.
    intros [= <-]. simpl. rewrite Hps. simpl.
    eapply IHbody; [done | | done]. by apply bindParams_unique.
  - apply andb_true_iff in Hu as [Hfunc Hargs].
    destruct (typecheck func tyEnv) as [[| |params retType|]| | | |] eqn:Hf; simpl; try done.
    destruct (negb _); [done|].
    destruct (checkArgs _ args params tyEnv); simpl; try done.
    intros [= <-].
    apply (IHfunc tyEnv _ Hfunc Henv) in Hf.
    by apply uniqueFields_Func in Hf as [_ Hr].
  - apply andb_true_iff in Hu as [Hbody Hrest].
    destruct (typecheck body tyEnv); simpl; try done. by apply IHrest.
  - apply andb_true_iff in Hu as [Hinit Hrest].
    destruct (typecheck init tyEnv) as [ty'| | | |] eqn:Hi; simpl; try done.
    apply IHrest; [done|]. apply map_Forall_insert_2; [|done]. by eapply IHinit.
  - apply andb_true_iff in Hu as [Hnd Hprops]. apply bool_decide_eq_true in Hnd.
    destruct (checkProps _ props tyEnv) as [tys| | | |] eqn:Hps; simpl; try done.
    intros [= <-]. apply sub_checkProps_Ok in Hps.
    apply uniqueFields_Object. split.
    + replace (tys.*1) with (props.*1); [done|].
      clear -Hps. induction Hps as [|p q props tys [Hn _] _ IH]; [done|].
      rewrite !fmap_cons. by rewrite Hn, IH.
    + rewrite forallb_forall in Hprops. rewrite Forall_forall in IHprops.
      intros q Hq.
      apply list_elem_of_lookup_1 in Hq as [i Hq].
      destruct (Forall2_lookup_r _ _ _ _ _ Hps Hq) as (p & Hp & _ & Hty).
      apply list_elem_of_lookup_2 in Hp.
      eapply IHprops; [done | by apply Hprops, list_elem_of_In | done | done].
  - destruct (typecheck obj tyEnv) as [[| | |props]| | | |] eqn:Ho; simpl; try done.
    destruct (findProp propName props) as [prop|] eqn:Hfind; [|done].
    intros [= <-].
    apply (IHobj tyEnv _ Hu Henv) in Ho.
    apply uniqueFields_Object in Ho as [_ Hall].
    apply Hall. by apply find_name_Some in Hfind as [? _].
  - apply andb_true_iff in Hu as [Hu Hrest].
    apply andb_true_iff in Hu as [Hu Hbody].
    apply andb_true_iff in Hu as [Hps Hret].
    destruct (typecheck body _); simpl; try done.
    destruct (negb _); [done|].
    apply IHrest; [done|]. apply map_Forall_insert_2; [|done].
    simpl. by rewrite Hps, Hret.
Qed.


Lemma bind_agree {T T' A A' B B'} (g : T → T') (f : A → A') (f' : B → B') (M : string)
    (r : Res T' A') (s : Res T A) (k : A' → Res T' B') (k' : A → Res T B) :
  (message r ≠ Some M → r = mapRes g f s) →
  (∀ a, s = Ok a → message (k (f a)) ≠ Some M → k (f a) = mapRes g f' (k' a)) →
  message (bind r k) ≠ Some M → bind r k = mapRes g f' (bind s k').
Proof.
  intros Hr Hk Hm.
  assert (message r ≠ Some M) as Hr' by (by destruct r).
  specialize (Hr Hr'). subst r. destruct s as [a| | | |]; simpl in *; try done.
  by apply Hk.
Qed.

Lemma all2_subParams (ps2 : list (string * Ty)) : ∀ ps1,
  Forall (λ p2, ∀ ty1, RecFunc.typeEq (subTy ty1) (subTy p2.2) = typeEq ty1 p2.2) ps2 →
  all2 (λ p2 p1, RecFunc.typeEq p1.2 p2.2) (subParams ps2) (subParams ps1)
  = all2 (λ p2 p1, typeEq p1.2 p2.2) ps2 ps1.
Proof.
  induction ps2 as [|p2 ps2 IH]; intros [|p1 ps1] Heq; simpl; try done.
  apply Forall_cons in Heq as [Hp Heq]. rewrite Hp. by rewrite IH.
Qed.

Lemma findProp_subParams name props :
  findProp name (subParams props) = (λ p, (p.1, subTy p.2)) <$> findProp name props.
Proof.
  unfold findProp, subParams.
  induction props as [|[n ty] props IH]; simpl; [done|].
  by destruct (bool_decide (n = name)).
Qed.

Lemma typeEq_subTy ty2 : ∀ ty1,
  RecFunc.typeEq (subTy ty1) (subTy ty2) = typeEq ty1 ty2.
Proof.
  induction ty2 as [| |params2 retType2 IHps IHr|props2 IHps] using Sub_Ty_ind; intros ty1.
  - by destruct ty1.
  - by destruct ty1.
  - destruct ty1 as [| |params1 retType1|]; try done. simpl.
    rewrite !length_map.
    destruct (negb _); [done|].
    change (List.map _ params1) with (subParams params1).
    change (List.map _ params2) with (subParams params2).
    rewrite all2_subParams by done. by rewrite IHr.
  - destruct ty1 as [| | |props1]; try done. simpl.
    rewrite !length_map.
    destruct (negb _); [done|].
    change (List.map _ props1) with (subParams props1).
    induction IHps as [|p2 props2 Hp2 _ IH]; [done|].
    simpl. rewrite findProp_subParams.
    destruct (findProp p2.1 props1) as [p1|]; simpl; [|done].
    by rewrite Hp2, IH.
Qed.

Lemma bindParams_subParams params : ∀ tyEnv : gmap string Ty,
  bindParams (subParams params) (subTy <$> tyEnv) = subTy <$> bindParams params tyEnv.
Proof.
  induction params as [|[n ty] params IH]; intros tyEnv; [done|].
  change (bindParams (subParams ((n, ty) :: params)) (subTy <$> tyEnv))
    with (bindParams (subParams params) (<[n:=subTy ty]> (subTy <$> tyEnv))).
  rewrite <- fmap_insert. apply IH.
Qed.

Lemma checkArgs_sub args :
  Forall (λ arg, ∀ tyEnv : gmap string Ty,
            uniqueTerm arg = true →
            map_Forall (λ _ ty, uniqueFields ty = true) tyEnv →
            message (RecFunc.typecheck (subTerm arg) (subTy <$> tyEnv))
            ≠ Some ArgumentTypeMismatch →
            RecFunc.typecheck (subTerm arg) (subTy <$> tyEnv)
            = mapRes subTerm subTy (typecheck arg tyEnv)) args →
  ∀ params (tyEnv : gmap string Ty),
    forallb uniqueTerm args = true →
    map_Forall (λ _ ty, uniqueFields ty = true) tyEnv →
    (∀ p, p ∈ params → uniqueFields p.2 = true) →
    message (RecFunc.checkArgs RecFunc.typecheck (List.map subTerm args)
               (subParams params) (subTy <$> tyEnv)) ≠ Some ArgumentTypeMismatch →
    RecFunc.checkArgs RecFunc.typecheck (List.map subTerm args) (subParams params)
      (subTy <$> tyEnv)
    = mapRes subTerm id (checkArgs typecheck args params tyEnv).
Proof.
  induction 1 as [|arg args Harg _ IH]; intros [|param params] tyEnv Hu Henv Hps;
    try done.
  simpl in Hu. apply andb_true_iff in Hu as [Huarg Huargs].
  cbn [List.map subParams RecFunc.checkArgs checkArgs].
  apply (bind_agree subTerm subTy id); [by apply Harg|].
  intros argTy HargTy. cbn [fst snd]. rewrite typeEq_subTy.
  assert (uniqueFields argTy = true) as Hua by by apply (typecheck_unique arg tyEnv).
  assert (uniqueFields param.2 = true) as Hup by (apply Hps; left).
  destruct (typeEq param.2 argTy) eqn:Heq.
  - apply typeEq_mutual_subType in Heq as [_ Hsub]; [|done..].
    rewrite Hsub. apply IH; [done | done|]. intros p Hp. apply Hps. by right.
  - by intros Hm.
Qed.

Lemma checkProps_sub props :
  Forall (λ p, ∀ tyEnv : gmap string Ty,
            uniqueTerm p.2 = true →
            map_Forall (λ _ ty, uniqueFields ty = true) tyEnv →
            message (RecFunc.typecheck (subTerm p.2) (subTy <$> tyEnv))
            ≠ Some ArgumentTypeMismatch →
            RecFunc.typecheck (subTerm p.2) (subTy <$> tyEnv)
            = mapRes subTerm subTy (typecheck p.2 tyEnv)) props →
  ∀ tyEnv : gmap string Ty,
    forallb (λ p, uniqueTerm p.2) props = true →
    map_Forall (λ _ ty, uniqueFields ty = true) tyEnv →
    message (RecFunc.checkProps RecFunc.typecheck
               (List.map (λ p, (p.1, subTerm p.2)) props) (subTy <$> tyEnv))
    ≠ Some ArgumentTypeMismatch →
    RecFunc.checkProps RecFunc.typecheck (List.map (λ p, (p.1, subTerm p.2)) props)
      (subTy <$> tyEnv)
    = mapRes subTerm subParams (checkProps typecheck props tyEnv).
Proof.
  induction 1 as [|prop props Hprop _ IH]; intros tyEnv Hu Henv; [done|].
  simpl in Hu. apply andb_true_iff in Hu as [Huprop Huprops].
  cbn [List.map RecFunc.checkProps checkProps fst snd].
  apply (bind_agree subTerm subTy subParams); [by apply Hprop|].
  intros ty Hty.
  apply (bind_agree subTerm subParams subParams); [by apply IH|].
  done.
Qed.

(** X24. The subtyping checker differs from the recursive-function checker
    at rejected arguments only.  On a term of the subtyping variant in which
    no object type and no object literal repeats a field name, and no name
    is inherited from [Object.prototype], whenever the recursive-function
    checker ends in anything but [parameter type mismatch] the subtyping
    checker ends in the same way: the same type, or the same error at the
    same term. *)
Theorem sub_typecheck_extends_recFunc t (tyEnv : gmap string Ty) :
  RecFunc.ownNames (subTerm t) = true →
  uniqueTerm t = true →
  map_Forall (λ _ ty, uniqueFields ty = true) tyEnv →
  message (RecFunc.typecheck (subTerm t) (subTy <$> tyEnv)) ≠ Some ArgumentTypeMismatch →
  RecFunc.typecheck (subTerm t) (subTy <$> tyEnv)
  = mapRes subTerm subTy (typecheck t tyEnv).
Proof.
  intros _. revert tyEnv.
  induction t as [| |n|l r IHl IHr|name|params body IHbody|func args IHfunc IHargs
                  |body rest IHbody IHrest|name init rest IHinit IHrest
                  |props IHprops|obj propName IHobj
                  |funcName params retType body rest IHbody IHrest]
    using Sub_Term_ind; intros tyEnv Hu Henv;
    cbn [subTerm RecFunc.typecheck typecheck uniqueTerm] in *.
  - done.
  - done.
  - done.
  - apply andb_true_iff in Hu as [Hl Hr].
    apply (bind_agree subTerm subTy subTy); [by apply IHl|].
    intros [| | |] _; simpl; try done.
    apply (bind_agree subTerm subTy subTy); [by apply IHr|].
    by intros [| | |] _.
  - rewrite lookup_fmap. by destruct (tyEnv !! name).
  - apply andb_true_iff in Hu as [Hps Hbody].
    rewrite bindParams_subParams.
    apply (bind_agree subTerm subTy subTy).
    + apply IHbody; [done|]. by apply bindParams_unique.
    + done.
  - apply andb_true_iff in Hu as [Hfunc Hargs].
    apply (bind_agree subTerm subTy subTy); [by apply IHfunc|].
    intros [| |params retType|] Hf; simpl; try done.
    rewrite !length_map.
    destruct (negb _); [done|].
    change (List.map _ params) with (subParams params).
    apply (bind_agree subTerm id subTy).
    + apply checkArgs_sub; [done | done | done|].
      apply typecheck_unique in Hf; [|done..].
      by apply uniqueFields_Func in Hf as [Hps _].
    + done.
  - apply andb_true_iff in Hu as [Hbody Hrest].
    apply (bind_agree subTerm subTy subTy); [by apply IHbody|].
    intros _ _. by apply IHrest.
  - apply andb_true_iff in Hu as [Hinit Hrest].
    apply (bind_agree subTerm subTy subTy); [by apply IHinit|].
    intros ty Hty. rewrite <- fmap_insert. apply IHrest; [done|].
    apply map_Forall_insert_2; [|done]. by apply (typecheck_unique init tyEnv).
  - apply andb_true_iff in Hu as [Hnd Hprops].
    apply (bind_agree subTerm subParams subTy); [by apply checkProps_sub|].
    done.
  - apply (bind_agree subTerm subTy subTy); [by apply IHobj|].
    intros [| | |props] _; simpl; try done.
    change (List.map _ props) with (subParams props).
    rewrite findProp_subParams. by destruct (findProp propName props).
  - apply andb_true_iff in Hu as [Hu Hrest].
    apply andb_true_iff in Hu as [Hu Hbody].
    apply andb_true_iff in Hu as [Hps Hret].
    assert (uniqueFields (Func params retType) = true) as Hfn
      by (simpl; by rewrite Hps, Hret).
    rewrite bindParams_subParams.
    change (RecFunc.Func (subParams params) (subTy retType))
      with (subTy (Func params retType)).
    rewrite <- !fmap_insert.
    apply (bind_agree subTerm subTy subTy).
    + apply IHbody; [done|]. apply map_Forall_insert_2; [done|].
      by apply bindParams_unique.
    + intros retType' _. rewrite typeEq_subTy.
      destruct (typeEq retType retType'); simpl; [|done].
      apply IHrest; [done|]. by apply map_Forall_insert_2.
Qed.

(** X23. The subtyping checker keeps the invariant of the data model: when
    no object type written in the term or found in the environment, and no
    object literal of the term, repeats a field name, the type it returns
    repeats no field name either. *)
Theorem typecheck_keeps_unique_fields t (tyEnv : gmap string Ty) ty :
  uniqueTerm t = true →
  map_Forall (λ _ ty, uniqueFields ty = true) tyEnv →
  typecheck t tyEnv = Ok ty → uniqueFields ty = true.
Proof. apply typecheck_unique. Qed.

Lemma typecheck_keeps_unique_fields_witness :
  uniqueFields (Func [("x", fooBar)] Boolean) = true.
Proof.
  apply (typecheck_keeps_unique_fields
           (t_func [("x", fooBar)] (t_objectGet (t_var "x") "bar")) ∅
           (Func [("x", fooBar)] Boolean)).
  - reflexivity.
  - apply map_Forall_empty.
  - reflexivity.
Defined.

Lemma sub_typecheck_extends_recFunc_witness :
  RecFunc.typecheck
    (subTerm (t_const "f" (t_func [("x", fooNumber)] (t_objectGet (t_var "x") "foo"))
                (t_call (t_var "f") [t_objectNew [("foo", t_number 1)]])))
    (subTy <$> ∅)
  = mapRes subTerm subTy
      (typecheck (t_const "f" (t_func [("x", fooNumber)] (t_objectGet (t_var "x") "foo"))
                    (t_call (t_var "f") [t_objectNew [("foo", t_number 1)]])) ∅).
Proof.
  apply (sub_typecheck_extends_recFunc
           (t_const "f" (t_func [("x", fooNumber)] (t_objectGet (t_var "x") "foo"))
              (t_call (t_var "f") [t_objectNew [("foo", t_number 1)]])) ∅).
  - reflexivity.
  - reflexivity.
  - apply map_Forall_empty.
  - by vm_compute.
Defined.

(** The two checkers do differ at a rejected argument: the first test
    program of the subtyping variant passes a wider record. *)
Example sub_accepts_wider_record :
  message (RecFunc.typecheck (subTerm prog1) ∅) = Some ArgumentTypeMismatch ∧
  typecheck prog1 ∅ = Ok Number.
Proof. by vm_compute. Qed.

(** With a repeated field name the subtyping checker can reject a call the
    recursive-function checker accepts. *)
Example sub_rejects_repeated_field :
  RecFunc.typecheck
    (subTerm (t_call (t_func [("x", Object [("a", Number); ("a", Boolean)])] (t_number 1))
                [t_objectNew [("a", t_number 1); ("a", t_number 2)]])) ∅
  = Ok RecFunc.Number ∧
  message (typecheck
             (t_call (t_func [("x", Object [("a", Number); ("a", Boolean)])] (t_number 1))
                [t_objectNew [("a", t_number 1); ("a", t_number 2)]]) ∅)
  = Some ArgumentTypeMismatch.
Proof. by vm_compute. Qed.

End SubChapter.

(** ** Scoping, object literals and streams in the recursive-types variant *)

Module RecScope.
Import Rec RecTheory RecTypeTheory.

Lemma bindParams_agree {A} (params : list (string * A)) (S : gset string) :
  ∀ env1 env2 : gmap string A,
    (∀ x, x ∈ S → x ∉ params.*1 → env1 !! x = env2 !! x) →
    ∀ x, x ∈ S → bindParams params env1 !! x = bindParams params env2 !! x.
Proof.
  induction params as [|[n ty] params IH]; intros env1 env2 Hagree x Hx.
  - apply Hagree; [done|]. apply not_elem_of_nil.
  - change (bindParams ((n, ty) :: params) ?e) with (bindParams params (<[n:=ty]> e)).
    apply IH; [|done]. intros y Hy Hyp.
    destruct (decide (n = y)) as [->|Hne].
    + by rewrite !lookup_insert_eq.
    + rewrite !lookup_insert_ne by done. apply Hagree; [done|].
      simpl. rewrite not_elem_of_cons. split; [congruence | done].
Qed.

Lemma elem_of_freeVars_list x (args : list Term) :
  x ∈ ⋃ (List.map freeVars args) ↔ ∃ arg, arg ∈ args ∧ x ∈ freeVars arg.
Proof.
  rewrite elem_of_union_list. split.
  - intros (X & HX & Hx). apply list_elem_of_In, in_map_iff in HX as (a & <- & Ha).
    exists a. by rewrite list_elem_of_In.
  - intros (a & Ha & Hx). exists (freeVars a). split; [|done].
    apply list_elem_of_In, in_map_iff. exists a. by rewrite <- list_elem_of_In.
Qed.

Lemma elem_of_freeVars_props x (props : list (string * Term)) :
  x ∈ ⋃ (List.map (λ p, freeVars p.2) props) ↔ ∃ p, p ∈ props ∧ x ∈ freeVars p.2.
Proof.
  rewrite elem_of_union_list. split.
  - intros (X & HX & Hx). apply list_elem_of_In, in_map_iff in HX as (a & <- & Ha).
    exists a. by rewrite list_elem_of_In.
  - intros (a & Ha & Hx). exists (freeVars a.2). split; [|done].
    apply list_elem_of_In, in_map_iff. exists a. by rewrite <- list_elem_of_In.
Qed.

Lemma checkArgs_ext fuel (tc : Term → TypeEnv → R Ty) args params env1 env2 :
  Forall (λ arg, tc arg env1 = tc arg env2) args →
  checkArgs fuel tc args params env1 = checkArgs fuel tc args params env2.
Proof.
  intros Hargs. revert params.
  induction Hargs as [|arg args Harg _ IH]; intros [|param params]; simpl; try done.
  rewrite Harg. destruct (tc arg env2); simpl; try done.
  destruct (typeEq fuel _ _) as [[|]| | | |]; simpl; try done.
Qed.

Lemma checkProps_ext (tc : Term → TypeEnv → R Ty) props env1 env2 :
  Forall (λ p, tc p.2 env1 = tc p.2 env2) props →
  checkProps tc props env1 = checkProps tc props env2.
Proof.
  induction 1 as [|p props Hp _ IH]; simpl; [done|]. by rewrite Hp, IH.
Qed.

(** X20. The result of [typecheck] depends on the environment only through
    the free variables of the term: two environments that agree on them give
    the same result, so a closed term checks the same in every
    environment. *)
Theorem typecheck_free_variables fuel t (env1 env2 : gmap string Ty) :
  (∀ x, x ∈ freeVars t → env1 !! x = env2 !! x) →
  typecheck fuel t env1 = typecheck fuel t env2.
Proof.
  revert env1 env2.
  induction t as [| |cond thn els IHcond IHthn IHels|n|l r IHl IHr|name
                  |params body IHbody|func args IHfunc IHargs
                  |body rest IHbody IHrest|name init rest IHinit IHrest
                  |props IHprops|obj propName IHobj
                  |funcName params retType body rest IHbody IHrest]
    using Rec_Term_ind; intros env1 env2 Hagree; cbn [typecheck freeVars] in *.
  - done.
  - done.
  - rewrite (IHcond env1 env2), (IHthn env1 env2), (IHels env1 env2); [done|..];
      intros x Hx; apply Hagree; set_solver.
  - done.
  - rewrite (IHl env1 env2), (IHr env1 env2); [done|..];
      intros x Hx; apply Hagree; set_solver.
  - rewrite Hagree by set_solver. done.
  - rewrite (IHbody (bindParams params env1) (bindParams params env2)); [done|].
    intros x Hx. apply (bindParams_agree params (freeVars body)); [|done].
    intros y Hy Hyp. apply Hagree. rewrite elem_of_difference, elem_of_list_to_set. done.
  - rewrite (IHfunc env1 env2) by (intros x Hx; apply Hagree; set_solver).
    destruct (typecheck fuel func env2) as [funcTy0| | | |]; simpl; try done.
    destruct (simplifyType fuel funcTy0) as [[| |params retType| | |]| | | |]; simpl; try done.
    destruct (negb _); [done|].
    rewrite (checkArgs_ext fuel (typecheck fuel) args params env1 env2); [done|].
    rewrite Forall_forall in IHargs. apply Forall_forall. intros arg Harg.
    apply IHargs; [done|]. intros x Hx. apply Hagree.
    apply elem_of_union. right. apply elem_of_freeVars_list. eauto.
  - rewrite (IHbody env1 env2), (IHrest env1 env2); [done|..];
      intros x Hx; apply Hagree; set_solver.
  - rewrite (IHinit env1 env2) by (intros x Hx; apply Hagree; set_solver).
    destruct (typecheck fuel init env2) as [ty| | | |]; simpl; try done.
    apply IHrest. intros x Hx.
    destruct (decide (name = x)) as [->|Hne].
    + by rewrite !lookup_insert_eq.
    + rewrite !lookup_insert_ne by done. apply Hagree. set_solver.
  - rewrite (checkProps_ext (typecheck fuel) props env1 env2); [done|].
    rewrite Forall_forall in IHprops. apply Forall_forall. intros p Hp.
    apply IHprops; [done|]. intros x Hx. apply Hagree.
    apply elem_of_freeVars_props. eauto.
  - rewrite (IHobj env1 env2); [done|]. intros x Hx. by apply Hagree.
  - rewrite (IHbody (<[funcName:=Func params retType]> (bindParams params env1))
                    (<[funcName:=Func params retType]> (bindParams params env2))).
    + destruct (typecheck fuel body _) as [bodyTy| | | |]; simpl; try done.
      destruct (typeEq fuel retType bodyTy) as [[|]| | | |]; simpl; try done.
      apply IHrest. intros x Hx.
      destruct (decide (funcName = x)) as [->|Hne].
      * by rewrite !lookup_insert_eq.
      * rewrite !lookup_insert_ne by done. apply Hagree. set_solver.
    + intros x Hx.
      destruct (decide (funcName = x)) as [->|Hne].
      * by rewrite !lookup_insert_eq.
      * rewrite !lookup_insert_ne by done.
        apply (bindParams_agree params (freeVars body ∖ {[funcName]})); [|set_solver].
        intros y Hy Hyp. apply Hagree.
        apply elem_of_union. left.
        rewrite elem_of_difference, elem_of_union, elem_of_list_to_set. set_solver.
Qed.

Lemma rec_checkProps_Ok tc props (tyEnv : gmap string Rec.Ty) tys :
  Rec.checkProps tc props tyEnv = Ok tys ↔
  Forall2 (λ p q, q.1 = p.1 ∧ tc p.2 tyEnv = Ok q.2) props tys.
Proof.
  revert tys. induction props as [|prop props IH]; intros tys; simpl.
  - split; [intros [= <-]; constructor | by inversion 1].
  - split.
    + destruct (tc prop.2 tyEnv) as [ty| | | |] eqn:Hty; simpl; try done.
      destruct (Rec.checkProps tc props tyEnv) as [tys'| | | |] eqn:Hps; simpl; try done.
      intros [= <-]. constructor; [done | by apply IH].
    + inversion 1 as [|? q ? tys' [Hn Hty] Hrest]; subst.
      apply IH in Hrest. rewrite Hty. simpl. rewrite Hrest. simpl.
      destruct q as [n ty]. simpl in *. by subst.
Qed.

Lemma rec_checkProps_first_failure tc props1 prop props2 (tyEnv : gmap string Rec.Ty) tys1 :
  Rec.checkProps tc props1 tyEnv = Ok tys1 →
  (∀ ty, tc prop.2 tyEnv ≠ Ok ty) →
  Rec.checkProps tc (props1 ++ prop :: props2) tyEnv
  = Embed.mapRes id (λ _, []) (tc prop.2 tyEnv).
Proof.
  revert tys1. induction props1 as [|p props1 IH]; intros tys1 Hok Hfail; simpl in *.
  - destruct (tc prop.2 tyEnv) as [ty| | | |]; simpl; try done. by destruct (Hfail ty).
  - destruct (tc p.2 tyEnv) as [ty| | | |]; simpl in *; try done.
    destruct (Rec.checkProps tc props1 tyEnv) as [tys'| | | |] eqn:Hps; simpl in *; try done.
    rewrite (IH tys') by done.
    destruct (tc prop.2 tyEnv) as [ty'| | | |]; simpl; try done. by destruct (Hfail ty').
Qed.

Lemma findProp_Forall2 {A B} (R : A → B → Prop) name
    (props : list (string * A)) (tys : list (string * B)) :
  Forall2 (λ p q, q.1 = p.1 ∧ R p.2 q.2) props tys →
  match findProp name props, findProp name tys with
  | Some p, Some q => R p.2 q.2
  | None, None => True
  | _, _ => False
  end.
Proof.
  unfold findProp. induction 1 as [|p q props tys [Hn HR] _ IH]; simpl; [done|].
  rewrite Hn. by destruct (bool_decide (p.1 = name)).
Qed.

(** X19. Reading a field of an object literal that has a type gives the type
    of the first field of that name in the literal, and reports an unknown
    field when there is none. *)
Theorem objectGet_objectNew fuel props name (tyEnv : gmap string Ty) ty :
  typecheck fuel (t_objectNew props) tyEnv = Ok ty →
  typecheck fuel (t_objectGet (t_objectNew props) name) tyEnv
  = match findProp name props with
    | Some prop => typecheck fuel prop.2 tyEnv
    | None => Error (UnknownField name) (t_objectGet (t_objectNew props) name)
    end.
Proof.
  cbn [Rec.typecheck].
  destruct (Rec.checkProps _ props tyEnv) as [tys| | | |] eqn:Hps; simpl; try done.
  intros _. rewrite simplifyType_not_Rec_id by done. simpl.
  apply rec_checkProps_Ok in Hps.
  pose proof (findProp_Forall2 (λ t ty, Rec.typecheck fuel t tyEnv = Ok ty) name props tys Hps)
    as Hfind.
  destruct (findProp name props), (findProp name tys); try done.
Qed.

Lemma stream_step fuel name field (tyEnv : gmap string Ty) t :
  typecheck (S fuel) t tyEnv = Ok (selfStream name field) →
  typecheck (S fuel) (t_call (t_objectGet t field) []) tyEnv = Ok (selfStream name field).
Proof.
  intros Ht. cbn [typecheck]. rewrite Ht. cbn [bind].
  rewrite simplifyType_selfStream. cbn [bind]. unfold findProp. cbn [find fst].
  rewrite bool_decide_eq_true_2 by done. cbn [snd bind].
  by destruct fuel.
Qed.

Ltac stream_unfold_step :=
  rewrite typeEqSub_S; unfold selfStream, findProp; cbn -[typeEqSub];
  repeat (first [rewrite bool_decide_eq_true_2 by done | rewrite lookup_insert_eq
                | rewrite simplifyType_not_Rec_id by done];
          cbn -[typeEqSub]).

(** X17. An object literal has a type exactly when every field has one; the
    type is the object type with the same field names in the same order,
    each with the type of its term. *)
Theorem objectNew_typing fuel props (tyEnv : gmap string Ty) ty :
  typecheck fuel (t_objectNew props) tyEnv = Ok ty ↔
  ∃ tys, ty = Object tys ∧
         Forall2 (λ p q, q.1 = p.1 ∧ typecheck fuel p.2 tyEnv = Ok q.2) props tys.
Proof.
  cbn [typecheck]. split.
  - destruct (checkProps _ props tyEnv) as [tys| | | |] eqn:Hps; simpl; try done.
    intros [= <-]. exists tys. split; [done|]. by apply rec_checkProps_Ok.
  - intros (tys & -> & Hall). apply rec_checkProps_Ok in Hall. by rewrite Hall.
Qed.

Lemma objectNew_typing_witness :
  typecheck 0 (t_objectNew [("foo", t_number 1); ("bar", t_true)]) ∅
  = Ok (Object [("foo", Number); ("bar", Boolean)]).
Proof.
  apply (objectNew_typing 0 [("foo", t_number 1); ("bar", t_true)] ∅
           (Object [("foo", Number); ("bar", Boolean)])).
  exists [("foo", Number); ("bar", Boolean)]. split; [reflexivity|].
  repeat constructor.
Defined.

(** X18. An object literal reports the error of its first field that has no
    type: the fields after it are not looked at. *)
Theorem objectNew_first_error fuel props1 prop props2 (tyEnv : gmap string Ty) msg t' :
  Forall (λ p, ∃ ty, typecheck fuel p.2 tyEnv = Ok ty) props1 →
  typecheck fuel prop.2 tyEnv = Error msg t' →
  typecheck fuel (t_objectNew (props1 ++ prop :: props2)) tyEnv = Error msg t'.
Proof.
  intros Hprops1 Hprop. cbn [typecheck].
  assert (∃ tys1, checkProps (typecheck fuel) props1 tyEnv = Ok tys1) as [tys1 Htys1].
  { induction Hprops1 as [|p props1 [ty Hp] _ [tys IH]]; [by exists []|].
    exists ((p.1, ty) :: tys). simpl. by rewrite Hp, IH. }
  rewrite (rec_checkProps_first_failure _ _ _ _ _ _ Htys1) by (by rewrite Hprop).
  by rewrite Hprop.
Qed.

Lemma objectNew_first_error_witness :
  typecheck 0 (t_objectNew ([("a", t_number 1)] ++ ("b", t_var "x") :: [("c", t_var "y")])) ∅
  = Error (UnknownVariable "x") (t_var "x").
Proof.
  apply (objectNew_first_error 0 [("a", t_number 1)] ("b", t_var "x") [("c", t_var "y")] ∅
           (UnknownVariable "x") (t_var "x")).
  - constructor; [by exists Number | constructor].
  - reflexivity.
Defined.

Lemma objectGet_objectNew_witness :
  typecheck 0 (t_objectGet (t_objectNew [("foo", t_number 1); ("foo", t_true)]) "foo") ∅
  = match findProp "foo" [("foo", t_number 1); ("foo", t_true)] with
    | Some prop => typecheck 0 prop.2 ∅
    | None => Error (UnknownField "foo")
                (t_objectGet (t_objectNew [("foo", t_number 1); ("foo", t_true)]) "foo")
    end.
Proof.
  apply (objectGet_objectNew 0 [("foo", t_number 1); ("foo", t_true)] "foo" ∅
           (Object [("foo", Number); ("foo", Boolean)])).
  reflexivity.
Defined.

Lemma typecheck_free_variables_witness :
  typecheck 1 (t_func [("x", Number)] (t_add (t_var "x") (t_var "y")))
    (<["y" := Number]> ∅)
  = typecheck 1 (t_func [("x", Number)] (t_add (t_var "x") (t_var "y")))
      (<["x" := Boolean]> (<["y" := Number]> ∅)).
Proof.
  apply (typecheck_free_variables 1 (t_func [("x", Number)] (t_add (t_var "x") (t_var "y")))
           (<["y" := Number]> ∅) (<["x" := Boolean]> (<["y" := Number]> ∅))).
  intros x Hx. assert ("x" ≠ x) as Hne by (revert Hx; simpl; set_solver).
  symmetry. by apply lookup_insert_ne.
Defined.

(** X21. A term whose type is a stream keeps this type under any number of
    steps [t.field()]. *)
Theorem stream_steps fuel name field (tyEnv : gmap string Ty) t n :
  typecheck (S fuel) t tyEnv = Ok (selfStream name field) →
  typecheck (S fuel) (Nat.iter n (λ t, t_call (t_objectGet t field) []) t) tyEnv
  = Ok (selfStream name field).
Proof.
  intros Ht. induction n as [|n IH]; [done|].
  rewrite Nat.iter_succ. by apply stream_step.
Qed.

Lemma stream_steps_witness :
  typecheck 1 (Nat.iter 3 (λ t, t_call (t_objectGet t "rest") []) (t_var "s"))
    (<["s" := selfStream "S" "rest"]> ∅)
  = Ok (selfStream "S" "rest").
Proof.
  apply (stream_steps 0 "S" "rest" (<["s" := selfStream "S" "rest"]> ∅) (t_var "s") 3).
  reflexivity.
Defined.

(** X22. A stream type and its unfolding are equal for [typeEq], in both
    orders. *)
Theorem selfStream_equals_unfolding name field fuel :
  typeEq (8 + fuel) (selfStream name field)
    (Object [(field, Func [] (selfStream name field))]) = Ok true ∧
  typeEq (5 + fuel) (Object [(field, Func [] (selfStream name field))])
    (selfStream name field) = Ok true.
Proof.
  unfold typeEq. split.
  - change (8 + fuel) with (S (S (S (S (S (S (S (S fuel)))))))).
    repeat stream_unfold_step. done.
  - change (5 + fuel) with (S (S (S (S (S fuel))))).
    repeat stream_unfold_step. done.
Qed.

End RecScope.

(** ** The programs of the source files *)

(** The outputs the source files record in comments next to their test
    programs. *)

Example sub_prog1_Number : Sub.typecheck Sub.prog1 ∅ = Ok Sub.Number.
Proof. by vm_compute. Qed.

Example sub_prog2_mismatch :
  Sub.typecheck Sub.prog2 ∅ = Error ArgumentTypeMismatch (Sub.t_var "g").
Proof. by vm_compute. Qed.

Example sub_prog3_Number : Sub.typecheck Sub.prog3 ∅ = Ok Sub.Number.
Proof. by vm_compute. Qed.

Example sub_prog4_mismatch :
  Sub.typecheck Sub.prog4 ∅ = Error ArgumentTypeMismatch Sub.prog4_arg.
Proof. by vm_compute. Qed.

Example recfunc_prog_f0_Number : RecFunc.typecheck RecFunc.prog_f0 ∅ = Ok RecFunc.Number.
Proof. by vm_compute. Qed.

Example rec_numbers_prog_NumStream (fuel : nat) :
  8 ≤ fuel → Rec.typecheck fuel Rec.numbers_prog ∅ = Ok Rec.NumStream.
Proof. intros Hfuel. do 8 (destruct fuel as [|fuel]; [lia|]). by vm_compute. Qed.

Example basic_prog_select_Number : Basic.typecheck Basic.prog_select ∅ = Ok Basic.Number.
Proof. by vm_compute. Qed.
